(** * build-number-action: the request orchestration of [src/main.ts]

    A shallow embedding of the action's entry point and of the platform
    functions it calls, followed by the properties proved about it.

    Strings.  A JavaScript string is embedded as a Rocq [string] holding its
    UTF-8 encoding.  Every character class the program tests is ASCII, so a
    test on code units and the same test on bytes agree; the places where a
    platform function looks at characters beyond ASCII (white space in
    [trim], percent-encoding) are written on the encoded bytes.

    Numbers.  A JavaScript number is embedded by its exact value (see
    [JsNumber]); conversions from and to strings round to binary64 as the
    language prescribes. *)

From Stdlib Require Import ZArith List String Ascii Bool Lia.
From Stdlib Require Import Numbers.DecimalString Numbers.DecimalPos.
Import ListNotations.

Local Open Scope list_scope.
Local Open Scope string_scope.
Local Open Scope Z_scope.

(* ================================================================== *)
(** * Characters and strings *)
(* ================================================================== *)

Module Chars.

(** The code of a byte, 0..255. *)
Definition code (c : ascii) : Z := Z.of_N (N_of_ascii c).

Definition in_range (lo hi : Z) (c : ascii) : bool :=
  (lo <=? code c) && (code c <=? hi).

Definition is_digit (c : ascii) : bool := in_range 48 57 c.
Definition is_upper (c : ascii) : bool := in_range 65 90 c.
Definition is_lower (c : ascii) : bool := in_range 97 122 c.
Definition is_alpha (c : ascii) : bool := is_upper c || is_lower c.
Definition is_alnum (c : ascii) : bool := is_alpha c || is_digit c.

Definition is_char (k : Z) (c : ascii) : bool := code c =? k.

(** Membership of a byte in a set given by its members' codes. *)
Definition one_of (ks : list Z) (c : ascii) : bool :=
  existsb (fun k => code c =? k) ks.

(** The double quote, which a string literal cannot hold. *)
Definition dquote : string := String "034"%char EmptyString.

(** ASCII lower-casing of a byte and of a string. *)
Definition to_lower (c : ascii) : ascii :=
  if is_upper c then ascii_of_N (N_of_ascii c + 32) else c.

Fixpoint lowercase (s : string) : string :=
  match s with
  | EmptyString => EmptyString
  | String c r => String (to_lower c) (lowercase r)
  end.

Fixpoint all_chars (p : ascii -> bool) (s : string) : bool :=
  match s with
  | EmptyString => true
  | String c r => p c && all_chars p r
  end.

Definition len (s : string) : Z := Z.of_nat (String.length s).

(** Removal of a prefix: [Some rest] when [s = p ++ rest]. *)
Fixpoint strip_prefix (p s : string) : option string :=
  match p, s with
  | EmptyString, _ => Some s
  | String a p', String b s' => if Ascii.eqb a b then strip_prefix p' s' else None
  | String _ _, EmptyString => None
  end.

Definition ends_with (s suffix : string) : bool :=
  let n := String.length s in
  let k := String.length suffix in
  (k <=? n)%nat && String.eqb (substring (n - k) k s) suffix.

Fixpoint repeat_char (c : ascii) (n : nat) : string :=
  match n with
  | O => EmptyString
  | S k => String c (repeat_char c k)
  end.

Fixpoint join (sep : string) (l : list string) : string :=
  match l with
  | [] => EmptyString
  | [x] => x
  | x :: r => x ++ sep ++ join sep r
  end.

End Chars.
Import Chars.

(* ================================================================== *)
(** * Errors *)
(* ================================================================== *)

(** A thrown value.  Every value the program throws or receives from a
    rejected promise is an [Error] object; only its [message] is read. *)
Record Error : Type := mkError { message : string }.

Inductive Result (A : Type) : Type :=
| Ok (a : A)
| Err (e : Error).
Arguments Ok {A} a.
Arguments Err {A} e.

Definition throw {A : Type} (msg : string) : Result A := Err (mkError msg).

Definition rbind {A B : Type} (r : Result A) (k : A -> Result B) : Result B :=
  match r with
  | Ok a => k a
  | Err e => Err e
  end.

(* ================================================================== *)
(** * The platform: ECMAScript string functions *)
(* ================================================================== *)

Module JsString.

(** White space as [String.prototype.trim] and [Number] see it
    (WhiteSpace and LineTerminator), on the UTF-8 encoding:
    TAB LF VT FF CR SP; U+00A0; U+1680; U+2000..U+200A, U+2028, U+2029,
    U+202F; U+205F; U+3000; U+FEFF. *)
Definition is_ascii_ws (c : ascii) : bool := one_of [9; 10; 11; 12; 13; 32] c.

Definition ws_e2_80 (c : ascii) : bool :=
  in_range 128 138 c || one_of [168; 169; 175] c.

(** [trimStart]. *)
Fixpoint trimStart (s : string) : string :=
  match s with
  | EmptyString => EmptyString
  | String c r =>
    if is_ascii_ws c then trimStart r
    else match r with
    | String c1 r1 =>
      if is_char 194 c && is_char 160 c1 then trimStart r1
      else match r1 with
      | String c2 r2 =>
        if (is_char 225 c && is_char 154 c1 && is_char 128 c2)
           || (is_char 226 c && is_char 128 c1 && ws_e2_80 c2)
           || (is_char 226 c && is_char 129 c1 && is_char 159 c2)
           || (is_char 227 c && is_char 128 c1 && is_char 128 c2)
           || (is_char 239 c && is_char 187 c1 && is_char 191 c2)
        then trimStart r2 else s
      | EmptyString => s
      end
    | EmptyString => s
    end
  end.

(** The string is white space only. *)
Definition is_blank (s : string) : bool := String.eqb (trimStart s) EmptyString.

(** [trimEnd]: a suffix that begins inside a character starts with a
    continuation byte, which begins no white space, so testing each suffix
    for blankness finds the first position of the trailing white space. *)
Fixpoint trimEnd (s : string) : string :=
  match s with
  | EmptyString => EmptyString
  | String c r => if is_blank s then EmptyString else String c (trimEnd r)
  end.

(** [String.prototype.trim]. *)
Definition trim (s : string) : string := trimEnd (trimStart s).

(** [haystack.includes(needle)], as a proposition. *)
Definition includes (haystack needle : string) : Prop :=
  exists pre post, haystack = pre ++ needle ++ post.

End JsString.

(* ================================================================== *)
(** * main.ts: validators *)
(* ================================================================== *)

Module Validator.

(** [const NAME_RE = /^[A-Za-z0-9_.-]{3,64}$/]. *)
Definition name_char (c : ascii) : bool :=
  is_upper c || is_lower c || is_digit c || one_of [95; 46; 45] c.

Definition NAME_RE_test (value : string) : bool :=
  all_chars name_char value && (3 <=? len value) && (len value <=? 64).

(** [requireNonEmpty(name, value)]. *)
Definition requireNonEmpty (name value : string) : Result unit :=
  if String.eqb value "" || (String.length (JsString.trim value) =? 0)%nat
  then throw ("Missing required input: " ++ name)
  else Ok tt.

Inductive NameKind : Type := KNamespace | KKey.

Definition kind_text (k : NameKind) : string :=
  match k with
  | KNamespace => "namespace"
  | KKey => "key"
  end.

(** [validateName(kind, value)]. *)
Definition validateName (kind : NameKind) (value : string) : Result unit :=
  if negb (NAME_RE_test value)
  then throw ("Invalid " ++ kind_text kind
              ++ ": must match ^[A-Za-z0-9_-.]{3,64}$ (got "
              ++ dquote ++ value ++ dquote ++ ")")
  else Ok tt.

End Validator.

(* ================================================================== *)
(** * The platform: ECMAScript numbers *)
(* ================================================================== *)

Module JsNumber.

(** A Number value: not-a-number, an infinity, or a finite binary64 value
    [m * 2^e].  The two zeros are one value here: the program passes its
    numbers to [Math.max(0, _)], [String], [Number.isInteger] and a timer
    only, none of which tells them apart. *)
Inductive number : Type :=
| NaN
| Infinity (negative : bool)
| Finite (m e : Z).

(** Round-half-even of the quotient [num / den], for [den > 0]. *)
Definition round_half_even (num den : Z) : Z :=
  let d := num / den in
  let r := num mod den in
  if 2 * r <? den then d
  else if den <? 2 * r then d + 1
  else if Z.even d then d else d + 1.

(** [floor (log2 (p / q))] for positive [p] and [q]. *)
Definition binade (p q : Z) : Z :=
  let e0 := Z.log2 p - Z.log2 q in
  if q * 2 ^ Z.max e0 0 <=? p * 2 ^ Z.max (- e0) 0 then e0 else e0 - 1.

(** The Number value for the non-negative rational [p / q]: IEEE 754
    binary64 round-to-nearest, ties to even; subnormal below [2^-1022],
    infinite from [2^1024 - 2^970] on. *)
Definition to_double_abs (p q : Z) : number :=
  if p =? 0 then Finite 0 0
  else
    let E := Z.max (binade p q - 52) (-1074) in
    let M := if 0 <=? E then round_half_even p (q * 2 ^ E)
             else round_half_even (p * 2 ^ (- E)) q in
    if (0 <=? E) && (2 ^ 1024 <=? M * 2 ^ E) then Infinity false
    else Finite M E.

Definition negate (x : number) : number :=
  match x with
  | NaN => NaN
  | Infinity s => Infinity (negb s)
  | Finite m e => Finite (- m) e
  end.

Definition to_double (negative : bool) (p q : Z) : number :=
  if negative then negate (to_double_abs p q) else to_double_abs p q.

(** The Number value of an integer that binary64 holds exactly. *)
Definition of_Z (n : Z) : number := Finite n 0.

(** [Number.isFinite]. *)
Definition isFinite (x : number) : bool :=
  match x with
  | Finite _ _ => true
  | _ => false
  end.

(** [Number.isInteger]. *)
Definition isInteger (x : number) : bool :=
  match x with
  | Finite m e => (0 <=? e) || (m mod 2 ^ (- e) =? 0)
  | _ => false
  end.

(** The integer an integral finite number denotes. *)
Definition integer_value (x : number) : Z :=
  match x with
  | Finite m e => if 0 <=? e then m * 2 ^ e else m / 2 ^ (- e)
  | _ => 0
  end.

(** Equality of values ([Finite] is not a normal form). *)
Definition eqb (x y : number) : bool :=
  match x, y with
  | Finite m1 e1, Finite m2 e2 =>
    m1 * 2 ^ (e1 - Z.min e1 e2) =? m2 * 2 ^ (e2 - Z.min e1 e2)
  | Infinity s1, Infinity s2 => Bool.eqb s1 s2
  | _, _ => false
  end.

(** ** StringToNumber *)

Definition digit_value (base : Z) (c : ascii) : option Z :=
  let v :=
    if is_digit c then code c - 48
    else if in_range 97 102 c then code c - 87
    else if in_range 65 70 c then code c - 55
    else 99 in
  if v <? base then Some v else None.

(** The longest prefix of digits in [base], with the rest. *)
Fixpoint span_digits (base : Z) (s : string) : string * string :=
  match s with
  | EmptyString => (EmptyString, EmptyString)
  | String c r =>
    match digit_value base c with
    | Some _ => let (d, r') := span_digits base r in (String c d, r')
    | None => (EmptyString, s)
    end
  end.

Fixpoint digits_value (base : Z) (acc : Z) (s : string) : Z :=
  match s with
  | EmptyString => acc
  | String c r =>
    match digit_value base c with
    | Some v => digits_value base (acc * base + v) r
    | None => acc
    end
  end.

Definition is_empty (s : string) : bool :=
  match s with
  | EmptyString => true
  | _ => false
  end.

(** An optional sign: whether it is [-], and the rest. *)
Definition take_sign (s : string) : bool * string :=
  match s with
  | String c r =>
    if is_char 45 c then (true, r)
    else if is_char 43 c then (false, r)
    else (false, s)
  | EmptyString => (false, s)
  end.

(** StrUnsignedDecimalLiteral other than [Infinity]: digits with an
    optional fraction and an optional exponent part.  The result is the pair
    [(m, k)] of the literal's mathematical value [m * 10^k]. *)
Definition parse_unsigned_decimal (s : string) : option (Z * Z) :=
  let (ip, r1) := span_digits 10 s in
  let '(fp, r2) :=
    match r1 with
    | String c r => if is_char 46 c then span_digits 10 r else (EmptyString, r1)
    | EmptyString => (EmptyString, r1)
    end in
  if is_empty ip && is_empty fp then None
  else
    let m := digits_value 10 0 (ip ++ fp) in
    match r2 with
    | EmptyString => Some (m, - len fp)
    | String c r3 =>
      if is_char 101 c || is_char 69 c then
        let (neg, r4) := take_sign r3 in
        let (ed, r5) := span_digits 10 r4 in
        if is_empty ed || negb (is_empty r5) then None
        else
          let x := digits_value 10 0 ed in
          Some (m, (if neg then - x else x) - len fp)
      else None
    end.

(** NonDecimalIntegerLiteral: [0x], [0o] or [0b] (either case) and at least
    one digit of that base. *)
Definition parse_non_decimal (s : string) : option (option Z) :=
  match s with
  | String c0 (String c1 r) =>
    if is_char 48 c0 then
      let base :=
        if is_char 120 c1 || is_char 88 c1 then Some 16
        else if is_char 111 c1 || is_char 79 c1 then Some 8
        else if is_char 98 c1 || is_char 66 c1 then Some 2
        else None in
      match base with
      | Some b =>
        let (d, rest) := span_digits b r in
        if is_empty d || negb (is_empty rest) then Some None
        else Some (Some (digits_value b 0 d))
      | None => None
      end
    else None
  | _ => None
  end.

(** The Number value of the decimal [m * 10^k], [m >= 0]. *)
Definition of_decimal (negative : bool) (m k : Z) : number :=
  if 0 <=? k then to_double negative (m * 10 ^ k) 1
  else to_double negative m (10 ^ (- k)).

(** [Number(raw)] for a string: StringToNumber. *)
Definition Number (raw : string) : number :=
  let s := JsString.trim raw in
  if is_empty s then Finite 0 0
  else
    match parse_non_decimal s with
    | Some (Some n) => to_double false n 1
    | Some None => NaN
    | None =>
      let (neg, r) := take_sign s in
      if String.eqb r "Infinity" then Infinity neg
      else
        match parse_unsigned_decimal r with
        | Some (m, k) => of_decimal neg m k
        | None => NaN
        end
    end.

(** ** Number::toString (radix 10) *)

Definition Z_to_string (n : Z) : string := NilEmpty.string_of_int (Z.to_int n).

(** The least [j' >= j] with [p < q * 10^j'], searched upwards. *)
Fixpoint exponent_up (fuel : nat) (p q j : Z) : Z :=
  match fuel with
  | O => j
  | S f => if p <? q * 10 ^ j then j else exponent_up f p q (j + 1)
  end.

(** The least [j' >= j] with [q <= p * 10^j'], searched upwards. *)
Fixpoint exponent_down (fuel : nat) (p q j : Z) : Z :=
  match fuel with
  | O => j
  | S f => if q <=? p * 10 ^ j then j else exponent_down f p q (j + 1)
  end.

(** The [n] with [10^(n-1) <= p / q < 10^n], for a positive binary64
    value [p / q] (its decimal exponent lies between -323 and 309). *)
Definition decimal_exponent (p q : Z) : Z :=
  if q <=? p then exponent_up 400 p q 1
  else 1 - exponent_down 400 p q 1.

(** A candidate for the digits of [x]: [s * 10^e] is read back as [x]. *)
Definition round_trips (x : number) (s e : Z) : bool :=
  eqb (of_decimal false s e) x.

(** The candidate [s] of [k] digits at decimal exponent [n0]; if it has
    grown to [10^k] it is the one digit 1 at the next exponent. *)
Definition pick_digits (s k n0 : Z) : Z * Z * Z :=
  if s =? 10 ^ k then (1, 1, n0 + 1) else (s, k, n0).

(** The digits of Number::toString: integers [s], [k], [n] with
    [10^(k-1) <= s < 10^k] such that the Number value for [s * 10^(n-k)] is
    [x], with [k] as small as possible and, among those, [s * 10^(n-k)]
    closest to [x] (an even [s] on a tie).  For [k] digits the only
    candidates are the two multiples of [10^(n0-k)] around [x = p / q],
    where [n0] is the decimal exponent of [x]. *)
Fixpoint shortest_digits (fuel : nat) (x : number) (p q n0 k : Z) : Z * Z * Z :=
  let sp := p * 10 ^ Z.max (k - n0) 0 in
  let sq := q * 10 ^ Z.max (n0 - k) 0 in
  let lo := sp / sq in
  let hi := lo + 1 in
  match fuel with
  | O => pick_digits lo k n0
  | S f =>
    let ok_lo := round_trips x lo (n0 - k) in
    let ok_hi := round_trips x hi (n0 - k) in
    if ok_lo && ok_hi then
      let r := sp - lo * sq in
      if 2 * r <? sq then pick_digits lo k n0
      else if sq <? 2 * r then pick_digits hi k n0
      else if Z.even lo then pick_digits lo k n0 else pick_digits hi k n0
    else if ok_lo then pick_digits lo k n0
    else if ok_hi then pick_digits hi k n0
    else shortest_digits f x p q n0 (k + 1)
  end.

Definition zeros (n : Z) : string := repeat_char "0"%char (Z.to_nat n).

(** Number::toString of the positive finite value [m * 2^e]. *)
Definition positive_to_string (m e : Z) : string :=
  let p := m * 2 ^ Z.max e 0 in
  let q := 2 ^ Z.max (- e) 0 in
  let n0 := decimal_exponent p q in
  let '(s, k, n) := shortest_digits 17 (Finite m e) p q n0 1 in
  let ds := Z_to_string s in
  if (k <=? n) && (n <=? 21) then ds ++ zeros (n - k)
  else if (0 <? n) && (n <=? 21) then
    substring 0 (Z.to_nat n) ds ++ "." ++ substring (Z.to_nat n) (Z.to_nat (k - n)) ds
  else if (-6 <? n) && (n <=? 0) then "0." ++ zeros (- n) ++ ds
  else
    let ex := n - 1 in
    let tail := "e" ++ (if ex <? 0 then "-" else "+") ++ Z_to_string (Z.abs ex) in
    if k =? 1 then ds ++ tail
    else substring 0 1 ds ++ "." ++ substring 1 (Z.to_nat (k - 1)) ds ++ tail.

(** [String(x)] for a Number. *)
Definition to_string (x : number) : string :=
  match x with
  | NaN => "NaN"
  | Infinity false => "Infinity"
  | Infinity true => "-Infinity"
  | Finite m e =>
    if m =? 0 then "0"
    else if m <? 0 then "-" ++ positive_to_string (- m) e
    else positive_to_string m e
  end.

End JsNumber.

(* ================================================================== *)
(** * The platform: URLs (WHATWG URL Standard) *)
(* ================================================================== *)

Module JsUrl.

Definition hex_digit (n : Z) : ascii :=
  ascii_of_N (Z.to_N (if n <? 10 then 48 + n else 55 + n)).

(** [%XX] for one byte, in upper-case hexadecimal. *)
Definition percent_byte (c : ascii) : string :=
  String "%"%char
    (String (hex_digit (code c / 16)) (String (hex_digit (code c mod 16)) EmptyString)).

(** Percent-encoding of the bytes of [s] that are in the set. *)
Fixpoint percent_encode (in_set : ascii -> bool) (s : string) : string :=
  match s with
  | EmptyString => EmptyString
  | String c r =>
    (if in_set c then percent_byte c else String c EmptyString)
    ++ percent_encode in_set r
  end.

(** [encodeURIComponent]: everything but [A-Za-z0-9 - _ . ! ~ * ' ( )] is
    percent-encoded, byte by byte of the UTF-8 encoding.  (The URIError for
    a lone surrogate does not arise: the encoding holds none.) *)
Definition uri_unreserved (c : ascii) : bool :=
  is_alnum c || one_of [45; 95; 46; 33; 126; 42; 39; 40; 41] c.

Definition encodeURIComponent (s : string) : string :=
  percent_encode (fun c => negb (uri_unreserved c)) s.

(** The percent-encode sets of the URL Standard, as the URL parser of Node
    applies them: its path set is the one of the Standard before U+005E was
    added to it, so a circumflex stays as it is in a path.  (The properties
    below that spell out a URL are about paths without a circumflex, and hold
    with either set.) *)
Definition c0_control_set (c : ascii) : bool := (code c <=? 31) || (126 <? code c).
Definition fragment_set (c : ascii) : bool :=
  c0_control_set c || one_of [32; 34; 60; 62; 96] c.
Definition query_set (c : ascii) : bool :=
  c0_control_set c || one_of [32; 34; 35; 60; 62] c.
Definition special_query_set (c : ascii) : bool := query_set c || is_char 39 c.
Definition path_set (c : ascii) : bool :=
  query_set c || one_of [63; 96; 123; 125] c.

(** A parsed URL of a fixed origin (scheme, host and port are the
    origin's): its path segments, query and fragment. *)
Record URL : Type := mkURL {
  origin : string;
  path : list string;
  query : option string;
  fragment : option string
}.

Definition is_single_dot (seg : string) : bool :=
  let l := lowercase seg in
  String.eqb l "." || String.eqb l "%2e".

Definition is_double_dot (seg : string) : bool :=
  let l := lowercase seg in
  String.eqb l ".." || String.eqb l ".%2e" || String.eqb l "%2e."
  || String.eqb l "%2e%2e".

(** The end of a path segment [buf]; [at_slash] tells whether a slash
    ended it (rather than [?], [#] or the end of the input). *)
Definition push_segment (buf : string) (at_slash : bool) (p : list string)
  : list string :=
  if is_double_dot buf then
    if at_slash then removelast p else removelast p ++ [EmptyString]
  else if is_single_dot buf then
    if at_slash then p else p ++ [EmptyString]
  else p ++ [buf].

(** Query state: up to [#] or the end. *)
Fixpoint query_state (s buf : string) : string * option string :=
  match s with
  | EmptyString => (buf, None)
  | String c r =>
    if is_char 35 c then (buf, Some (percent_encode fragment_set r))
    else query_state r (buf ++ percent_encode special_query_set (String c EmptyString))
  end.

(** Path state of a special URL. *)
Fixpoint path_state (o s buf : string) (p : list string) : URL :=
  match s with
  | EmptyString => mkURL o (push_segment buf false p) None None
  | String c r =>
    if is_char 47 c || is_char 92 c then path_state o r EmptyString (push_segment buf true p)
    else if is_char 63 c then
      let (q, f) := query_state r EmptyString in
      mkURL o (push_segment buf false p) (Some q) f
    else if is_char 35 c then
      mkURL o (push_segment buf false p) None (Some (percent_encode fragment_set r))
    else path_state o r (buf ++ percent_encode path_set (String c EmptyString)) p
  end.

(** Path start state of a special URL. *)
Definition path_start_state (o s : string) : URL :=
  match s with
  | String c r =>
    if is_char 47 c || is_char 92 c then path_state o r EmptyString []
    else path_state o s EmptyString []
  | EmptyString => path_state o s EmptyString []
  end.

(** Input preparation: leading and trailing C0 controls and spaces are
    dropped, then every tab and newline. *)
Definition is_c0_or_space (c : ascii) : bool := code c <=? 32.

Fixpoint strip_leading (s : string) : string :=
  match s with
  | EmptyString => EmptyString
  | String c r => if is_c0_or_space c then strip_leading r else s
  end.

Fixpoint strip_trailing (s : string) : string :=
  match s with
  | EmptyString => EmptyString
  | String c r =>
    if all_chars is_c0_or_space s then EmptyString else String c (strip_trailing r)
  end.

Fixpoint remove_tab_newline (s : string) : string :=
  match s with
  | EmptyString => EmptyString
  | String c r =>
    if one_of [9; 10; 13] c then remove_tab_newline r
    else String c (remove_tab_newline r)
  end.

Definition ends_authority (rest : string) : bool :=
  match rest with
  | EmptyString => true
  | String c _ => one_of [47; 92; 63; 35] c
  end.

(** [new URL(input)] for an input that spells out the origin [o] (a
    special scheme and a host, as the program's constant does) and goes on
    with a path, a query or a fragment.  The program builds no other input;
    one that does not start this way is outside this model and is refused
    here. *)
Definition parse (o input : string) : Result URL :=
  let s := remove_tab_newline (strip_trailing (strip_leading input)) in
  match strip_prefix o s with
  | Some rest =>
    if ends_authority rest then Ok (path_start_state o rest)
    else throw "Invalid URL"
  | None => throw "Invalid URL"
  end.

(** [url.toString()]: the URL serializer. *)
Definition href (u : URL) : string :=
  origin u
  ++ concat EmptyString (map (fun seg => "/" ++ seg) (path u))
  ++ match query u with Some q => "?" ++ q | None => EmptyString end
  ++ match fragment u with Some f => "#" ++ f | None => EmptyString end.

(** ** URLSearchParams *)

(** The application/x-www-form-urlencoded byte serializer. *)
Definition urlencoded_keep (c : ascii) : bool :=
  is_alnum c || one_of [42; 45; 46; 95] c.

Fixpoint urlencoded_string (s : string) : string :=
  match s with
  | EmptyString => EmptyString
  | String c r =>
    (if is_char 32 c then "+"
     else if urlencoded_keep c then String c EmptyString
     else percent_byte c)
    ++ urlencoded_string r
  end.

Definition urlencoded_serialize (l : list (string * string)) : string :=
  join "&" (map (fun nv => urlencoded_string (fst nv) ++ "=" ++ urlencoded_string (snd nv)) l).

(** Splitting at every occurrence, and at the first occurrence, of a byte. *)
Fixpoint split_all (k : Z) (s cur : string) : list string :=
  match s with
  | EmptyString => [cur]
  | String c r =>
    if is_char k c then cur :: split_all k r EmptyString
    else split_all k r (cur ++ String c EmptyString)
  end.

Fixpoint split_first (k : Z) (s cur : string) : string * string :=
  match s with
  | EmptyString => (cur, EmptyString)
  | String c r =>
    if is_char k c then (cur, r)
    else split_first k r (cur ++ String c EmptyString)
  end.

Definition hex_value (c : ascii) : option Z :=
  if is_digit c then Some (code c - 48)
  else if in_range 97 102 c then Some (code c - 87)
  else if in_range 65 70 c then Some (code c - 55)
  else None.

(** Percent-decoding, with [+] read as a space. *)
Fixpoint urlencoded_decode (s : string) : string :=
  match s with
  | EmptyString => EmptyString
  | String c r =>
    if is_char 43 c then String " "%char (urlencoded_decode r)
    else
      match r with
      | String h (String l r') =>
        match (if is_char 37 c then hex_value h else None), hex_value l with
        | Some a, Some b => String (ascii_of_N (Z.to_N (16 * a + b))) (urlencoded_decode r')
        | _, _ => String c (urlencoded_decode r)
        end
      | _ => String c (urlencoded_decode r)
      end
  end.

(** The application/x-www-form-urlencoded parser.  (Decoded bytes that are
    not UTF-8 are kept as they are, where the platform substitutes U+FFFD.) *)
Definition urlencoded_parse (q : string) : list (string * string) :=
  map (fun piece =>
         let (n, v) := split_first 61 piece EmptyString in
         (urlencoded_decode n, urlencoded_decode v))
      (filter (fun piece => negb (String.eqb piece EmptyString)) (split_all 38 q EmptyString)).

(** [URLSearchParams.prototype.set] on a list of pairs. *)
Fixpoint params_set (l : list (string * string)) (name value : string)
  : list (string * string) :=
  match l with
  | [] => [(name, value)]
  | (n, v) :: r =>
    if String.eqb n name
    then (name, value) :: filter (fun nv => negb (String.eqb (fst nv) name)) r
    else (n, v) :: params_set r name value
  end.

(** [url.searchParams.set(name, value)]: the list read from the query is
    updated and written back as the URL's query (null when it serializes to
    the empty string). *)
Definition searchParams_set (u : URL) (name value : string) : URL :=
  let l := urlencoded_parse (match query u with Some q => q | None => EmptyString end) in
  let ser := urlencoded_serialize (params_set l name value) in
  mkURL (origin u) (path u)
        (if String.eqb ser EmptyString then None else Some ser)
        (fragment u).

End JsUrl.

(* ================================================================== *)
(** * The platform: values and JSON *)
(* ================================================================== *)

Module Json.

Import JsNumber.

(** The values [JSON.parse] produces, and [undefined]. *)
#[warnings="-register-all"]
Inductive value : Type :=
| Undefined
| Null
| Bool (b : bool)
| Num (x : number)
| Str (s : string)
| Arr (items : list value)
| Obj (fields : list (string * value)).

(** UTF-8 of a code point (a lone surrogate is written the same way). *)
Definition byte (n : Z) : ascii := ascii_of_N (Z.to_N n).

Definition utf8 (cp : Z) : string :=
  if cp <? 128 then String (byte cp) EmptyString
  else if cp <? 2048 then
    String (byte (192 + cp / 64)) (String (byte (128 + cp mod 64)) EmptyString)
  else if cp <? 65536 then
    String (byte (224 + cp / 4096))
      (String (byte (128 + (cp / 64) mod 64)) (String (byte (128 + cp mod 64)) EmptyString))
  else
    String (byte (240 + cp / 262144))
      (String (byte (128 + (cp / 4096) mod 64))
         (String (byte (128 + (cp / 64) mod 64)) (String (byte (128 + cp mod 64)) EmptyString))).

Definition hex4 (a b c d : ascii) : option Z :=
  match JsUrl.hex_value a, JsUrl.hex_value b, JsUrl.hex_value c, JsUrl.hex_value d with
  | Some x, Some y, Some z, Some w => Some (((x * 16 + y) * 16 + z) * 16 + w)
  | _, _, _, _ => None
  end.

(** The character a two-character escape stands for. *)
Definition simple_escape (c : ascii) : option string :=
  if is_char 34 c then Some dquote
  else if is_char 92 c then Some (String (byte 92) EmptyString)
  else if is_char 47 c then Some "/"
  else if is_char 98 c then Some (String (byte 8) EmptyString)
  else if is_char 102 c then Some (String (byte 12) EmptyString)
  else if is_char 110 c then Some (String (byte 10) EmptyString)
  else if is_char 114 c then Some (String (byte 13) EmptyString)
  else if is_char 116 c then Some (String (byte 9) EmptyString)
  else None.

Definition flush (pending : option Z) : string :=
  match pending with
  | Some hi => utf8 hi
  | None => EmptyString
  end.

(** A JSON string after its opening quote: the decoded text and what
    follows the closing quote.  [pending] is a high surrogate read from a
    [\u] escape that a low surrogate may still complete. *)
Fixpoint parse_string (s : string) (pending : option Z) (acc : string)
  : option (string * string) :=
  match s with
  | EmptyString => None
  | String c r =>
    if is_char 34 c then Some (acc ++ flush pending, r)
    else if is_char 92 c then
      match r with
      | String e r1 =>
        if is_char 117 e then
          match r1 with
          | String h1 (String h2 (String h3 (String h4 r2))) =>
            match hex4 h1 h2 h3 h4 with
            | Some cp =>
              if (55296 <=? cp) && (cp <=? 56319) then
                parse_string r2 (Some cp) (acc ++ flush pending)
              else if (56320 <=? cp) && (cp <=? 57343) then
                match pending with
                | Some hi =>
                  parse_string r2 None
                    (acc ++ utf8 (65536 + (hi - 55296) * 1024 + (cp - 56320)))
                | None => parse_string r2 None (acc ++ utf8 cp)
                end
              else parse_string r2 None (acc ++ flush pending ++ utf8 cp)
            | None => None
            end
          | _ => None
          end
        else
          match simple_escape e with
          | Some t => parse_string r1 None (acc ++ flush pending ++ t)
          | None => None
          end
      | EmptyString => None
      end
    else if code c <? 32 then None
    else parse_string r None (acc ++ flush pending ++ String c EmptyString)
  end.

(** A JSON number: an optional minus, an integer part without a leading
    zero (other than 0 itself), an optional fraction of at least one digit
    and an optional exponent with an optional sign. *)
Definition parse_number (s : string) : option (number * string) :=
  let (neg, r0) :=
    match s with
    | String c r => if is_char 45 c then (true, r) else (false, s)
    | EmptyString => (false, s)
    end in
  let (ip, r1) := span_digits 10 r0 in
  let leading_zero :=
    match ip with
    | String c (String _ _) => is_char 48 c
    | _ => false
    end in
  if is_empty ip || leading_zero then None
  else
    let '(fp, r2, frac_ok) :=
      match r1 with
      | String c r =>
        if is_char 46 c then
          let (d, r') := span_digits 10 r in (d, r', negb (is_empty d))
        else (EmptyString, r1, true)
      | EmptyString => (EmptyString, r1, true)
      end in
    if negb frac_ok then None
    else
      let m := digits_value 10 0 (ip ++ fp) in
      match r2 with
      | String c r3 =>
        if is_char 101 c || is_char 69 c then
          let (eneg, r4) := take_sign r3 in
          let (ed, r5) := span_digits 10 r4 in
          if is_empty ed then None
          else
            let x := digits_value 10 0 ed in
            Some (of_decimal neg m ((if eneg then - x else x) - len fp), r5)
        else Some (of_decimal neg m (- len fp), r2)
      | EmptyString => Some (of_decimal neg m (- len fp), r2)
      end.

Fixpoint skip_ws (s : string) : string :=
  match s with
  | EmptyString => EmptyString
  | String c r => if one_of [32; 9; 10; 13] c then skip_ws r else s
  end.

(** A JSON value, then the elements of an array after its first bracket,
    then the members of an object after its first brace; each gives the
    value read and the rest of the input.  [fuel] bounds the number of
    nested calls, which the length of the input bounds in turn. *)
Fixpoint parse_value (fuel : nat) (s : string) : option (value * string) :=
  match fuel with
  | O => None
  | S f =>
    match skip_ws s with
    | EmptyString => None
    | String c r =>
      if is_char 123 c then
        match skip_ws r with
        | String c' r' =>
          if is_char 125 c' then Some (Obj [], r') else parse_members f r []
        | EmptyString => None
        end
      else if is_char 91 c then
        match skip_ws r with
        | String c' r' =>
          if is_char 93 c' then Some (Arr [], r') else parse_elements f r []
        | EmptyString => None
        end
      else if is_char 34 c then
        match parse_string r None EmptyString with
        | Some (t, r') => Some (Str t, r')
        | None => None
        end
      else
        match strip_prefix "true" (String c r) with
        | Some r' => Some (Bool true, r')
        | None =>
          match strip_prefix "false" (String c r) with
          | Some r' => Some (Bool false, r')
          | None =>
            match strip_prefix "null" (String c r) with
            | Some r' => Some (Null, r')
            | None =>
              match parse_number (String c r) with
              | Some (x, r') => Some (Num x, r')
              | None => None
              end
            end
          end
        end
    end
  end
with parse_elements (fuel : nat) (s : string) (acc : list value)
  : option (value * string) :=
  match fuel with
  | O => None
  | S f =>
    match parse_value f s with
    | Some (v, r) =>
      match skip_ws r with
      | String c r' =>
        if is_char 44 c then parse_elements f r' (acc ++ [v])
        else if is_char 93 c then Some (Arr (acc ++ [v]), r')
        else None
      | EmptyString => None
      end
    | None => None
    end
  end
with parse_members (fuel : nat) (s : string) (acc : list (string * value))
  : option (value * string) :=
  match fuel with
  | O => None
  | S f =>
    match skip_ws s with
    | String c r =>
      if is_char 34 c then
        match parse_string r None EmptyString with
        | Some (k, r1) =>
          match skip_ws r1 with
          | String c1 r2 =>
            if is_char 58 c1 then
              match parse_value f r2 with
              | Some (v, r3) =>
                match skip_ws r3 with
                | String c3 r4 =>
                  if is_char 44 c3 then parse_members f r4 (acc ++ [(k, v)])
                  else if is_char 125 c3 then Some (Obj (acc ++ [(k, v)]), r4)
                  else None
                | EmptyString => None
                end
              | None => None
              end
            else None
          | EmptyString => None
          end
        | None => None
        end
      else None
    | EmptyString => None
    end
  end.

(** [JSON.parse(text)]: one value with white space around it, or a
    SyntaxError. *)
Definition JSON_parse (text : string) : Result value :=
  match parse_value (2 * String.length text + 2) text with
  | Some (v, rest) =>
    if is_empty (skip_ws rest) then Ok v else throw "SyntaxError: Unexpected token in JSON"
  | None => throw "SyntaxError: Unexpected token in JSON"
  end.

(** The own property [name] of an object: the last member of that name
    (a later member of a JSON text replaces an earlier one). *)
Fixpoint lookup (fields : list (string * value)) (name : string) : option value :=
  match fields with
  | [] => None
  | (k, v) :: r =>
    match lookup r name with
    | Some v' => Some v'
    | None => if String.eqb k name then Some v else None
    end
  end.

(** [v?.name], for the property names the program reads, none of which a
    prototype of a parsed value defines. *)
Definition get_optional (v : value) (name : string) : value :=
  match v with
  | Obj fields =>
    match lookup fields name with
    | Some x => x
    | None => Undefined
    end
  | _ => Undefined
  end.

(** [v.name]: a TypeError on [null] and [undefined]. *)
Definition get (v : value) (name : string) : Result value :=
  match v with
  | Null => throw ("Cannot read properties of null (reading '" ++ name ++ "')")
  | Undefined => throw ("Cannot read properties of undefined (reading '" ++ name ++ "')")
  | _ => Ok (get_optional v name)
  end.

(** [typeof v === "string"]. *)
Definition is_string (v : value) : bool :=
  match v with
  | Str _ => true
  | _ => false
  end.

(** [v === undefined || v === null]. *)
Definition is_nullish (v : value) : bool :=
  match v with
  | Undefined | Null => true
  | _ => false
  end.

(** [String(v)].  An array is joined from [String] of its elements, the
    empty string standing for [null] and [undefined].  An object is written
    by [Object.prototype.toString], unless it has a member named [toString]
    of its own: a member of a parsed object is no function, and [valueOf]
    gives no primitive value either, so the conversion throws a TypeError. *)
Fixpoint to_String (v : value) : Result string :=
  match v with
  | Undefined => Ok "undefined"
  | Null => Ok "null"
  | Bool true => Ok "true"
  | Bool false => Ok "false"
  | Num x => Ok (to_string x)
  | Str s => Ok s
  | Arr items =>
    rbind
      ((fix strings (l : list value) : Result (list string) :=
          match l with
          | [] => Ok []
          | x :: r =>
            rbind (if is_nullish x then Ok EmptyString else to_String x) (fun s =>
            rbind (strings r) (fun ss => Ok (s :: ss)))
          end) items)
      (fun ss => Ok (join "," ss))
  | Obj fields =>
    match lookup fields "toString" with
    | Some _ => throw "Cannot convert object to primitive value"
    | None => Ok "[object Object]"
    end
  end.

End Json.

(* ================================================================== *)
(** * The host: inputs, outputs, secrets, the network and the clock *)
(* ================================================================== *)

Module Host.

Inductive HttpMethod : Type := GET | POST.

(** A response as [fetch] resolves it: the status line and the headers
    have arrived, the body has not.  [text] is what [await res.text()]
    comes to: the text of the body, or the error the read fails with (a
    connection that ends before the body does). *)
Record Response : Type := mkReceived {
  status : Z;
  headers : list (string * string);
  text : Result string
}.

(** The body as read, empty when the read fails. *)
Definition body (res : Response) : string :=
  match text res with
  | Ok t => t
  | Err _ => EmptyString
  end.

(** A response whose body reads as the text given. *)
Definition mkResponse (status : Z) (headers : list (string * string))
  (body : string) : Response :=
  mkReceived status headers (Ok body).

(** [res.ok]. *)
Definition ok (res : Response) : bool := (200 <=? status res) && (status res <=? 299).

(** [res.headers.get(name)]: the values of the headers of that name (names
    compare without case), joined by a comma and a space; [None] for null. *)
Definition headers_get (res : Response) (name : string) : option string :=
  match filter (fun nv => String.eqb (lowercase (fst nv)) (lowercase name)) (headers res) with
  | [] => None
  | l => Some (join ", " (map snd l))
  end.

(** What one call of [fetch] comes to. *)
Inductive FetchOutcome : Type :=
| Rejected (e : Error)
| Resolved (res : Response).

(** What the run does to its host, in order. *)
Inductive Event : Type :=
| SetSecret (secret : string)
| SetOutput (name value : string)
| SetFailed (msg : string)
| Fetch (url : string) (method : HttpMethod) (hdrs : list (string * string))
| Sleep (ms : Z).

(** The host of one run: the raw value of each input (the empty string when
    it is not set) and the outcome of the n-th call of [fetch] (from 0). *)
Record host : Type := mkHost {
  input : string -> string;
  network : nat -> FetchOutcome
}.

(** The state the run threads: how many calls of [fetch] were made, and the
    events so far, oldest first. *)
Record World : Type := mkWorld {
  fetches : nat;
  events : list Event
}.

Definition start : World := mkWorld 0 [].

Definition emit (e : Event) (w : World) : World :=
  mkWorld (fetches w) (events w ++ [e]).

(** A computation: from a world to a result or a thrown error, and the
    world after it; [None] when the fuel of a loop ran out. *)
Definition M (A : Type) : Type := World -> option (Result A * World).

Definition ret {A : Type} (a : A) : M A := fun w => Some (Ok a, w).

Definition raise {A : Type} (e : Error) : M A := fun w => Some (Err e, w).

Definition bind {A B : Type} (c : M A) (k : A -> M B) : M B :=
  fun w =>
    match c w with
    | Some (Ok a, w') => k a w'
    | Some (Err e, w') => Some (Err e, w')
    | None => None
    end.

(** [try { body } catch (err) { handler }]. *)
Definition try_catch {A : Type} (body : M A) (handler : Error -> M A) : M A :=
  fun w =>
    match body w with
    | Some (Err e, w') => handler e w'
    | other => other
    end.

Definition lift {A : Type} (r : Result A) : M A := fun w => Some (r, w).

Definition out_of_fuel {A : Type} : M A := fun _ => None.

Definition tell (e : Event) : M unit := fun w => Some (Ok tt, emit e w).

(** [core.getInput(name)]: the raw value, trimmed. *)
Definition getInput (h : host) (name : string) : string := JsString.trim (input h name).

Definition setSecret (secret : string) : M unit := tell (SetSecret secret).
Definition setOutput (name value : string) : M unit := tell (SetOutput name value).
Definition setFailed (msg : string) : M unit := tell (SetFailed msg).

(** [await fetch(url, { method, headers })]. *)
Definition fetch (h : host) (url : string) (method : HttpMethod)
  (hdrs : list (string * string)) : M Response :=
  fun w =>
    let w' := mkWorld (S (fetches w)) (events w ++ [Fetch url method hdrs]) in
    match network h (fetches w) with
    | Rejected e => Some (Err e, w')
    | Resolved res => Some (Ok res, w')
    end.

(** [await sleep(ms)]: a timer that is given [ms] milliseconds; the event
    records what the timer is given. *)
Definition sleep (ms : Z) : M unit := tell (Sleep ms).

(** The time a timer given [ms] runs, in milliseconds: [setTimeout] of Node
    takes a delay from 1 to 2^31 - 1 as it is, and any other as 1. *)
Definition timer_delay (ms : Z) : Z :=
  if (1 <=? ms) && (ms <=? 2147483647) then ms else 1.

End Host.

Declare Scope action_scope.
Delimit Scope action_scope with action.
Notation "x <- c ;; k" := (Host.bind c (fun x => k))
  (at level 61, c at next level, right associativity) : action_scope.
Notation "c ;;; k" := (Host.bind c (fun _ => k))
  (at level 61, right associativity) : action_scope.

(* ================================================================== *)
(** * main.ts *)
(* ================================================================== *)

Module Main.

Import Validator JsNumber Host.
Local Open Scope action_scope.

(** An [Operation] is a string at run time: [run] casts the input to the
    union type without a check. *)
Definition Operation : Type := string.

Definition BASE_URL : string := "https://abacus.jasoncameron.dev".
Definition MAX_ATTEMPTS : Z := 5.

(** [normalizeBaseUrl(url)]. *)
Definition normalizeBaseUrl (url : string) : string :=
  if ends_with url "/" then substring 0 (String.length url - 1) url else url.

(** [parseInteger(name, raw)].  An integral finite Number is embedded as
    the integer it denotes. *)
Definition parseInteger (name raw : string) : Result Z :=
  let v := Number raw in
  if negb (isFinite v) || negb (isInteger v)
  then throw ("Invalid " ++ name ++ ": expected integer, got " ++ dquote ++ raw ++ dquote)
  else Ok (integer_value v).

(** [isAdminOp(op)]. *)
Definition isAdminOp (op : Operation) : bool :=
  String.eqb op "set" || String.eqb op "update" || String.eqb op "reset"
  || String.eqb op "delete".

(** [methodFor(op)]. *)
Definition methodFor (op : Operation) : HttpMethod :=
  if isAdminOp op then POST else GET.

(** [buildUrl(op, namespace, key, initializer, value)]; [None] is
    [undefined]. *)
Definition buildUrl (op : Operation) (namespace key : string)
  (initializer value : option Z) : Result string :=
  let base := normalizeBaseUrl BASE_URL in
  let path := "/" ++ op ++ "/" ++ JsUrl.encodeURIComponent namespace
              ++ "/" ++ JsUrl.encodeURIComponent key in
  rbind (JsUrl.parse base (base ++ path)) (fun url =>
    let url :=
      match initializer with
      | Some i =>
        if String.eqb op "create"
        then JsUrl.searchParams_set url "initializer" (to_string (of_Z i))
        else url
      | None => url
      end in
    let url :=
      match value with
      | Some v =>
        if String.eqb op "set" || String.eqb op "update"
        then JsUrl.searchParams_set url "value" (to_string (of_Z v))
        else url
      | None => url
      end in
    Ok (JsUrl.href url)).

(** What one pass of the loop of [requestWithRetries] decides. *)
Inductive Step : Type :=
| Return (res : Response)
| Continue (backoffMs : Z).

(** [try { await res.text(); } catch { /* ignore */ }]: the body of a
    response that is dropped is read, and a failure of the read is
    ignored. *)
Definition drain (res : Response) : M unit :=
  try_catch (_ <- lift (text res) ;; ret tt) (fun _ => ret tt).

(** The body of the loop of [requestWithRetries], after [attempt += 1]:
    the [try] block and its [catch]. *)
Definition attempt_once (h : host) (url : string) (method : HttpMethod)
  (hdrs : list (string * string)) (attempt backoffMs : Z) : M Step :=
  try_catch
    (res <- fetch h url method hdrs ;;
     if (status res =? 429) && (attempt <? MAX_ATTEMPTS) then
       let ra := headers_get res "Retry-After" in
       waitMs <- lift
         (match ra with
          | Some (String c r) =>
            rbind (parseInteger "Retry-After" (String c r)) (fun n => Ok (Z.max 0 n))
          | _ => Ok backoffMs
          end) ;;
       drain res ;;;
       sleep waitMs ;;;
       ret (Continue (Z.min (backoffMs * 2) 8000))
     else if (500 <=? status res) && (status res <=? 599) && (attempt <? MAX_ATTEMPTS) then
       drain res ;;;
       sleep backoffMs ;;;
       ret (Continue (Z.min (backoffMs * 2) 8000))
     else ret (Return res))
    (fun err =>
       if MAX_ATTEMPTS <=? attempt then raise err
       else
         sleep backoffMs ;;;
         ret (Continue (Z.min (backoffMs * 2) 8000))).

(** The loop [while (true)] of [requestWithRetries], from the values of
    [attempt] and [backoffMs] before a pass; [fuel] bounds the passes. *)
Fixpoint retry_loop (fuel : nat) (h : host) (url : string) (method : HttpMethod)
  (hdrs : list (string * string)) (attempt backoffMs : Z) : M Response :=
  match fuel with
  | O => out_of_fuel
  | S f =>
    let attempt := attempt + 1 in
    step <- attempt_once h url method hdrs attempt backoffMs ;;
    match step with
    | Return res => ret res
    | Continue b => retry_loop f h url method hdrs attempt b
    end
  end.

(** [requestWithRetries(url, method, headers)] with fuel for the loop. *)
Definition requestWithRetries_fuel (fuel : nat) (h : host) (url : string)
  (method : HttpMethod) (hdrs : list (string * string)) : M Response :=
  retry_loop fuel h url method hdrs 0 500.

(** [requestWithRetries(url, method, headers)].  The loop makes at most
    [MAX_ATTEMPTS] passes, and more fuel than that changes nothing
    ([RetryProps.retry_loop_more_fuel] below). *)
Definition requestWithRetries (h : host) (url : string) (method : HttpMethod)
  (hdrs : list (string * string)) : M Response :=
  requestWithRetries_fuel (Z.to_nat MAX_ATTEMPTS) h url method hdrs.

(** [readJsonSafely(res)].  The body is read before the [try]: a read
    that fails rejects the call. *)
Definition readJsonSafely (res : Response) : M Json.value :=
  text <- lift (text res) ;;
  if JsNumber.is_empty text then ret (Json.Obj [])
  else
    try_catch (lift (Json.JSON_parse text))
              (fun _ => ret (Json.Obj [("error", Json.Str text)])).

(** [setOutputIfPresent(name, value)]. *)
Definition setOutputIfPresent (name : string) (value : Json.value) : M unit :=
  if Json.is_nullish value then ret tt
  else
    s <- lift (Json.to_String value) ;;
    setOutput name s.

(** [setOutputIfPresent(name, payload.field)]. *)
Definition output_field (payload : Json.value) (name : string) : M unit :=
  v <- lift (Json.get payload name) ;;
  setOutputIfPresent name v.

Definition or_default (s default : string) : string :=
  if JsNumber.is_empty s then default else s.

(** [run()]. *)
Definition run (h : host) : M unit :=
  let operationRaw := or_default (getInput h "operation") "hit" in
  let operation : Operation := operationRaw in
  let namespace := getInput h "namespace" in
  let key := getInput h "key" in
  lift (requireNonEmpty "namespace" namespace) ;;;
  lift (requireNonEmpty "key" key) ;;;
  lift (validateName KNamespace namespace) ;;;
  lift (validateName KKey key) ;;;
  let initializerRaw := or_default (getInput h "initializer") "0" in
  let valueRaw := getInput h "value" in
  let adminKey := getInput h "admin_key" in
  (if isAdminOp operation then
     lift (requireNonEmpty "admin_key" adminKey) ;;;
     setSecret adminKey
   else ret tt) ;;;
  (if (String.eqb operation "set" || String.eqb operation "update")
      && (JsNumber.is_empty valueRaw || String.eqb (JsString.trim valueRaw) "")
   then raise (mkError ("Missing required input: value (required for operation="
                        ++ operation ++ ")"))
   else ret tt) ;;;
  initializer <- lift
    (if String.eqb operation "create"
     then rbind (parseInteger "initializer" initializerRaw) (fun n => Ok (Some n))
     else Ok None) ;;
  value <- lift
    (if String.eqb operation "set" || String.eqb operation "update"
     then rbind (parseInteger "value" valueRaw) (fun n => Ok (Some n))
     else Ok None) ;;
  url <- lift (buildUrl operation namespace key initializer value) ;;
  let method := methodFor operation in
  let hdrs :=
    app [("Accept", "application/json")]
        (if isAdminOp operation then [("Authorization", "Bearer " ++ adminKey)] else []) in
  res <- requestWithRetries h url method hdrs ;;
  payload <- readJsonSafely res ;;
  if negb (ok res) then
    let errMsg :=
      match Json.get_optional payload "error" with
      | Json.Str s => s
      | _ => "Request failed with status " ++ Z_to_string (status res)
      end in
    raise (mkError (errMsg ++ " (operation=" ++ operation ++ ")"))
  else
    output_field payload "value" ;;;
    (if String.eqb operation "create" then
       output_field payload "namespace" ;;;
       output_field payload "key" ;;;
       output_field payload "admin_key" ;;;
       match Json.get_optional payload "admin_key" with
       | Json.Str s => setSecret s
       | _ => ret tt
       end
     else ret tt) ;;;
    (if String.eqb operation "info" then
       output_field payload "exists" ;;;
       output_field payload "expires_in" ;;;
       output_field payload "expires_str" ;;;
       output_field payload "full_key" ;;;
       output_field payload "is_genuine"
     else ret tt) ;;;
    (if String.eqb operation "delete" then
       output_field payload "status" ;;;
       output_field payload "message"
     else ret tt).

(** The module's last statement: [run().catch(err => core.setFailed(msg))].
    The result is the world after it, [None] only if a loop ran out of
    fuel. *)
Definition main (h : host) : option World :=
  match try_catch (run h) (fun err => setFailed (message err)) start with
  | Some (_, w) => Some w
  | None => None
  end.

End Main.

(* ================================================================== *)
(** * Properties: the validator *)
(* ================================================================== *)

Module ValidatorProps.

Import Validator.

(** The identifier pattern in the specification's words: 3 to 64
    characters, each a letter, a digit, an underscore, a period or a
    hyphen. *)
Definition between (lo hi c : ascii) : Prop :=
  (N_of_ascii lo <= N_of_ascii c <= N_of_ascii hi)%N.

Definition NameChar (c : ascii) : Prop :=
  between "A" "Z" c \/ between "a" "z" c \/ between "0" "9" c
  \/ c = "_"%char \/ c = "."%char \/ c = "-"%char.

Definition Identifier (s : string) : Prop :=
  (3 <= String.length s <= 64)%nat
  /\ forall c, In c (list_ascii_of_string s) -> NameChar c.

Lemma name_char_spec (c : ascii) : name_char c = true <-> NameChar c.
Proof.
  unfold NameChar, between.
  destruct c as [[] [] [] [] [] [] [] []]; vm_compute;
    (split; [intros H; try discriminate H; intuition (discriminate || reflexivity)
            | intros H; try reflexivity;
              repeat match goal with
              | H : _ \/ _ |- _ => destruct H
              | H : _ /\ _ |- _ => destruct H
              end; try discriminate; try (exfalso; auto; fail)]).
Qed.

Lemma all_chars_forall (p : ascii -> bool) (s : string) :
  all_chars p s = true <-> forall c, In c (list_ascii_of_string s) -> p c = true.
Proof.
  induction s as [|a s IH]; simpl.
  - split; [intros _ c []|reflexivity].
  - rewrite andb_true_iff, IH. split.
    + intros [Ha Hs] c [<-|Hc]; auto.
    + intros H. split; [apply H; now left|intros c Hc; apply H; now right].
Qed.

Lemma NAME_RE_test_spec (value : string) :
  NAME_RE_test value = true <-> Identifier value.
Proof.
  unfold NAME_RE_test, Identifier, len.
  rewrite !andb_true_iff, all_chars_forall, Z.leb_le, Z.leb_le. split.
  - intros [[Hc Hlo] Hhi]. split; [lia|].
    intros c Hin. apply name_char_spec. auto.
  - intros [Hlen Hc]. repeat split; try lia.
    intros c Hin. apply name_char_spec. auto.
Qed.

Lemma includes_middle (pre s post : string) : JsString.includes (pre ++ s ++ post) s.
Proof. exists pre, post. reflexivity. Qed.

Lemma append_assoc (a b c : string) : (a ++ b) ++ c = a ++ b ++ c.
Proof. induction a as [|x a IH]; simpl; [reflexivity|now rewrite IH]. Qed.

Lemma validateName_identifier (kind : NameKind) (value : string) :
  Identifier value -> validateName kind value = Ok tt.
Proof.
  intros H. apply NAME_RE_test_spec in H. unfold validateName. rewrite H. reflexivity.
Qed.

(** C5. A namespace or key of 3 to 64 characters drawn from
    [A-Za-z0-9_.-] passes [validateName]; any other string fails it with an
    error whose message contains the string. *)
Theorem validateName_spec (kind : NameKind) (value : string) :
  (Identifier value -> validateName kind value = Ok tt)
  /\ (~ Identifier value ->
      exists e, validateName kind value = Err e
                /\ JsString.includes (message e) value).
Proof.
  unfold validateName. destruct (NAME_RE_test value) eqn:E; simpl.
  - split; [reflexivity|].
    intros H. exfalso. apply H. now apply NAME_RE_test_spec.
  - split.
    + intros H. apply NAME_RE_test_spec in H. congruence.
    + intros _. eexists. split; [reflexivity|]. unfold throw. cbn [message].
      exists ("Invalid " ++ kind_text kind
              ++ ": must match ^[A-Za-z0-9_-.]{3,64}$ (got " ++ dquote),
             (dquote ++ ")").
      now rewrite !append_assoc.
Qed.

Lemma validateName_spec_witness :
  validateName KKey "my.key-1" = Ok tt
  /\ exists e, validateName KNamespace "a!" = Err e
               /\ JsString.includes (message e) "a!".
Proof.
  split.
  - apply (proj1 (validateName_spec KKey "my.key-1")).
    apply NAME_RE_test_spec. reflexivity.
  - apply (proj2 (validateName_spec KNamespace "a!")).
    intros H. apply NAME_RE_test_spec in H. discriminate H.
Defined.

(** A character of the identifier class starts no white space. *)
Lemma name_char_not_space (c : ascii) :
  name_char c = true ->
  JsString.is_ascii_ws c = false
  /\ is_char 194 c = false /\ is_char 225 c = false /\ is_char 226 c = false
  /\ is_char 227 c = false /\ is_char 239 c = false.
Proof.
  destruct c as [[] [] [] [] [] [] [] []]; vm_compute; intros H;
    try discriminate H; repeat split.
Qed.

Lemma trimStart_name_char (c : ascii) (r : string) :
  name_char c = true -> JsString.trimStart (String c r) = String c r.
Proof.
  intros H. apply name_char_not_space in H.
  destruct H as (H0 & H1 & H2 & H3 & H4 & H5).
  cbn [JsString.trimStart]. rewrite H0, H1, H2, H3, H4, H5. cbn [andb orb].
  destruct r as [|c1 [|c2 r2]]; reflexivity.
Qed.

Lemma trimEnd_name_chars (s : string) :
  all_chars name_char s = true -> JsString.trimEnd s = s.
Proof.
  induction s as [|c r IH]; [reflexivity|].
  cbn [all_chars]. intros H. apply andb_true_iff in H. destruct H as [Hc Hr].
  cbn [JsString.trimEnd]. unfold JsString.is_blank.
  rewrite (trimStart_name_char c r Hc). cbn [String.eqb]. rewrite (IH Hr). reflexivity.
Qed.

(** An identifier has no white space to trim. *)
Lemma trim_identifier (s : string) : Identifier s -> JsString.trim s = s.
Proof.
  intros H. apply NAME_RE_test_spec in H. unfold NAME_RE_test in H.
  apply andb_true_iff in H. destruct H as [H _].
  apply andb_true_iff in H. destruct H as [H _].
  unfold JsString.trim. destruct s as [|c r]; [reflexivity|].
  assert (Hc : name_char c = true).
  { cbn [all_chars] in H. apply andb_true_iff in H. tauto. }
  rewrite (trimStart_name_char c r Hc). apply trimEnd_name_chars. exact H.
Qed.

(** [requireNonEmpty] fails exactly on a value that trims to nothing. *)
Lemma requireNonEmpty_spec (name value : string) :
  (JsString.trim value = "" ->
   requireNonEmpty name value = throw ("Missing required input: " ++ name))
  /\ (JsString.trim value <> "" -> requireNonEmpty name value = Ok tt).
Proof.
  unfold requireNonEmpty. split.
  - intros ->. rewrite orb_true_r. reflexivity.
  - intros H. destruct value as [|c r]; [exfalso; apply H; reflexivity|].
    cbn [String.eqb orb].
    destruct (JsString.trim (String c r)); [exfalso; apply H; reflexivity|reflexivity].
Qed.

Lemma requireNonEmpty_identifier (name value : string) :
  Identifier value -> requireNonEmpty name value = Ok tt.
Proof.
  intros H. apply requireNonEmpty_spec. rewrite (trim_identifier value H).
  destruct H as [Hlen _]. destruct value; [cbn in Hlen; lia|discriminate].
Qed.

End ValidatorProps.

(* ================================================================== *)
(** * Properties: the retry executor *)
(* ================================================================== *)

Module RetryProps.

Import JsNumber Host Main.

(** The wait [requestWithRetries] makes on a 429 response that it retries:
    the integer the [Retry-After] header parses to, or 0 if that is
    negative; the stored backoff when the header is absent, empty or does
    not parse as an integer. *)
Definition retry_wait (res : Response) (backoffMs : Z) : Z :=
  match headers_get res "Retry-After" with
  | Some (String c r) =>
    match parseInteger "Retry-After" (String c r) with
    | Ok n => Z.max 0 n
    | Err _ => backoffMs
    end
  | _ => backoffMs
  end.

(** The wait as the specification words it: the header's value when it
    parses as a non-negative integer, the stored backoff otherwise. *)
Definition specified_wait (res : Response) (backoffMs : Z) : Z :=
  match headers_get res "Retry-After" with
  | Some (String c r) =>
    match parseInteger "Retry-After" (String c r) with
    | Ok n => if 0 <=? n then n else backoffMs
    | Err _ => backoffMs
    end
  | _ => backoffMs
  end.

(** The response carries a [Retry-After] header that overrides the stored
    backoff. *)
Definition has_override (res : Response) : bool :=
  match headers_get res "Retry-After" with
  | Some (String c r) =>
    match parseInteger "Retry-After" (String c r) with
    | Ok _ => true
    | Err _ => false
    end
  | _ => false
  end.

(** A failure that is retried while attempts remain. *)
Definition qualifying (o : FetchOutcome) : bool :=
  match o with
  | Rejected _ => true
  | Resolved res =>
    (status res =? 429) || ((500 <=? status res) && (status res <=? 599))
  end.

(** The transition of the executor on the outcome of attempt number
    [attempt]: the wait it makes, if any, and what the pass decides. *)
Definition transition (attempt backoffMs : Z) (o : FetchOutcome)
  : option Z * Result Step :=
  let next := Ok (Continue (Z.min (backoffMs * 2) 8000)) in
  match o with
  | Rejected e =>
    if MAX_ATTEMPTS <=? attempt then (None, Err e) else (Some backoffMs, next)
  | Resolved res =>
    if (status res =? 429) && (attempt <? MAX_ATTEMPTS)
    then (Some (retry_wait res backoffMs), next)
    else if (500 <=? status res) && (status res <=? 599) && (attempt <? MAX_ATTEMPTS)
    then (Some backoffMs, next)
    else (None, Ok (Return res))
  end.

Definition waited (sl : option Z) : list Event :=
  match sl with
  | Some ms => [Sleep ms]
  | None => []
  end.

(** The waits among the events, in order. *)
Fixpoint sleeps (evs : list Event) : list Z :=
  match evs with
  | [] => []
  | Sleep ms :: r => ms :: sleeps r
  | _ :: r => sleeps r
  end.

(** The physical attempts among the events. *)
Fixpoint attempts (evs : list Event) : nat :=
  match evs with
  | [] => 0
  | Fetch _ _ _ :: r => S (attempts r)
  | _ :: r => attempts r
  end.

(** The stored backoff at successive retries, from [b]. *)
Fixpoint backoffs (b : Z) (k : nat) : list Z :=
  match k with
  | O => []
  | S k' => b :: backoffs (Z.min (b * 2) 8000) k'
  end.

(** An event of the exchange: an attempt with the request given, or a wait. *)
Definition exchange_event (url : string) (method : HttpMethod)
  (hdrs : list (string * string)) (e : Event) : Prop :=
  e = Fetch url method hdrs \/ exists ms, e = Sleep ms.

(** A host that answers every request with [res]. *)
Definition always (res : Response) : host :=
  mkHost (fun _ => EmptyString) (fun _ => Resolved res).

(** A 429 response with the given [Retry-After] header. *)
Definition retry_after (value : string) : Response :=
  mkResponse 429 [("Retry-After", value)] EmptyString.

(** A host whose calls of [fetch] have the listed outcomes, and are rejected
    after them. *)
Definition scripted (outcomes : list FetchOutcome) : host :=
  mkHost (fun _ => EmptyString)
         (fun n => nth n outcomes (Rejected (mkError "fetch failed"))).

Definition responded (code : Z) (text : string) : FetchOutcome :=
  Resolved (mkResponse code [] text).

(** What each transition tells about the outcome it was taken on. *)
Lemma transition_cases (attempt backoffMs : Z) (o : FetchOutcome) :
  match transition attempt backoffMs o with
  | (None, Ok (Return res)) =>
    o = Resolved res /\ (qualifying o = false \/ MAX_ATTEMPTS <= attempt)
  | (Some ms, Ok (Continue b)) =>
    attempt < MAX_ATTEMPTS /\ b = Z.min (backoffMs * 2) 8000
    /\ qualifying o = true
    /\ (ms = backoffMs
        \/ exists res, o = Resolved res /\ status res = 429
                       /\ ms = retry_wait res backoffMs)
  | (None, Err e) => o = Rejected e /\ MAX_ATTEMPTS <= attempt
  | _ => False
  end.
Proof.
  unfold transition, qualifying. destruct o as [e|res].
  - destruct (MAX_ATTEMPTS <=? attempt) eqn:E.
    + apply Z.leb_le in E. auto.
    + apply Z.leb_gt in E. auto.
  - destruct (status res =? 429) eqn:E429; cbn [andb orb];
      destruct (attempt <? MAX_ATTEMPTS) eqn:Elt; cbn [andb].
    + apply Z.ltb_lt in Elt. apply Z.eqb_eq in E429.
      repeat split; auto. right. exists res. auto.
    + apply Z.ltb_ge in Elt. rewrite andb_false_r. auto.
    + apply Z.ltb_lt in Elt.
      destruct ((500 <=? status res) && (status res <=? 599)); cbn [andb]; auto.
    + apply Z.ltb_ge in Elt. rewrite andb_false_r. auto.
Qed.

Lemma transition_5xx (attempt backoffMs : Z) (res : Response) :
  500 <= status res <= 599 -> attempt < MAX_ATTEMPTS ->
  transition attempt backoffMs (Resolved res)
  = (Some backoffMs, Ok (Continue (Z.min (backoffMs * 2) 8000))).
Proof.
  intros Hs Ha. unfold transition.
  replace (status res =? 429) with false by (symmetry; apply Z.eqb_neq; lia).
  cbn [andb].
  replace (500 <=? status res) with true by (symmetry; apply Z.leb_le; lia).
  replace (status res <=? 599) with true by (symmetry; apply Z.leb_le; lia).
  replace (attempt <? MAX_ATTEMPTS) with true by (symmetry; apply Z.ltb_lt; lia).
  reflexivity.
Qed.

Lemma transition_other (attempt backoffMs : Z) (res : Response) :
  qualifying (Resolved res) = false ->
  transition attempt backoffMs (Resolved res) = (None, Ok (Return res)).
Proof.
  unfold qualifying, transition. intros H.
  apply orb_false_iff in H. destruct H as [-> ->]. reflexivity.
Qed.

Lemma sleeps_app (l1 l2 : list Event) : sleeps (l1 ++ l2) = (sleeps l1 ++ sleeps l2)%list.
Proof.
  induction l1 as [|[] l1 IH]; cbn [sleeps app]; rewrite ?IH; reflexivity.
Qed.

Lemma attempts_app (l1 l2 : list Event) :
  attempts (l1 ++ l2) = (attempts l1 + attempts l2)%nat.
Proof.
  induction l1 as [|[] l1 IH]; cbn [attempts app]; rewrite ?IH; reflexivity.
Qed.

Lemma attempts_waited (sl : option Z) : attempts (waited sl) = 0%nat.
Proof. destruct sl; reflexivity. Qed.

Lemma retry_wait_no_override (res : Response) (backoffMs : Z) :
  has_override res = false -> retry_wait res backoffMs = backoffMs.
Proof.
  unfold has_override, retry_wait.
  destruct (headers_get res "Retry-After") as [[|c r]|]; try reflexivity.
  destruct (parseInteger "Retry-After" (String c r)); [discriminate|reflexivity].
Qed.

(** The closed form of the stored backoff: doubling from [b], capped. *)
Lemma backoffs_nth (n : nat) :
  forall (k : nat) (b : Z),
    0 < b <= 8000 -> (k < n)%nat ->
    nth k (backoffs b n) 0 = Z.min (b * 2 ^ Z.of_nat k) 8000.
Proof.
  induction n as [|n IH]; intros k b Hb Hk; [lia|].
  destruct k as [|k]; cbn [backoffs nth].
  - change (2 ^ Z.of_nat 0) with 1. lia.
  - rewrite IH by lia.
    replace (Z.of_nat (S k)) with (Z.of_nat k + 1) by lia.
    rewrite Z.pow_add_r by lia. change (2 ^ 1) with 2.
    assert (Hp : 1 <= 2 ^ Z.of_nat k) by (apply (Z.pow_le_mono_r 2 0); lia).
    destruct (Z.le_gt_cases (b * 2) 8000) as [Hle|Hgt].
    + rewrite (Z.min_l (b * 2)) by exact Hle. f_equal. ring.
    + rewrite (Z.min_r (b * 2)) by lia.
      rewrite !Z.min_r; [reflexivity|nia|nia].
Qed.

(** Draining a response does nothing that shows, whether the read of its
    body fails or not. *)
Lemma drain_eq (res : Response) (w : World) : drain res w = Some (Ok tt, w).
Proof.
  unfold drain, try_catch, bind, lift, ret. destruct (text res); reflexivity.
Qed.

(** One call of [requestWithRetries]: the host and the request are fixed. *)
Section Exchange.

Variable h : host.
Variable url : string.
Variable method : HttpMethod.
Variable hdrs : list (string * string).

Lemma attempt_once_eq (attempt backoffMs : Z) (w : World) :
  attempt_once h url method hdrs attempt backoffMs w =
  Some (snd (transition attempt backoffMs (network h (fetches w))),
        mkWorld (S (fetches w))
                (events w ++ Fetch url method hdrs
                   :: waited (fst (transition attempt backoffMs (network h (fetches w)))))).
Proof.
  unfold attempt_once, transition, try_catch, bind, fetch, lift, sleep, tell,
    ret, raise, emit, retry_wait.
  destruct (network h (fetches w)) as [e|res]; cbn [fetches events].
  - destruct (MAX_ATTEMPTS <=? attempt); cbn [fst snd waited fetches events];
      rewrite <- ?app_assoc; reflexivity.
  - destruct ((status res =? 429) && (attempt <? MAX_ATTEMPTS)) eqn:E429.
    + assert (Hlt : (MAX_ATTEMPTS <=? attempt) = false).
      { apply andb_true_iff in E429. destruct E429 as [_ H].
        apply Z.ltb_lt in H. apply Z.leb_gt. exact H. }
      destruct (headers_get res "Retry-After") as [[|c r]|];
        cbn [rbind fst snd waited fetches events]; rewrite ?drain_eq;
        cbn [fetches events]; try (rewrite <- app_assoc; reflexivity).
      destruct (parseInteger "Retry-After" (String c r)) as [n|e];
        cbn [rbind fst snd waited fetches events]; rewrite ?drain_eq, ?Hlt;
        cbn [fetches events]; rewrite <- app_assoc; reflexivity.
    + destruct ((500 <=? status res) && (status res <=? 599) && (attempt <? MAX_ATTEMPTS));
        cbn [fst snd waited fetches events]; rewrite ?drain_eq;
        cbn [fetches events]; rewrite <- ?app_assoc; reflexivity.
Qed.

Lemma retry_loop_S (f : nat) (attempt backoffMs : Z) (w : World) :
  retry_loop (S f) h url method hdrs attempt backoffMs w =
  let t := transition (attempt + 1) backoffMs (network h (fetches w)) in
  let w1 := mkWorld (S (fetches w))
                    (events w ++ Fetch url method hdrs :: waited (fst t)) in
  match snd t with
  | Ok (Return res) => Some (Ok res, w1)
  | Ok (Continue b) => retry_loop f h url method hdrs (attempt + 1) b w1
  | Err e => Some (Err e, w1)
  end.
Proof.
  cbn [retry_loop]. unfold bind. rewrite attempt_once_eq.
  destruct (snd (transition (attempt + 1) backoffMs (network h (fetches w))))
    as [[res|b]|e]; reflexivity.
Qed.

(** Every attempt of one call carries the same request. *)
Lemma retry_loop_events :
  forall (fuel : nat) (attempt backoffMs : Z) (w : World) r w',
    retry_loop fuel h url method hdrs attempt backoffMs w = Some (r, w') ->
    exists evs, events w' = (events w ++ evs)%list
                /\ Forall (exchange_event url method hdrs) evs.
Proof.
  induction fuel as [|f IH]; intros attempt backoffMs w r w' Hrun.
  - discriminate Hrun.
  - rewrite retry_loop_S in Hrun. cbv zeta in Hrun.
    assert (Hw : Forall (exchange_event url method hdrs)
                   (Fetch url method hdrs
                      :: waited (fst (transition (attempt + 1) backoffMs
                                        (network h (fetches w)))))).
    { constructor; [now left|].
      destruct (fst (transition (attempt + 1) backoffMs (network h (fetches w))));
        cbn [waited]; [|constructor].
      constructor; [|constructor]. right. eexists. reflexivity. }
    destruct (snd (transition (attempt + 1) backoffMs (network h (fetches w))))
      as [[res|b]|e].
    + injection Hrun as <- <-. cbn [events]. eexists. split; [reflexivity|exact Hw].
    + apply IH in Hrun. destruct Hrun as (evs & Hev & Hall). cbn [events] in Hev.
      eexists. rewrite Hev, <- app_assoc. split; [reflexivity|].
      apply Forall_app. split; assumption.
    + injection Hrun as <- <-. cbn [events]. eexists. split; [reflexivity|exact Hw].
Qed.

(** More fuel than a run needs changes nothing. *)
Lemma retry_loop_more_fuel :
  forall (fuel fuel' : nat) (attempt backoffMs : Z) (w : World) x,
    (fuel <= fuel')%nat ->
    retry_loop fuel h url method hdrs attempt backoffMs w = Some x ->
    retry_loop fuel' h url method hdrs attempt backoffMs w = Some x.
Proof.
  induction fuel as [|f IH]; intros fuel' attempt backoffMs w x Hle Hrun.
  - discriminate Hrun.
  - destruct fuel' as [|f']; [lia|].
    rewrite retry_loop_S in *. cbv zeta in *.
    destruct (snd (transition (attempt + 1) backoffMs (network h (fetches w))))
      as [[res|b]|e]; auto.
    eapply IH; [|exact Hrun]. lia.
Qed.

(** The loop from attempt count [attempt]: it ends, after at most
    [MAX_ATTEMPTS - attempt] calls of [fetch], each an event; its result is
    the outcome of the last call; and it makes all of these calls when every
    outcome is a failure that qualifies for a retry. *)
Lemma retry_loop_run :
  forall (fuel : nat) (attempt backoffMs : Z) (w : World),
    0 <= attempt < MAX_ATTEMPTS ->
    (Z.to_nat (MAX_ATTEMPTS - attempt) <= fuel)%nat ->
    exists r w',
      retry_loop fuel h url method hdrs attempt backoffMs w = Some (r, w')
      /\ (fetches w < fetches w' <= fetches w + Z.to_nat (MAX_ATTEMPTS - attempt))%nat
      /\ attempts (events w') = (attempts (events w) + (fetches w' - fetches w))%nat
      /\ match network h (fetches w' - 1) with
         | Rejected e => r = Err e
         | Resolved res => r = Ok res
         end
      /\ ((forall i, (i < Z.to_nat (MAX_ATTEMPTS - attempt))%nat ->
                     qualifying (network h (fetches w + i)) = true) ->
          fetches w' = (fetches w + Z.to_nat (MAX_ATTEMPTS - attempt))%nat).
Proof.
  induction fuel as [|f IH]; intros attempt backoffMs w Ha Hfuel.
  - unfold MAX_ATTEMPTS in *. lia.
  - rewrite retry_loop_S. cbv zeta.
    pose proof (transition_cases (attempt + 1) backoffMs (network h (fetches w))) as Ht.
    destruct (transition (attempt + 1) backoffMs (network h (fetches w)))
      as [[ms|] [[res|b]|e]]; cbn [fst snd waited]; try contradiction.
    + (* a wait, then the next pass *)
      destruct Ht as (Hlt & _ & Hq & _).
      destruct (IH (attempt + 1) b
                   (mkWorld (S (fetches w)) (events w ++ [Fetch url method hdrs; Sleep ms])))
        as (r & w' & Hrun & Hn & Hev & Hlast & Hall).
      { lia. } { unfold MAX_ATTEMPTS in *. lia. }
      cbn [fetches events] in *.
      exists r, w'. split; [exact Hrun|]. split; [unfold MAX_ATTEMPTS in *; lia|].
      split.
      { rewrite Hev, attempts_app. cbn [attempts]. lia. }
      split; [exact Hlast|].
      intros Hqs. rewrite Hall.
      * unfold MAX_ATTEMPTS in *. lia.
      * intros i Hi. replace (S (fetches w) + i)%nat with (fetches w + S i)%nat by lia.
        apply Hqs. unfold MAX_ATTEMPTS in *. lia.
    + (* the response is returned *)
      destruct Ht as (Ho & Hq).
      eexists _, _. split; [reflexivity|]. cbn [fetches events].
      split; [unfold MAX_ATTEMPTS in *; lia|].
      split; [rewrite attempts_app; cbn [attempts]; lia|].
      replace (S (fetches w) - 1)%nat with (fetches w) by lia. rewrite Ho.
      split; [reflexivity|].
      intros Hqs. destruct Hq as [Hq|Hq].
      * specialize (Hqs 0%nat). rewrite Nat.add_0_r, Hq in Hqs.
        unfold MAX_ATTEMPTS in *. assert (false = true) by (apply Hqs; lia).
        discriminate.
      * unfold MAX_ATTEMPTS in *. lia.
    + (* the failure propagates *)
      destruct Ht as (Ho & Hge).
      eexists _, _. split; [reflexivity|]. cbn [fetches events].
      split; [unfold MAX_ATTEMPTS in *; lia|].
      split; [rewrite attempts_app; cbn [attempts]; lia|].
      replace (S (fetches w) - 1)%nat with (fetches w) by lia. rewrite Ho.
      split; [reflexivity|].
      intros _. unfold MAX_ATTEMPTS in *. lia.
Qed.

Lemma retry_loop_sleeps :
  (forall n res, network h n = Resolved res -> status res = 429 ->
                 has_override res = false) ->
  forall (fuel : nat) (attempt backoffMs : Z) (w : World) r w',
    retry_loop fuel h url method hdrs attempt backoffMs w = Some (r, w') ->
    (fetches w < fetches w')%nat
    /\ sleeps (events w')
       = (sleeps (events w) ++ backoffs backoffMs (fetches w' - fetches w - 1))%list.
Proof.
  intros Hno. induction fuel as [|f IH]; intros attempt backoffMs w r w' Hrun.
  - discriminate Hrun.
  - rewrite retry_loop_S in Hrun. cbv zeta in Hrun.
    pose proof (transition_cases (attempt + 1) backoffMs (network h (fetches w))) as Ht.
    destruct (transition (attempt + 1) backoffMs (network h (fetches w)))
      as [[ms|] [[res|b]|e]]; cbn [fst snd waited] in Hrun; try contradiction.
    + destruct Ht as (_ & Hb & _ & Hms).
      assert (ms = backoffMs) as ->.
      { destruct Hms as [Hms|(res & Ho & H429 & Hms)]; [exact Hms|].
        rewrite Hms. apply retry_wait_no_override. eapply Hno; eauto. }
      apply IH in Hrun. cbn [fetches events] in Hrun. destruct Hrun as [Hlt Hsl].
      split; [lia|].
      rewrite Hsl, sleeps_app. cbn [sleeps].
      replace (fetches w' - fetches w - 1)%nat with (S (fetches w' - S (fetches w) - 1)) by lia.
      cbn [backoffs]. rewrite <- app_assoc, Hb. reflexivity.
    + injection Hrun as <- <-. cbn [fetches events]. split; [lia|].
      rewrite sleeps_app. cbn [sleeps].
      replace (S (fetches w) - fetches w - 1)%nat with 0%nat by lia. reflexivity.
    + injection Hrun as <- <-. cbn [fetches events]. split; [lia|].
      rewrite sleeps_app. cbn [sleeps].
      replace (S (fetches w) - fetches w - 1)%nat with 0%nat by lia. reflexivity.
Qed.

(** C1 (as amended).  On a 429 response received while the attempt count is
    below [MAX_ATTEMPTS], the pass waits [retry_wait]: the integer the
    [Retry-After] header parses to, or 0 when that integer is negative, and
    the stored backoff when the header is absent, empty or not an integer.
    In every case the stored backoff for the next pass is the double of its
    own value, capped at 8000, whatever the header says. *)
Theorem retry_after_429 (attempt backoffMs : Z) (w : World)
  (res : Response) :
  network h (fetches w) = Resolved res ->
  status res = 429 ->
  attempt < MAX_ATTEMPTS ->
  attempt_once h url method hdrs attempt backoffMs w
  = Some (Ok (Continue (Z.min (backoffMs * 2) 8000)),
          mkWorld (S (fetches w))
                  (events w ++ [Fetch url method hdrs; Sleep (retry_wait res backoffMs)])).
Proof.
  intros Hnet H429 Hlt. rewrite attempt_once_eq, Hnet. unfold transition.
  rewrite H429. apply Z.ltb_lt in Hlt. rewrite Hlt. reflexivity.
Qed.

(** C2.  [requestWithRetries] ends, whatever the outcomes of its attempts:
    with a result, after at least one and at most [MAX_ATTEMPTS] = 5 calls
    of [fetch], and more fuel for its loop gives the same run.  When the
    first five outcomes are all failures that qualify for a retry (429, 5xx
    or a rejected call, in any mix) it makes exactly five attempts, and the
    fifth outcome is the result: a rejection is thrown, a 429 or 5xx
    response is returned as it is. *)
Theorem requestWithRetries_bounded (w : World) :
  exists r w',
    requestWithRetries h url method hdrs w = Some (r, w')
    /\ (forall fuel, (5 <= fuel)%nat ->
                     requestWithRetries_fuel fuel h url method hdrs w = Some (r, w'))
    /\ (attempts (events w) < attempts (events w') <= attempts (events w) + 5)%nat
    /\ ((forall i, (i < 5)%nat -> qualifying (network h (fetches w + i)) = true) ->
        attempts (events w') = (attempts (events w) + 5)%nat
        /\ match network h (fetches w + 4) with
           | Rejected e => r = Err e
           | Resolved res => r = Ok res
           end).
Proof.
  destruct (retry_loop_run 5 0 500 w) as (r & w' & Hrun & Hn & Hev & Hlast & Hall).
  { unfold MAX_ATTEMPTS. lia. } { reflexivity. }
  change (Z.to_nat (MAX_ATTEMPTS - 0)) with 5%nat in *.
  exists r, w'. split; [exact Hrun|].
  split.
  { intros fuel Hfuel. unfold requestWithRetries_fuel.
    eapply retry_loop_more_fuel; [exact Hfuel|exact Hrun]. }
  split; [lia|].
  intros Hq. specialize (Hall Hq). split; [lia|].
  rewrite Hall in Hlast. replace (fetches w + 5 - 1)%nat with (fetches w + 4)%nat in Hlast by lia.
  exact Hlast.
Qed.

(** C3.  When no retried 429 response carries a [Retry-After] header that
    overrides the backoff, the waits between the attempts of one call are
    the stored backoffs from 500: the k-th wait is min(500 * 2^(k-1), 8000)
    (counted from 0 below).  Two 503 responses followed by a 200 make three
    attempts with waits of 500 and 1000. *)
Theorem backoff_sequence :
  (forall n res, network h n = Resolved res -> status res = 429 ->
                 has_override res = false) ->
  exists r w,
    requestWithRetries h url method hdrs start = Some (r, w)
    /\ sleeps (events w) = backoffs 500 (attempts (events w) - 1)
    /\ (forall k, (k < attempts (events w) - 1)%nat ->
                  nth k (sleeps (events w)) 0 = Z.min (500 * 2 ^ Z.of_nat k) 8000)
    /\ (forall r1 r2 r3,
          network h 0 = Resolved r1 -> status r1 = 503 ->
          network h 1 = Resolved r2 -> status r2 = 503 ->
          network h 2 = Resolved r3 -> status r3 = 200 ->
          r = Ok r3 /\ attempts (events w) = 3%nat
          /\ sleeps (events w) = [500; 1000]).
Proof.
  intros Hno.
  destruct (retry_loop_run 5 0 500 start)
    as (r & w & Hrun & Hn & Hev & _ & _).
  { unfold MAX_ATTEMPTS. lia. } { reflexivity. }
  exists r, w. split; [exact Hrun|].
  destruct (retry_loop_sleeps Hno _ _ _ _ _ _ Hrun) as [_ Hsl].
  cbn [start fetches events sleeps attempts app] in *.
  assert (Hatt : attempts (events w) = fetches w) by lia.
  rewrite Hatt. replace (fetches w - 0 - 1)%nat with (fetches w - 1)%nat in Hsl by lia.
  split; [exact Hsl|]. split.
  - intros k Hk. rewrite Hsl. apply backoffs_nth; lia.
  - intros r1 r2 r3 H1 S1 H2 S2 H3 S3.
    unfold requestWithRetries, requestWithRetries_fuel in Hrun.
    change (Z.to_nat MAX_ATTEMPTS) with 5%nat in Hrun.
    rewrite retry_loop_S in Hrun. cbn [start fetches events] in Hrun.
    rewrite H1, transition_5xx in Hrun by (unfold MAX_ATTEMPTS; lia).
    cbv zeta in Hrun. cbn [fst snd waited fetches events app] in Hrun.
    rewrite retry_loop_S in Hrun. cbn [fetches events] in Hrun.
    rewrite H2, transition_5xx in Hrun by (unfold MAX_ATTEMPTS; lia).
    cbv zeta in Hrun. cbn [fst snd waited fetches events app] in Hrun.
    rewrite retry_loop_S in Hrun. cbn [fetches events] in Hrun.
    rewrite H3, transition_other in Hrun by (unfold qualifying; rewrite S3; reflexivity).
    cbv zeta in Hrun. cbn [fst snd waited fetches events app] in Hrun.
    injection Hrun as <- <-. cbn. auto.
Qed.

End Exchange.

Lemma retry_after_429_witness :
  attempt_once (always (retry_after "2")) "u" GET [] 1 500 start
  = Some (Ok (Continue 1000), mkWorld 1 [Fetch "u" GET []; Sleep 2]).
Proof.
  exact (retry_after_429 (always (retry_after "2")) "u" GET [] 1 500 start
           (retry_after "2") eq_refl eq_refl eq_refl).
Defined.

(** C1 as first stated fails on a negative header: [Retry-After: -5] is no
    non-negative integer, so the stated wait is the stored backoff, 500;
    the pass waits 0. *)
Lemma retry_after_negative_waits_zero :
  specified_wait (retry_after "-5") 500 = 500
  /\ attempt_once (always (retry_after "-5")) "u" GET [] 1 500 start
     = Some (Ok (Continue 1000), mkWorld 1 [Fetch "u" GET []; Sleep 0]).
Proof. split; vm_compute; reflexivity. Qed.

Lemma requestWithRetries_bounded_witness :
  exists w,
    requestWithRetries
      (scripted [Resolved (retry_after "1"); Rejected (mkError "reset");
                 responded 503 ""; responded 500 ""; Resolved (retry_after "7")])
      "u" GET [] start
    = Some (Ok (retry_after "7"), w)
    /\ attempts (events w) = 5%nat.
Proof.
  destruct (requestWithRetries_bounded
              (scripted [Resolved (retry_after "1"); Rejected (mkError "reset");
                         responded 503 ""; responded 500 ""; Resolved (retry_after "7")])
              "u" GET [] start) as (r & w & Hrun & _ & _ & Hall).
  destruct Hall as [Hn Hr].
  { intros i Hi. do 5 (destruct i as [|i]; [reflexivity|]). lia. }
  exists w. cbn in Hr. subst r. split; [exact Hrun|exact Hn].
Defined.

Lemma backoff_sequence_witness :
  exists w,
    requestWithRetries
      (scripted [responded 503 ""; responded 503 ""; responded 200 "{}"])
      "u" GET [] start
    = Some (Ok (mkResponse 200 [] "{}"), w)
    /\ attempts (events w) = 3%nat
    /\ sleeps (events w) = [500; 1000].
Proof.
  destruct (backoff_sequence
              (scripted [responded 503 ""; responded 503 ""; responded 200 "{}"])
              "u" GET []) as (r & w & Hrun & _ & _ & Hsc).
  { intros n res Hn H429.
    do 3 (destruct n as [|n]; [injection Hn as <-; discriminate H429|]).
    cbn in Hn. destruct n; discriminate Hn. }
  destruct (Hsc _ _ _ eq_refl eq_refl eq_refl eq_refl eq_refl eq_refl) as (Hr & Ha & Hs).
  exists w. subst r. auto.
Defined.

End RetryProps.

(* ================================================================== *)
(** * Properties: URLs *)
(* ================================================================== *)

Module UrlProps.

Import JsUrl Validator ValidatorProps.

(** The bytes a path segment keeps as they are: printable ASCII other than
    the quote, [#], [/], [<], [>], [?], the backslash, [^], the backquote
    and the braces. *)
Definition url_plain (c : ascii) : bool :=
  in_range 33 126 c && negb (one_of [34; 35; 47; 60; 62; 63; 92; 94; 96; 123; 125] c).

(** A byte above the space. *)
Definition visible (c : ascii) : bool := 32 <? code c.

Lemma url_plain_facts (c : ascii) :
  url_plain c = true ->
  visible c = true /\ path_set c = false
  /\ is_char 47 c || is_char 92 c = false
  /\ is_char 63 c = false /\ is_char 35 c = false.
Proof.
  destruct c as [[] [] [] [] [] [] [] []]; vm_compute; intros H;
    try discriminate H; repeat split.
Qed.

Lemma name_char_plain (c : ascii) : name_char c = true -> url_plain c = true.
Proof.
  destruct c as [[] [] [] [] [] [] [] []]; vm_compute; intros H;
    try discriminate H; reflexivity.
Qed.

Lemma name_char_unreserved (c : ascii) : name_char c = true -> uri_unreserved c = true.
Proof.
  destruct c as [[] [] [] [] [] [] [] []]; vm_compute; intros H;
    try discriminate H; reflexivity.
Qed.

Lemma name_char_lower_not_percent (c : ascii) :
  name_char c = true -> Ascii.eqb (to_lower c) "%" = false.
Proof.
  destruct c as [[] [] [] [] [] [] [] []]; vm_compute; intros H;
    try discriminate H; reflexivity.
Qed.

Lemma all_chars_impl (p q : ascii -> bool) (s : string) :
  (forall c, p c = true -> q c = true) ->
  all_chars p s = true -> all_chars q s = true.
Proof.
  intros Hpq. induction s as [|c r IH]; [reflexivity|].
  cbn [all_chars]. rewrite !andb_true_iff. intros [Hc Hr]. auto.
Qed.

Lemma all_chars_app (p : ascii -> bool) (a b : string) :
  all_chars p (a ++ b) = all_chars p a && all_chars p b.
Proof.
  induction a as [|c r IH]; [reflexivity|].
  cbn [append all_chars]. rewrite IH, andb_assoc. reflexivity.
Qed.

Lemma identifier_chars (s : string) : Identifier s -> all_chars name_char s = true.
Proof.
  intros H. apply NAME_RE_test_spec in H. unfold NAME_RE_test in H.
  apply andb_true_iff in H. destruct H as [H _].
  apply andb_true_iff in H. tauto.
Qed.

(** [encodeURIComponent] leaves an identifier as it is. *)
Lemma encodeURIComponent_identifier (s : string) :
  Identifier s -> encodeURIComponent s = s.
Proof.
  intros H. apply identifier_chars in H. unfold encodeURIComponent.
  induction s as [|c r IH]; [reflexivity|].
  cbn [all_chars] in H. apply andb_true_iff in H. destruct H as [Hc Hr].
  cbn [percent_encode]. rewrite (name_char_unreserved c Hc). cbn [negb append].
  rewrite (IH Hr). reflexivity.
Qed.

(** An identifier is no dot segment: it is too long for [.] and [..], and
    holds no percent sign. *)
Lemma identifier_not_dot (s : string) :
  Identifier s -> is_single_dot s = false /\ is_double_dot s = false.
Proof.
  intros H. pose proof (identifier_chars s H) as Hc. destruct H as [[Hlen _] _].
  destruct s as [|c0 [|c1 [|c2 r]]]; cbn [String.length] in Hlen; try lia.
  cbn [all_chars] in Hc.
  apply andb_true_iff in Hc. destruct Hc as [H0 Hc].
  apply andb_true_iff in Hc. destruct Hc as [H1 _].
  apply name_char_lower_not_percent in H0, H1.
  unfold is_single_dot, is_double_dot. cbn [lowercase String.eqb].
  rewrite H0, H1.
  repeat match goal with
         | |- context [Ascii.eqb ?x "."] => destruct (Ascii.eqb x ".")
         end; cbn [andb orb]; split; reflexivity.
Qed.

Lemma strip_prefix_app (p rest : string) : strip_prefix p (p ++ rest) = Some rest.
Proof.
  induction p as [|c p IH]; [reflexivity|].
  cbn [append strip_prefix]. rewrite Ascii.eqb_refl. exact IH.
Qed.

Lemma strip_trailing_visible (s : string) :
  all_chars visible s = true -> strip_trailing s = s.
Proof.
  induction s as [|c r IH]; [reflexivity|].
  cbn [all_chars strip_trailing]. intros H. apply andb_true_iff in H.
  destruct H as [Hc Hr].
  assert (Hn : is_c0_or_space c = false).
  { unfold visible in Hc. unfold is_c0_or_space. apply Z.ltb_lt in Hc.
    apply Z.leb_gt. exact Hc. }
  rewrite Hn. cbn [andb]. rewrite (IH Hr). reflexivity.
Qed.

Lemma remove_tab_newline_visible (s : string) :
  all_chars visible s = true -> remove_tab_newline s = s.
Proof.
  induction s as [|c r IH]; [reflexivity|].
  cbn [all_chars remove_tab_newline]. intros H. apply andb_true_iff in H.
  destruct H as [Hc Hr].
  assert (Hn : one_of [9; 10; 13] c = false).
  { unfold visible in Hc. apply Z.ltb_lt in Hc. unfold one_of. cbn [existsb].
    repeat match goal with
           | |- context [code c =? ?k] =>
             replace (code c =? k) with false by (symmetry; apply Z.eqb_neq; lia)
           end.
    reflexivity. }
  rewrite Hn, (IH Hr). reflexivity.
Qed.

(** The path state copies a plain segment into its buffer. *)
Lemma path_state_plain (o : string) (seg : string) :
  all_chars url_plain seg = true ->
  forall (rest buf : string) (p : list string),
    path_state o (seg ++ rest) buf p = path_state o rest (buf ++ seg) p.
Proof.
  induction seg as [|c r IH]; intros H rest buf p.
  - cbn [append]. replace (buf ++ "") with buf; [reflexivity|].
    induction buf as [|b buf IHb]; [reflexivity|]. cbn [append]. now rewrite <- IHb.
  - cbn [all_chars] in H. apply andb_true_iff in H. destruct H as [Hc Hr].
    destruct (url_plain_facts c Hc) as (_ & Hset & Hslash & Hq & Hf).
    cbn [append path_state]. rewrite Hslash, Hq, Hf.
    cbn [percent_encode]. rewrite Hset. cbn [append].
    rewrite (IH Hr). rewrite append_assoc. reflexivity.
Qed.

Lemma push_segment_plain (buf : string) (at_slash : bool) (p : list string) :
  is_single_dot buf = false -> is_double_dot buf = false ->
  push_segment buf at_slash p = (p ++ [buf])%list.
Proof. intros H1 H2. unfold push_segment. rewrite H1, H2. reflexivity. Qed.

(** The URL of three plain segments, none a dot segment, under an origin
    without white space: parsing changes nothing. *)
Lemma parse_three_segments (o a b c : string) :
  all_chars visible o = true ->
  (exists x r, o = String x r) ->
  all_chars url_plain a = true -> all_chars url_plain b = true ->
  all_chars url_plain c = true ->
  is_single_dot a = false -> is_double_dot a = false ->
  is_single_dot b = false -> is_double_dot b = false ->
  is_single_dot c = false -> is_double_dot c = false ->
  parse o (o ++ "/" ++ a ++ "/" ++ b ++ "/" ++ c) = Ok (mkURL o [a; b; c] None None).
Proof.
  intros Ho Hne Ha Hb Hc Ha1 Ha2 Hb1 Hb2 Hc1 Hc2.
  assert (Hvis : all_chars visible (o ++ "/" ++ a ++ "/" ++ b ++ "/" ++ c) = true).
  { assert (Hp : forall s, all_chars url_plain s = true -> all_chars visible s = true).
    { intros s. apply all_chars_impl. intros x Hx. apply url_plain_facts in Hx. tauto. }
    rewrite !all_chars_app, Ho, (Hp a Ha), (Hp b Hb), (Hp c Hc). reflexivity. }
  unfold parse.
  assert (Hlead : strip_leading (o ++ "/" ++ a ++ "/" ++ b ++ "/" ++ c)
                  = o ++ "/" ++ a ++ "/" ++ b ++ "/" ++ c).
  { destruct Hne as (x & r & ->). cbn [append all_chars] in *.
    apply andb_true_iff in Ho. destruct Ho as [Hx _].
    cbn [strip_leading]. unfold visible in Hx. apply Z.ltb_lt in Hx.
    unfold is_c0_or_space. replace (code x <=? 32) with false; [reflexivity|].
    symmetry. apply Z.leb_gt. exact Hx. }
  rewrite Hlead, (strip_trailing_visible _ Hvis), (remove_tab_newline_visible _ Hvis).
  rewrite strip_prefix_app. cbn [append ends_authority]. 
  change (one_of [47; 92; 63; 35] "/") with true. cbv iota.
  unfold path_start_state. change (is_char 47 "/" || is_char 92 "/") with true.
  cbv iota.
  rewrite (path_state_plain o a Ha). cbn [append path_state].
  change (is_char 47 "/" || is_char 92 "/") with true. cbv iota.
  rewrite (push_segment_plain a true [] Ha1 Ha2).
  rewrite (path_state_plain o b Hb). cbn [append path_state].
  change (is_char 47 "/" || is_char 92 "/") with true. cbv iota.
  rewrite (push_segment_plain b true _ Hb1 Hb2).
  replace c with (c ++ "") at 1.
  2:{ clear. induction c as [|x c IH]; [reflexivity|]. cbn [append]. now rewrite IH. }
  rewrite (path_state_plain o c Hc). cbn [append path_state].
  rewrite (push_segment_plain c false _ Hc1 Hc2). reflexivity.
Qed.

Lemma append_nil_r (s : string) : s ++ "" = s.
Proof. induction s as [|x s IH]; [reflexivity|]. cbn [append]. now rewrite IH. Qed.

Lemma href_three_segments (o a b c : string) (q : option string) :
  href (mkURL o [a; b; c] q None)
  = o ++ "/" ++ a ++ "/" ++ b ++ "/" ++ c
    ++ match q with Some t => "?" ++ t | None => "" end.
Proof.
  unfold href. cbn [origin path query fragment map concat append].
  rewrite !append_nil_r.
  repeat (rewrite !append_assoc; cbn [append]). reflexivity.
Qed.

(** Setting a parameter on a URL without a query. *)
Lemma searchParams_set_fresh (o : string) (p : list string) (f : option string)
  (name value : string) (x : ascii) (r : string) :
  urlencoded_string name = String x r ->
  searchParams_set (mkURL o p None f) name value
  = mkURL o p (Some (urlencoded_string name ++ "=" ++ urlencoded_string value)) f.
Proof.
  intros Hn. unfold searchParams_set. cbn [query origin path fragment].
  change (urlencoded_parse "") with (@nil (string * string)).
  cbn [params_set urlencoded_serialize map join fst snd]. rewrite Hn. reflexivity.
Qed.

(** A string of digits and hyphens is its own form encoding. *)
Lemma urlencoded_string_digits (s : string) :
  all_chars (fun c => is_digit c || is_char 45 c) s = true ->
  urlencoded_string s = s.
Proof.
  induction s as [|c r IH]; [reflexivity|].
  cbn [all_chars]. intros H. apply andb_true_iff in H. destruct H as [Hc Hr].
  cbn [urlencoded_string]. rewrite (IH Hr).
  assert (Hk : is_char 32 c = false /\ urlencoded_keep c = true).
  { clear - Hc. revert Hc.
    destruct c as [[] [] [] [] [] [] [] []]; vm_compute; intros H;
      try discriminate H; split; reflexivity. }
  destruct Hk as [-> ->]. reflexivity.
Qed.

Lemma strip_trailing_app_visible (a b : string) :
  all_chars visible a = true -> strip_trailing (a ++ b) = a ++ strip_trailing b.
Proof.
  induction a as [|c r IH]; [reflexivity|].
  cbn [all_chars append strip_trailing]. intros H. apply andb_true_iff in H.
  destruct H as [Hc Hr].
  replace (is_c0_or_space c) with false.
  - cbn [andb]. rewrite (IH Hr). reflexivity.
  - symmetry. unfold visible in Hc. apply Z.ltb_lt in Hc. apply Z.leb_gt. exact Hc.
Qed.

Lemma remove_tab_newline_app_visible (a b : string) :
  all_chars visible a = true ->
  remove_tab_newline (a ++ b) = a ++ remove_tab_newline b.
Proof.
  intros H. rewrite <- (remove_tab_newline_visible a H) at 2. clear H.
  induction a as [|c r IH]; [reflexivity|].
  cbn [append remove_tab_newline]. destruct (one_of [9; 10; 13] c); rewrite IH; reflexivity.
Qed.


End UrlProps.

(* ================================================================== *)
(** * Properties: numbers *)
(* ================================================================== *)

Module NumberProps.

Import JsNumber.

(** [p / q < 2^e], without fractions. *)
Definition below_pow2 (p q e : Z) : Prop :=
  p * 2 ^ Z.max (- e) 0 < q * 2 ^ Z.max e 0.

Lemma below_pow2_scaled (p q a b : Z) :
  0 <= a -> 0 <= b ->
  (p * 2 ^ a < q * 2 ^ b <-> below_pow2 p q (b - a)).
Proof.
  intros Ha Hb. unfold below_pow2.
  destruct (Z.le_gt_cases a b) as [Hle|Hgt].
  - rewrite (Z.max_r (- (b - a)) 0), (Z.max_l (b - a) 0) by lia.
    replace b with ((b - a) + a) at 1 by ring.
    rewrite Z.pow_add_r, Z.mul_assoc by lia. change (2 ^ 0) with 1.
    rewrite Z.mul_1_r. symmetry. apply Z.mul_lt_mono_pos_r.
    apply Z.pow_pos_nonneg; lia.
  - rewrite (Z.max_l (- (b - a)) 0), (Z.max_r (b - a) 0) by lia.
    replace a with (- (b - a) + b) at 1 by ring.
    rewrite Z.pow_add_r, Z.mul_assoc by lia. change (2 ^ 0) with 1.
    rewrite Z.mul_1_r. symmetry. apply Z.mul_lt_mono_pos_r.
    apply Z.pow_pos_nonneg; lia.
Qed.

Lemma below_pow2_mono (p q e e' : Z) :
  0 <= q -> below_pow2 p q e -> e <= e' -> below_pow2 p q e'.
Proof.
  intros Hq H Hle.
  pose (a := Z.abs e + Z.abs e').
  replace e with ((a + e) - a) in H by ring.
  replace e' with ((a + e') - a) by ring.
  apply (proj2 (below_pow2_scaled p q a (a + e) ltac:(lia) ltac:(lia))) in H.
  apply (proj1 (below_pow2_scaled p q a (a + e') ltac:(lia) ltac:(lia))).
  eapply Z.lt_le_trans; [exact H|].
  apply Z.mul_le_mono_nonneg_l; [exact Hq|].
  apply Z.pow_le_mono_r; lia.
Qed.

Lemma binade_upper (p q : Z) : 0 < p -> 0 < q -> below_pow2 p q (binade p q + 1).
Proof.
  intros Hp Hq. unfold binade.
  destruct (q * 2 ^ Z.max (Z.log2 p - Z.log2 q) 0
            <=? p * 2 ^ Z.max (- (Z.log2 p - Z.log2 q)) 0) eqn:E.
  - replace (Z.log2 p - Z.log2 q + 1) with ((Z.log2 p + 1) - Z.log2 q) by ring.
    pose proof (Z.log2_nonneg p). pose proof (Z.log2_nonneg q).
    apply (proj1 (below_pow2_scaled p q (Z.log2 q) (Z.log2 p + 1) ltac:(lia) ltac:(lia))).
    destruct (Z.log2_spec p Hp) as [_ Hp2]. destruct (Z.log2_spec q Hq) as [Hq1 _].
    replace (Z.succ (Z.log2 p)) with (Z.log2 p + 1) in Hp2 by lia.
    assert (0 < 2 ^ Z.log2 q) by (apply Z.pow_pos_nonneg; lia).
    assert (0 < 2 ^ (Z.log2 p + 1)) by (apply Z.pow_pos_nonneg; lia).
    nia.
  - apply Z.leb_gt in E. replace (Z.log2 p - Z.log2 q - 1 + 1) with (Z.log2 p - Z.log2 q) by ring.
    exact E.
Qed.

Lemma round_half_even_bound (num den K : Z) :
  0 <= num -> 0 < den -> num < den * K ->
  0 <= round_half_even num den <= K.
Proof.
  intros Hn Hd Hlt. unfold round_half_even.
  assert (H0 : 0 <= num / den) by (apply Z.div_pos; lia).
  assert (H1 : num / den < K) by (apply Z.div_lt_upper_bound; lia).
  destruct (2 * (num mod den) <? den); [lia|].
  destruct (den <? 2 * (num mod den)); [lia|].
  destruct (Z.even (num / den)); lia.
Qed.

Lemma round_half_even_exact (num den : Z) :
  0 < den -> num mod den = 0 -> round_half_even num den = num / den.
Proof.
  intros Hd Hm. unfold round_half_even. rewrite Hm.
  replace (2 * 0 <? den) with true; [reflexivity|].
  symmetry. apply Z.ltb_lt. lia.
Qed.

(** The significand of a rounded value has at most 53 bits. *)
Lemma to_double_abs_bound (p q M E : Z) :
  0 <= p -> 0 < q -> to_double_abs p q = Finite M E -> 0 <= M <= 2 ^ 53.
Proof.
  intros Hp Hq. unfold to_double_abs.
  destruct (p =? 0) eqn:E0.
  - intros H. injection H as <- <-. lia.
  - apply Z.eqb_neq in E0. assert (Hp' : 0 < p) by lia.
    set (E' := Z.max (binade p q - 52) (-1074)).
    assert (Hb : below_pow2 p q (E' + 53)).
    { eapply below_pow2_mono; [lia|apply binade_upper; assumption|]. unfold E'. lia. }
    destruct (0 <=? E') eqn:HE.
    + apply Z.leb_le in HE.
      assert (Hm : 0 <= round_half_even p (q * 2 ^ E') <= 2 ^ 53).
      { apply round_half_even_bound; [lia| |].
        - apply Z.mul_pos_pos; [lia|apply Z.pow_pos_nonneg; lia].
        - replace (E' + 53) with ((E' + 53) - 0) in Hb by ring.
          apply (proj2 (below_pow2_scaled p q 0 (E' + 53) ltac:(lia) ltac:(lia))) in Hb.
          change (2 ^ 0) with 1 in Hb. rewrite Z.mul_1_r in Hb.
          rewrite Z.pow_add_r in Hb by lia. lia. }
      cbn [andb].
      destruct (2 ^ 1024 <=? round_half_even p (q * 2 ^ E') * 2 ^ E'); [discriminate|].
      intros H. injection H as <- <-. exact Hm.
    + apply Z.leb_gt in HE. cbn [andb]. intros H. injection H as <- <-.
      apply round_half_even_bound; [|lia|].
      * apply Z.mul_nonneg_nonneg; [lia|apply Z.pow_nonneg; lia].
      * replace (E' + 53) with (53 - (- E')) in Hb by ring.
        exact (proj2 (below_pow2_scaled p q (- E') 53 ltac:(lia) ltac:(lia)) Hb).
Qed.

(** The non-negative integers that binary64 holds exactly: at most 53
    significant bits. *)
Definition representable (v : Z) : Prop :=
  exists a b, 0 <= a <= 2 ^ 53 /\ 0 <= b /\ v = a * 2 ^ b.

Lemma integer_value_representable (p q M E : Z) :
  0 <= p -> 0 < q ->
  to_double_abs p q = Finite M E -> isInteger (Finite M E) = true ->
  representable (integer_value (Finite M E)).
Proof.
  intros Hp Hq Hd Hint. pose proof (to_double_abs_bound p q M E Hp Hq Hd) as HM.
  cbn [integer_value]. destruct (0 <=? E) eqn:HE.
  - apply Z.leb_le in HE. exists M, E. auto.
  - apply Z.leb_gt in HE. exists (M / 2 ^ (- E)), 0.
    assert (Hpow : 0 < 2 ^ (- E)) by (apply Z.pow_pos_nonneg; lia).
    split; [|split; [lia|change (2 ^ 0) with 1; ring]].
    split; [apply Z.div_pos; lia|].
    apply Z.div_le_upper_bound; [lia|]. nia.
Qed.

Lemma integer_value_negate (m e : Z) :
  isInteger (Finite m e) = true ->
  isInteger (Finite (- m) e) = true
  /\ integer_value (Finite (- m) e) = - integer_value (Finite m e).
Proof.
  cbn [isInteger integer_value]. destruct (0 <=? e) eqn:HE; cbn [orb].
  - intros _. split; [reflexivity|ring].
  - apply Z.leb_gt in HE. intros H. apply Z.eqb_eq in H.
    assert (Hpow : 2 ^ (- e) <> 0).
    { apply Z.neq_sym, Z.lt_neq, Z.pow_pos_nonneg; lia. }
    split.
    + apply Z.eqb_eq. apply Z.mod_opp_l_z; assumption.
    + apply Z.div_opp_l_z; assumption.
Qed.

Lemma to_double_representable (neg : bool) (p q : Z) :
  0 <= p -> 0 < q ->
  isFinite (to_double neg p q) = true -> isInteger (to_double neg p q) = true ->
  representable (Z.abs (integer_value (to_double neg p q))).
Proof.
  intros Hp Hq. unfold to_double.
  destruct (to_double_abs p q) as [|s|M E] eqn:Hd.
  - destruct neg; discriminate.
  - destruct neg; discriminate.
  - pose proof (to_double_abs_bound p q M E Hp Hq Hd) as HM.
    assert (Hnn : isInteger (Finite M E) = true -> 0 <= integer_value (Finite M E)).
    { intros Hi. destruct (integer_value_representable p q M E Hp Hq Hd Hi)
        as (a & b & Ha & Hb & ->).
      apply Z.mul_nonneg_nonneg; [lia|apply Z.pow_nonneg; lia]. }
    destruct neg; cbn [negate]; intros _ Hi.
    + assert (Hi' : isInteger (Finite M E) = true).
      { destruct (integer_value_negate (- M) E Hi) as [H _].
        rewrite Z.opp_involutive in H. exact H. }
      destruct (integer_value_negate M E Hi') as [_ ->].
      rewrite Z.abs_opp, Z.abs_eq by auto.
      eapply integer_value_representable; eauto.
    + rewrite Z.abs_eq by auto. eapply integer_value_representable; eauto.
Qed.

Lemma digit_value_nonneg (base : Z) (c : ascii) (v : Z) :
  digit_value base c = Some v -> 0 <= v.
Proof.
  unfold digit_value, is_digit, in_range.
  destruct ((48 <=? code c) && (code c <=? 57)) eqn:E1.
  - apply andb_true_iff in E1. destruct E1 as [E1 _]. apply Z.leb_le in E1.
    destruct (code c - 48 <? base); intros H; inversion H; lia.
  - destruct ((97 <=? code c) && (code c <=? 102)) eqn:E2.
    + apply andb_true_iff in E2. destruct E2 as [E2 _]. apply Z.leb_le in E2.
      destruct (code c - 87 <? base); intros H; inversion H; lia.
    + destruct ((65 <=? code c) && (code c <=? 70)) eqn:E3.
      * apply andb_true_iff in E3. destruct E3 as [E3 _]. apply Z.leb_le in E3.
        destruct (code c - 55 <? base); intros H; inversion H; lia.
      * destruct (99 <? base); intros H; inversion H; lia.
Qed.

Lemma digits_value_nonneg (base : Z) (s : string) :
  0 <= base -> forall acc, 0 <= acc -> 0 <= digits_value base acc s.
Proof.
  intros Hb. induction s as [|c r IH]; intros acc Hacc; cbn [digits_value]; [exact Hacc|].
  destruct (digit_value base c) as [v|] eqn:E; [|exact Hacc].
  apply digit_value_nonneg in E. apply IH. nia.
Qed.

Lemma parse_unsigned_decimal_nonneg (s : string) (m k : Z) :
  parse_unsigned_decimal s = Some (m, k) -> 0 <= m.
Proof.
  unfold parse_unsigned_decimal.
  destruct (span_digits 10 s) as [ip r1].
  destruct (match r1 with
            | EmptyString => (EmptyString, r1)
            | String c r => if is_char 46 c then span_digits 10 r else (EmptyString, r1)
            end) as [fp r2].
  destruct (is_empty ip && is_empty fp); [discriminate|].
  assert (Hm : 0 <= digits_value 10 0 (ip ++ fp)) by (apply digits_value_nonneg; lia).
  destruct r2 as [|c r3].
  - intros H. injection H as <- _. exact Hm.
  - destruct (is_char 101 c || is_char 69 c); [|discriminate].
    destruct (take_sign r3) as [neg r4]. destruct (span_digits 10 r4) as [ed r5].
    destruct (is_empty ed || negb (is_empty r5)); [discriminate|].
    intros H. injection H as <- _. exact Hm.
Qed.

Lemma parse_non_decimal_nonneg (s : string) (n : Z) :
  parse_non_decimal s = Some (Some n) -> 0 <= n.
Proof.
  unfold parse_non_decimal. destruct s as [|c0 [|c1 r]]; try discriminate.
  destruct (is_char 48 c0); [|discriminate].
  destruct (if is_char 120 c1 || is_char 88 c1 then Some 16
            else if is_char 111 c1 || is_char 79 c1 then Some 8
                 else if is_char 98 c1 || is_char 66 c1 then Some 2 else None)
    as [b|] eqn:Eb; [|discriminate].
  assert (Hb : 0 <= b).
  { destruct (is_char 120 c1 || is_char 88 c1); [inversion Eb; lia|].
    destruct (is_char 111 c1 || is_char 79 c1); [inversion Eb; lia|].
    destruct (is_char 98 c1 || is_char 66 c1); inversion Eb; lia. }
  destruct (span_digits b r) as [d rest].
  destruct (is_empty d || negb (is_empty rest)); [discriminate|].
  intros H. injection H as <-. apply digits_value_nonneg; lia.
Qed.

(** What [parseInteger] returns is an integer that binary64 holds. *)
Lemma parseInteger_representable (name raw : string) (v : Z) :
  Main.parseInteger name raw = Ok v -> representable (Z.abs v).
Proof.
  unfold Main.parseInteger.
  destruct (isFinite (Number raw)) eqn:Hfin; cbn [negb orb]; [|discriminate].
  destruct (isInteger (Number raw)) eqn:Hint; cbn [negb]; [|discriminate].
  intros H. injection H as <-. revert Hfin Hint. unfold Number.
  destruct (is_empty (JsString.trim raw)).
  { intros _ _. exists 0, 0. cbn. lia. }
  destruct (parse_non_decimal (JsString.trim raw)) as [[n|]|] eqn:Hnd.
  - apply parse_non_decimal_nonneg in Hnd. apply to_double_representable; lia.
  - discriminate.
  - destruct (take_sign (JsString.trim raw)) as [neg r].
    destruct (String.eqb r "Infinity"); [discriminate|].
    destruct (parse_unsigned_decimal r) as [[m k]|] eqn:Hud; [|discriminate].
    apply parse_unsigned_decimal_nonneg in Hud. unfold of_decimal.
    destruct (0 <=? k) eqn:Hk.
    + apply Z.leb_le in Hk. apply to_double_representable; [|lia].
      apply Z.mul_nonneg_nonneg; [lia|apply Z.pow_nonneg; lia].
    + apply Z.leb_gt in Hk. apply to_double_representable; [lia|].
      apply Z.pow_pos_nonneg; lia.
Qed.

Lemma binade_one (v : Z) : 0 < v -> binade v 1 = Z.log2 v.
Proof.
  intros Hv. unfold binade. change (Z.log2 1) with 0. rewrite Z.sub_0_r.
  pose proof (Z.log2_nonneg v) as HL. destruct (Z.log2_spec v Hv) as [Hlo _].
  rewrite (Z.max_l (Z.log2 v) 0), (Z.max_r (- Z.log2 v) 0) by lia.
  change (2 ^ 0) with 1. rewrite Z.mul_1_l, Z.mul_1_r.
  replace (2 ^ Z.log2 v <=? v) with true; [reflexivity|].
  symmetry. apply Z.leb_le. exact Hlo.
Qed.

(** A representable integer above [2^52] is a multiple of the unit in its
    last place. *)
Lemma representable_multiple (v : Z) :
  representable v -> 0 < v -> 0 <= Z.log2 v - 52 ->
  exists c, v = c * 2 ^ (Z.log2 v - 52).
Proof.
  intros (a & b & Ha & Hb & ->) Hv Hd.
  assert (Hpos : 0 < 2 ^ b) by (apply Z.pow_pos_nonneg; lia).
  assert (Ha0 : 0 < a) by nia.
  rewrite Z.log2_mul_pow2 in * by lia.
  destruct (Z.eq_dec a (2 ^ 53)) as [->|Hne].
  - rewrite Z.log2_pow2 in * by lia. exists (2 ^ 52).
    replace (b + 53 - 52) with (b + 1) by ring.
    rewrite <- !Z.pow_add_r by lia. f_equal. ring.
  - assert (Hlog : Z.log2 a < 53) by (apply Z.log2_lt_pow2; lia).
    exists (a * 2 ^ (52 - Z.log2 a)).
    rewrite <- Z.mul_assoc, <- Z.pow_add_r by lia. do 2 f_equal. ring.
Qed.

(** Rounding leaves a representable integer as it is. *)
Lemma to_double_abs_representable (v : Z) :
  representable v -> 0 < v < 2 ^ 1024 ->
  eqb (to_double_abs v 1) (Finite v 0) = true.
Proof.
  intros Hrep [Hv Hmax]. unfold to_double_abs.
  replace (v =? 0) with false by (symmetry; apply Z.eqb_neq; lia).
  rewrite (binade_one v Hv). pose proof (Z.log2_nonneg v) as HL.
  rewrite (Z.max_l (Z.log2 v - 52) (-1074)) by lia.
  destruct (0 <=? Z.log2 v - 52) eqn:Hd.
  - apply Z.leb_le in Hd.
    destruct (representable_multiple v Hrep Hv Hd) as [c Hc].
    set (d := Z.log2 v - 52) in *.
    assert (Hpow : 0 < 2 ^ d) by (apply Z.pow_pos_nonneg; lia).
    rewrite Z.mul_1_l.
    rewrite round_half_even_exact; [|exact Hpow|rewrite Hc; apply Z.mod_mul; lia].
    replace (v / 2 ^ d) with c by (rewrite Hc, Z.div_mul; lia).
    cbn [andb]. rewrite <- Hc.
    replace (2 ^ 1024 <=? v) with false by (symmetry; apply Z.leb_gt; lia).
    cbn [eqb]. rewrite (Z.min_r d 0) by lia. rewrite !Z.sub_0_r.
    change (2 ^ 0) with 1. rewrite Z.mul_1_r, <- Hc. apply Z.eqb_refl.
  - apply Z.leb_gt in Hd. set (d := Z.log2 v - 52) in *. cbn [andb].
    rewrite round_half_even_exact; [|lia|apply Z.mod_1_r].
    rewrite Z.div_1_r. cbn [eqb]. rewrite (Z.min_l d 0) by lia.
    rewrite Z.sub_diag. change (2 ^ 0) with 1. apply Z.eqb_eq.
    replace (0 - d) with (- d) by reflexivity. ring.
Qed.

(** ** The decimal form of an integer below [10^21] *)

Lemma exponent_up_spec (p q : Z) :
  forall (fuel : nat) (j J : Z),
    j <= J -> J - j < Z.of_nat fuel -> p < q * 10 ^ J ->
    j <= exponent_up fuel p q j <= J /\ p < q * 10 ^ exponent_up fuel p q j.
Proof.
  induction fuel as [|f IH]; intros j J Hj Hf HJ; [lia|].
  cbn [exponent_up]. destruct (p <? q * 10 ^ j) eqn:E.
  - apply Z.ltb_lt in E. split; [lia|exact E].
  - apply Z.ltb_ge in E.
    assert (j <> J) by (intros ->; lia).
    destruct (IH (j + 1) J) as [H1 H2]; try lia.
Qed.

Lemma string_of_uint_digits (d : Decimal.uint) :
  all_chars is_digit (NilEmpty.string_of_uint d) = true.
Proof. induction d; cbn; auto. Qed.

Lemma Z_to_string_digits (n : Z) :
  0 <= n ->
  all_chars is_digit (Z_to_string n) = true /\ Z_to_string n <> "".
Proof.
  intros Hn. unfold Z_to_string. destruct n as [|p|p]; [split; [reflexivity|discriminate]| |lia].
  cbn [Z.to_int NilEmpty.string_of_int]. split; [apply string_of_uint_digits|].
  pose proof (DecimalPos.Unsigned.to_uint_nonnil p) as Hnn.
  destruct (Pos.to_uint p); [contradiction|..]; discriminate.
Qed.

Lemma zeros_digits (n : Z) : all_chars is_digit (zeros n) = true.
Proof.
  unfold zeros. induction (Z.to_nat n) as [|k IH]; [reflexivity|].
  cbn [repeat_char all_chars]. rewrite IH. reflexivity.
Qed.

(** What the digit search gives for a positive integer [v < 10^n0] that
    rounding leaves as it is: no more digits than [n], and the exponent [n0]
    unless [10^n0] itself is read back as [v]. *)
Definition integer_digits (v n0 : Z) (r : Z * Z * Z) : Prop :=
  let '(s, k, n) := r in
  0 <= s /\ 1 <= k <= n
  /\ (n = n0
      \/ (n = n0 + 1
          /\ exists k', 1 <= k' <= n0
                        /\ round_trips (Finite v 0) (10 ^ k') (n0 - k') = true)).

Lemma pick_digits_integer (v n0 s k : Z) :
  0 <= s <= 10 ^ k -> 1 <= k <= n0 ->
  (s = 10 ^ k -> round_trips (Finite v 0) s (n0 - k) = true) ->
  integer_digits v n0 (pick_digits s k n0).
Proof.
  intros Hs Hk Hrt. unfold pick_digits, integer_digits.
  destruct (s =? 10 ^ k) eqn:E.
  - apply Z.eqb_eq in E. split; [lia|]. split; [lia|]. right. split; [reflexivity|].
    exists k. split; [lia|]. rewrite <- E. auto.
  - split; [lia|]. split; [lia|]. now left.
Qed.

Lemma shortest_digits_integer (v n0 : Z) :
  0 < v < 10 ^ n0 ->
  round_trips (Finite v 0) v 0 = true ->
  forall (fuel : nat) (k : Z),
    1 <= k <= n0 ->
    integer_digits v n0 (shortest_digits fuel (Finite v 0) v 1 n0 k).
Proof.
  intros Hv Hself. induction fuel as [|f IH]; intros k Hk.
  all: cbn [shortest_digits]; cbv zeta.
  all: rewrite (Z.max_r (k - n0) 0), (Z.max_l (n0 - k) 0) by lia.
  all: change (10 ^ 0) with 1; rewrite Z.mul_1_r, Z.mul_1_l.
  all: assert (Hpow : 0 < 10 ^ (n0 - k)) by (apply Z.pow_pos_nonneg; lia).
  all: assert (Hlo : 0 <= v / 10 ^ (n0 - k) < 10 ^ k)
    by (split; [apply Z.div_pos; lia|];
        apply Z.div_lt_upper_bound; [lia|];
        rewrite <- Z.pow_add_r by lia; replace (n0 - k + k) with n0 by ring; lia).
  all: assert (Hpick_lo : integer_digits v n0 (pick_digits (v / 10 ^ (n0 - k)) k n0))
    by (apply pick_digits_integer; [lia|lia|intros; lia]).
  - exact Hpick_lo.
  - assert (Hpick_hi : round_trips (Finite v 0) (v / 10 ^ (n0 - k) + 1) (n0 - k) = true ->
                       integer_digits v n0 (pick_digits (v / 10 ^ (n0 - k) + 1) k n0)).
    { intros Hrt. apply pick_digits_integer; [lia|lia|intros _; exact Hrt]. }
    destruct (round_trips (Finite v 0) (v / 10 ^ (n0 - k)) (n0 - k)) eqn:Eok_lo;
      destruct (round_trips (Finite v 0) (v / 10 ^ (n0 - k) + 1) (n0 - k)) eqn:Eok_hi;
      cbn [andb]; auto.
    + destruct (2 * (v - v / 10 ^ (n0 - k) * 10 ^ (n0 - k)) <? 10 ^ (n0 - k)); auto.
      destruct (10 ^ (n0 - k) <? 2 * (v - v / 10 ^ (n0 - k) * 10 ^ (n0 - k))); auto.
      destruct (Z.even (v / 10 ^ (n0 - k))); auto.
    + apply IH. destruct (Z.eq_dec k n0) as [->|Hne]; [|lia].
      exfalso. rewrite Z.sub_diag in Eok_lo. change (10 ^ 0) with 1 in Eok_lo.
      rewrite Z.div_1_r in Eok_lo. congruence.
Qed.

(** [10^21] is a binary64 value, so no smaller number is read back from
    it. *)
Lemma not_read_from_10_21 (v k : Z) :
  0 < v < 10 ^ 21 -> 1 <= k <= 21 ->
  round_trips (Finite v 0) (10 ^ k) (21 - k) = false.
Proof.
  intros Hv Hk. unfold round_trips, of_decimal, to_double.
  replace (0 <=? 21 - k) with true by (symmetry; apply Z.leb_le; lia).
  rewrite <- Z.pow_add_r by lia. replace (k + (21 - k)) with 21 by ring.
  replace (to_double_abs (10 ^ 21) 1) with (Finite 7629394531250000 17)
    by (vm_compute; reflexivity).
  cbn [eqb]. rewrite (Z.min_r 17 0) by lia. rewrite !Z.sub_0_r.
  change (2 ^ 0) with 1. rewrite Z.mul_1_r. apply Z.eqb_neq.
  change (7629394531250000 * 2 ^ 17) with (10 ^ 21). lia.
Qed.

(** [String(v)] for a positive integer below [10^21] that binary64 holds
    is made of digits. *)
Lemma positive_to_string_digits (v : Z) :
  representable v -> 0 < v < 10 ^ 21 ->
  all_chars is_digit (positive_to_string v 0) = true
  /\ positive_to_string v 0 <> "".
Proof.
  intros Hrep Hv. unfold positive_to_string.
  rewrite Z.max_id. change (- 0) with 0. rewrite Z.max_id.
  change (2 ^ 0) with 1. rewrite Z.mul_1_r.
  unfold decimal_exponent. replace (1 <=? v) with true by (symmetry; apply Z.leb_le; lia).
  destruct (exponent_up_spec v 1 400 1 21) as [Hn0 Hlt]; [lia|cbn; lia|lia|].
  set (n0 := exponent_up 400 v 1 1) in *. rewrite Z.mul_1_l in Hlt.
  assert (Hself : round_trips (Finite v 0) v 0 = true).
  { unfold round_trips, of_decimal, to_double. cbn [Z.leb Z.compare].
    change (10 ^ 0) with 1. rewrite Z.mul_1_r.
    apply to_double_abs_representable; [exact Hrep|].
    split; [lia|]. eapply Z.lt_trans; [apply Hv|]. reflexivity. }
  pose proof (shortest_digits_integer v n0 (conj (proj1 Hv) Hlt) Hself 17 1 ltac:(lia)) as Hd.
  destruct (shortest_digits 17 (Finite v 0) v 1 n0 1) as [[s k] n].
  destruct Hd as (Hs & Hk & Hn).
  assert (Hn21 : n <= 21).
  { destruct Hn as [->|(-> & k' & Hk' & Hrt)]; [lia|].
    destruct (Z.eq_dec n0 21) as [E|E]; [|lia].
    rewrite E in Hrt. rewrite not_read_from_10_21 in Hrt by lia. discriminate Hrt. }
  replace (k <=? n) with true by (symmetry; apply Z.leb_le; lia).
  replace (n <=? 21) with true by (symmetry; apply Z.leb_le; lia).
  cbn [andb]. destruct (Z_to_string_digits s Hs) as [Hds Hne].
  split.
  - rewrite UrlProps.all_chars_app, Hds, zeros_digits. reflexivity.
  - destruct (Z_to_string s); [contradiction|discriminate].
Qed.

(** A decimal integer: digits, after an optional minus sign. *)
Definition is_decimal_integer (s : string) : bool :=
  match s with
  | EmptyString => false
  | String c r =>
    if is_char 45 c then negb (is_empty r) && all_chars is_digit r
    else all_chars is_digit s
  end.

(** [String(v)] is a decimal integer for every integer [v] that binary64
    holds with [|v| < 10^21]. *)
Lemma to_string_decimal_integer (v : Z) :
  representable (Z.abs v) -> Z.abs v < 10 ^ 21 ->
  is_decimal_integer (to_string (of_Z v)) = true
  /\ all_chars (fun c => is_digit c || is_char 45 c) (to_string (of_Z v)) = true.
Proof.
  intros Hrep Hlt. unfold to_string, of_Z.
  destruct (v =? 0) eqn:E0; [split; reflexivity|]. apply Z.eqb_neq in E0.
  assert (Hor : forall s, all_chars is_digit s = true ->
                          all_chars (fun c => is_digit c || is_char 45 c) s = true).
  { intros s. apply UrlProps.all_chars_impl. intros c ->. reflexivity. }
  destruct (v <? 0) eqn:Eneg.
  - apply Z.ltb_lt in Eneg. rewrite Z.abs_neq in * by lia.
    destruct (positive_to_string_digits (- v) Hrep ltac:(lia)) as [Hd Hne].
    cbn [append is_decimal_integer all_chars]. change (is_char 45 "-") with true.
    cbv iota. rewrite Hd, (Hor _ Hd).
    destruct (positive_to_string (- v) 0); [contradiction|]. split; reflexivity.
  - apply Z.ltb_ge in Eneg. rewrite Z.abs_eq in * by lia.
    destruct (positive_to_string_digits v Hrep ltac:(lia)) as [Hd Hne].
    rewrite (Hor _ Hd). split; [|reflexivity].
    destruct (positive_to_string v 0) as [|c r] eqn:Es; [contradiction|].
    unfold is_decimal_integer. rewrite Hd.
    cbn [all_chars] in Hd. apply andb_true_iff in Hd. destruct Hd as [Hc _].
    replace (is_char 45 c) with false; [reflexivity|].
    clear - Hc. revert Hc. destruct c as [[] [] [] [] [] [] [] []]; vm_compute;
      intros H; try discriminate H; reflexivity.
Qed.

End NumberProps.

(* ================================================================== *)
(** * Properties: the run *)
(* ================================================================== *)

Module RunProps.

Import Validator JsNumber Host Main RetryProps.
Local Open Scope action_scope.

Definition Request : Type := (string * HttpMethod * list (string * string))%type.

(** The operation [run] works with. *)
Definition operation_of (h : host) : Operation :=
  or_default (getInput h "operation") "hit".

(** The statements of [run] up to the call of [requestWithRetries]: the
    validation, and the request it calls with. *)
Definition prepare (h : host) : M Request :=
  let operation := operation_of h in
  let namespace := getInput h "namespace" in
  let key := getInput h "key" in
  lift (requireNonEmpty "namespace" namespace) ;;;
  lift (requireNonEmpty "key" key) ;;;
  lift (validateName KNamespace namespace) ;;;
  lift (validateName KKey key) ;;;
  let initializerRaw := or_default (getInput h "initializer") "0" in
  let valueRaw := getInput h "value" in
  let adminKey := getInput h "admin_key" in
  (if isAdminOp operation then
     lift (requireNonEmpty "admin_key" adminKey) ;;;
     setSecret adminKey
   else ret tt) ;;;
  (if (String.eqb operation "set" || String.eqb operation "update")
      && (JsNumber.is_empty valueRaw || String.eqb (JsString.trim valueRaw) "")
   then raise (mkError ("Missing required input: value (required for operation="
                        ++ operation ++ ")"))
   else ret tt) ;;;
  initializer <- lift
    (if String.eqb operation "create"
     then rbind (parseInteger "initializer" initializerRaw) (fun n => Ok (Some n))
     else Ok None) ;;
  value <- lift
    (if String.eqb operation "set" || String.eqb operation "update"
     then rbind (parseInteger "value" valueRaw) (fun n => Ok (Some n))
     else Ok None) ;;
  url <- lift (buildUrl operation namespace key initializer value) ;;
  ret (url, methodFor operation,
       app [("Accept", "application/json")]
           (if isAdminOp operation then [("Authorization", "Bearer " ++ adminKey)] else [])).

(** What [readJsonSafely] decodes the text of a body to. *)
Definition decode (text : string) : Json.value :=
  if JsNumber.is_empty text then Json.Obj []
  else
    match Json.JSON_parse text with
    | Ok v => v
    | Err _ => Json.Obj [("error", Json.Str text)]
    end.

(** The message of the error [run] throws on a response that is not ok
    and whose body was read, before the operation is appended. *)
Definition failure_text (res : Response) : string :=
  match Json.get_optional (decode (body res)) "error" with
  | Json.Str s => s
  | _ => "Request failed with status " ++ Z_to_string (status res)
  end.

(** The statements of [run] after a response that is ok. *)
Definition project (operation : Operation) (payload : Json.value) : M unit :=
  output_field payload "value" ;;;
  (if String.eqb operation "create" then
     output_field payload "namespace" ;;;
     output_field payload "key" ;;;
     output_field payload "admin_key" ;;;
     match Json.get_optional payload "admin_key" with
     | Json.Str s => setSecret s
     | _ => ret tt
     end
   else ret tt) ;;;
  (if String.eqb operation "info" then
     output_field payload "exists" ;;;
     output_field payload "expires_in" ;;;
     output_field payload "expires_str" ;;;
     output_field payload "full_key" ;;;
     output_field payload "is_genuine"
   else ret tt) ;;;
  (if String.eqb operation "delete" then
     output_field payload "status" ;;;
     output_field payload "message"
   else ret tt).

(** The statements of [run] after [requestWithRetries]: a body that
    cannot be read makes [readJsonSafely] reject, which [run] does not
    catch. *)
Definition respond (operation : Operation) (res : Response) : M unit :=
  match text res with
  | Err e => raise e
  | Ok t =>
    if negb (ok res) then
      raise (mkError (failure_text res ++ " (operation=" ++ operation ++ ")"))
    else project operation (decode t)
  end.

(** [readJsonSafely] rejects with the error of the read, and decodes what
    was read otherwise; it does nothing else. *)
Lemma readJsonSafely_decode (res : Response) (w : World) :
  readJsonSafely res w = Some (rbind (text res) (fun t => Ok (decode t)), w).
Proof.
  unfold readJsonSafely, decode, bind, lift.
  destruct (text res) as [t|e]; cbn [rbind]; [|reflexivity].
  destruct (is_empty t); [reflexivity|].
  unfold try_catch, lift, ret. destruct (Json.JSON_parse t); reflexivity.
Qed.

Lemma body_read (res : Response) (t : string) : text res = Ok t -> body res = t.
Proof. unfold body. intros ->. reflexivity. Qed.

Lemma bind_step {A B C : Type} (c : M A) (k : A -> M C) (p : A -> M B)
  (r : B -> M C) (w : World) :
  (forall a w', k a w' = (x <- p a ;; r x) w') ->
  (a <- c ;; k a) w = (x <- (a <- c ;; p a) ;; r x) w.
Proof.
  intros H. unfold bind. destruct (c w) as [[[a|e] w']|]; try reflexivity.
  rewrite H. reflexivity.
Qed.

Lemma bind_ret {A B : Type} (a : A) (k : A -> M B) (w : World) :
  (x <- ret a ;; k x) w = k a w.
Proof. reflexivity. Qed.

Lemma bind_ext {A B : Type} (c : M A) (k1 k2 : A -> M B) (w : World) :
  (forall a w', k1 a w' = k2 a w') ->
  (a <- c ;; k1 a) w = (a <- c ;; k2 a) w.
Proof.
  intros H. unfold bind. destruct (c w) as [[[a|e] w']|]; auto.
Qed.

(** [run] is its validation, the exchange and the response's
    interpretation, in this order. *)
Lemma run_split (h : host) (w : World) :
  run h w
  = (req <- prepare h ;;
     res <- requestWithRetries h (fst (fst req)) (snd (fst req)) (snd req) ;;
     respond (operation_of h) res) w.
Proof.
  unfold run, prepare. fold (operation_of h). cbv zeta.
  do 9 (apply bind_step; intros ? ?).
  rewrite bind_ret. cbn [fst snd].
  apply bind_ext. intros res w1.
  unfold bind at 1. rewrite readJsonSafely_decode.
  unfold respond, failure_text, project, body.
  destruct (text res) as [t|e]; cbn [rbind]; [|reflexivity].
  destruct (negb (ok res)); reflexivity.
Qed.

Lemma main_eq (h : host) :
  main h
  = match run h start with
    | Some (Ok _, w) => Some w
    | Some (Err e, w) => Some (emit (SetFailed (message e)) w)
    | None => None
    end.
Proof.
  unfold main, try_catch, setFailed, tell.
  destruct (run h start) as [[[u|e] w]|]; reflexivity.
Qed.

Lemma bind_lift {A B : Type} (r : Result A) (k : A -> M B) (w : World) :
  (x <- lift r ;; k x) w
  = match r with
    | Ok a => k a w
    | Err e => Some (Err e, w)
    end.
Proof. destruct r; reflexivity. Qed.

Lemma bind_assoc {A B C : Type} (c : M A) (k1 : A -> M B) (k2 : B -> M C)
  (w : World) :
  (y <- (x <- c ;; k1 x) ;; k2 y) w = (x <- c ;; y <- k1 x ;; k2 y) w.
Proof.
  unfold bind. destruct (c w) as [[[a|e] w']|]; reflexivity.
Qed.

Lemma bind_tell {B : Type} (e : Event) (k : unit -> M B) (w : World) :
  (x <- tell e ;; k x) w = k tt (emit e w).
Proof. reflexivity. Qed.

Lemma bind_raise {A B : Type} (e : Error) (k : A -> M B) (w : World) :
  (x <- raise e ;; k x) w = Some (Err e, w).
Proof. reflexivity. Qed.

(** The checks [run] makes on its inputs, and the request it builds, as a
    function of the inputs alone. *)
Definition checked_names (h : host) : Result unit :=
  rbind (requireNonEmpty "namespace" (getInput h "namespace")) (fun _ =>
  rbind (requireNonEmpty "key" (getInput h "key")) (fun _ =>
  rbind (validateName KNamespace (getInput h "namespace")) (fun _ =>
  validateName KKey (getInput h "key")))).

Definition checked_admin_key (h : host) : Result unit :=
  if isAdminOp (operation_of h)
  then requireNonEmpty "admin_key" (getInput h "admin_key")
  else Ok tt.

Definition checked_value (h : host) : Result unit :=
  if (String.eqb (operation_of h) "set" || String.eqb (operation_of h) "update")
     && (JsNumber.is_empty (getInput h "value")
         || String.eqb (JsString.trim (getInput h "value")) "")
  then throw ("Missing required input: value (required for operation="
              ++ operation_of h ++ ")")
  else Ok tt.

Definition parsed_initializer (h : host) : Result (option Z) :=
  if String.eqb (operation_of h) "create"
  then rbind (parseInteger "initializer" (or_default (getInput h "initializer") "0"))
             (fun n => Ok (Some n))
  else Ok None.

Definition parsed_value (h : host) : Result (option Z) :=
  if String.eqb (operation_of h) "set" || String.eqb (operation_of h) "update"
  then rbind (parseInteger "value" (getInput h "value")) (fun n => Ok (Some n))
  else Ok None.

Definition request_headers (h : host) : list (string * string) :=
  app [("Accept", "application/json")]
      (if isAdminOp (operation_of h)
       then [("Authorization", "Bearer " ++ getInput h "admin_key")]
       else []).

Definition validated (h : host) : Result Request :=
  rbind (checked_names h) (fun _ =>
  rbind (checked_admin_key h) (fun _ =>
  rbind (checked_value h) (fun _ =>
  rbind (parsed_initializer h) (fun initializer =>
  rbind (parsed_value h) (fun value =>
  rbind (buildUrl (operation_of h) (getInput h "namespace") (getInput h "key")
                  initializer value) (fun url =>
  Ok (url, methodFor (operation_of h), request_headers h))))))).

(** The events of the validation: the caller's admin key is marked as a
    secret once the names and the key itself have passed their checks. *)
Definition secrets (h : host) : list Event :=
  match checked_names h, checked_admin_key h with
  | Ok _, Ok _ =>
    if isAdminOp (operation_of h) then [SetSecret (getInput h "admin_key")] else []
  | _, _ => []
  end.

Lemma prepare_eq (h : host) (w : World) :
  prepare h w = Some (validated h, mkWorld (fetches w) (events w ++ secrets h)).
Proof.
  assert (Hw : forall r : Result Request,
             Some (r, w) = Some (r, mkWorld (fetches w) (events w ++ []))).
  { intros r. rewrite app_nil_r. destruct w; reflexivity. }
  unfold prepare, validated, secrets, checked_names. cbv zeta.
  rewrite bind_lift.
  destruct (requireNonEmpty "namespace" (getInput h "namespace")); cbn [rbind]; [|apply Hw].
  rewrite bind_lift.
  destruct (requireNonEmpty "key" (getInput h "key")); cbn [rbind]; [|apply Hw].
  rewrite bind_lift.
  destruct (validateName KNamespace (getInput h "namespace")); cbn [rbind]; [|apply Hw].
  rewrite bind_lift.
  destruct (validateName KKey (getInput h "key")) as [[]|]; cbn [rbind]; [|apply Hw].
  unfold checked_admin_key, request_headers.
  destruct (isAdminOp (operation_of h)).
  - rewrite bind_assoc, bind_lift.
    destruct (requireNonEmpty "admin_key" (getInput h "admin_key")); cbn [rbind]; [|apply Hw].
    unfold setSecret. rewrite bind_tell.
    unfold checked_value, parsed_initializer, parsed_value.
    match goal with |- context [if ?c then raise _ else _] => destruct c end;
      [reflexivity|].
    rewrite bind_ret, bind_lift. cbn [rbind].
    match goal with |- context [match ?r with Ok _ => _ | Err _ => _ end] => destruct r end;
      cbn [rbind]; [|reflexivity].
    rewrite bind_lift.
    match goal with |- context [match ?r with Ok _ => _ | Err _ => _ end] => destruct r end;
      cbn [rbind]; [|reflexivity].
    rewrite bind_lift.
    match goal with |- context [match ?r with Ok _ => _ | Err _ => _ end] => destruct r end;
      cbn [rbind]; reflexivity.
  - rewrite bind_ret.
    unfold checked_value, parsed_initializer, parsed_value. cbn [rbind].
    match goal with |- context [if ?c then raise _ else _] => destruct c end;
      [apply Hw|].
    rewrite bind_ret, bind_lift. cbn [rbind].
    match goal with |- context [match ?r with Ok _ => _ | Err _ => _ end] => destruct r end;
      cbn [rbind]; [|apply Hw].
    rewrite bind_lift.
    match goal with |- context [match ?r with Ok _ => _ | Err _ => _ end] => destruct r end;
      cbn [rbind]; [|apply Hw].
    rewrite bind_lift.
    match goal with |- context [match ?r with Ok _ => _ | Err _ => _ end] => destruct r end;
      cbn [rbind]; apply Hw.
Qed.

(** A computation that makes no call of [fetch] and no wait, always ends,
    and leaves outputs and secrets only. *)
Definition local_event (e : Event) : Prop :=
  match e with
  | SetOutput _ _ | SetSecret _ => True
  | _ => False
  end.

Definition quiet {A : Type} (c : M A) : Prop :=
  forall w, exists r out,
    c w = Some (r, mkWorld (fetches w) (events w ++ out))
    /\ Forall local_event out.

Lemma quiet_ret {A : Type} (a : A) : quiet (ret a).
Proof.
  intros [n evs]. exists (Ok a), []. rewrite app_nil_r. split; [reflexivity|constructor].
Qed.

Lemma quiet_lift {A : Type} (r : Result A) : quiet (lift r).
Proof.
  intros [n evs]. exists r, []. rewrite app_nil_r. split; [reflexivity|constructor].
Qed.

Lemma quiet_tell (e : Event) : local_event e -> quiet (tell e).
Proof.
  intros He w. exists (Ok tt), [e]. split; [reflexivity|].
  constructor; [exact He|constructor].
Qed.

Lemma quiet_bind {A B : Type} (c : M A) (k : A -> M B) :
  quiet c -> (forall a, quiet (k a)) -> quiet (x <- c ;; k x).
Proof.
  intros Hc Hk w. destruct (Hc w) as (r & out & Hrun & Hout).
  unfold bind. rewrite Hrun. destruct r as [a|e].
  - destruct (Hk a (mkWorld (fetches w) (events w ++ out))) as (r' & out' & Hrun' & Hout').
    cbn [fetches events] in Hrun'. rewrite Hrun'.
    exists r', (out ++ out')%list. rewrite app_assoc. split; [reflexivity|].
    apply Forall_app. split; assumption.
  - exists (Err e), out. split; [reflexivity|exact Hout].
Qed.

Lemma quiet_output_field (payload : Json.value) (name : string) :
  quiet (output_field payload name).
Proof.
  unfold output_field. apply quiet_bind; [apply quiet_lift|].
  intros v. unfold setOutputIfPresent.
  destruct (Json.is_nullish v); [apply quiet_ret|].
  apply quiet_bind; [apply quiet_lift|].
  intros s. apply quiet_tell. exact I.
Qed.

Lemma quiet_project (operation : Operation) (payload : Json.value) :
  quiet (project operation payload).
Proof.
  unfold project.
  repeat first
    [ apply quiet_output_field
    | apply quiet_ret
    | apply quiet_bind; [|intros _]
    | match goal with
      | |- quiet (if ?b then _ else _) => destruct b
      | |- quiet (match ?v with _ => _ end) => destruct v
      end
    | apply quiet_tell; exact I ].
Qed.

(** How a run ends once the exchange has ended with result [r] in world
    [w1]. *)
Definition ending (h : host) (r : Result Response) (w1 w : World) : Prop :=
  match r with
  | Err e => w = emit (SetFailed (message e)) w1
  | Ok res =>
    match text res with
    | Err e => w = emit (SetFailed (message e)) w1
    | Ok t =>
      if ok res then
        exists r2 out,
          project (operation_of h) (decode t) w1
          = Some (r2, mkWorld (fetches w1) (events w1 ++ out))
          /\ Forall local_event out
          /\ w = match r2 with
                 | Ok _ => mkWorld (fetches w1) (events w1 ++ out)
                 | Err e => emit (SetFailed (message e))
                                 (mkWorld (fetches w1) (events w1 ++ out))
                 end
      else
        w = emit (SetFailed (failure_text res ++ " (operation=" ++ operation_of h ++ ")"))
                 w1
    end
  end.

(** The shape of every run: a validation error is reported without any
    exchange; otherwise the validated request is exchanged, in at most five
    attempts, and the run ends on the result of the last attempt. *)
Lemma main_run (h : host) :
  match validated h with
  | Err e => main h = Some (mkWorld 0 (secrets h ++ [SetFailed (message e)]))
  | Ok (url, method, hdrs) =>
    exists r w1 evs w,
      requestWithRetries h url method hdrs (mkWorld 0 (secrets h)) = Some (r, w1)
      /\ events w1 = (secrets h ++ evs)%list
      /\ Forall (exchange_event url method hdrs) evs
      /\ (0 < fetches w1 <= 5)%nat
      /\ attempts evs = fetches w1
      /\ match network h (fetches w1 - 1) with
         | Rejected e => r = Err e
         | Resolved res => r = Ok res
         end
      /\ main h = Some w
      /\ fetches w = fetches w1
      /\ ending h r w1 w
  end.
Proof.
  assert (Hmain : main h
                  = match (let w0 := mkWorld 0 (secrets h) in
                           match validated h with
                           | Ok req =>
                             (res <- requestWithRetries h (fst (fst req)) (snd (fst req))
                                                        (snd req) ;;
                              respond (operation_of h) res) w0
                           | Err e => Some (Err e, w0)
                           end) with
                    | Some (Ok _, w) => Some w
                    | Some (Err e, w) => Some (emit (SetFailed (message e)) w)
                    | None => None
                    end).
  { rewrite main_eq, run_split. unfold bind at 1. rewrite prepare_eq. reflexivity. }
  cbv zeta in Hmain.
  destruct (validated h) as [[[url method] hdrs]|e]; [|exact Hmain].
  cbn [fst snd] in Hmain. rewrite Hmain. clear Hmain.
  destruct (retry_loop_run h url method hdrs 5 0 500 (mkWorld 0 (secrets h)))
    as (r & w1 & Hrun & Hn & Hev & Hlast & _).
  { unfold MAX_ATTEMPTS. lia. } { reflexivity. }
  change (Z.to_nat (MAX_ATTEMPTS - 0)) with 5%nat in Hn.
  destruct (retry_loop_events h url method hdrs _ _ _ _ _ _ Hrun) as (evs & Hevs & Hall).
  cbn [fetches events] in *.
  assert (Hsec : attempts (secrets h) = 0%nat).
  { unfold secrets. destruct (checked_names h); [|reflexivity].
    destruct (checked_admin_key h); [|reflexivity].
    destruct (isAdminOp (operation_of h)); reflexivity. }
  assert (Hatt : attempts evs = fetches w1).
  { rewrite Hevs, attempts_app in Hev. lia. }
  assert (Hreq : requestWithRetries h url method hdrs (mkWorld 0 (secrets h))
                 = Some (r, w1)) by exact Hrun.
  assert (Hm : exists w,
             match (res <- requestWithRetries h url method hdrs ;;
                    respond (operation_of h) res) (mkWorld 0 (secrets h)) with
             | Some (Ok _, w) => Some w
             | Some (Err e, w) => Some (emit (SetFailed (message e)) w)
             | None => None
             end = Some w
             /\ fetches w = fetches w1 /\ ending h r w1 w).
  { unfold bind. rewrite Hreq. destruct r as [res|e].
    - unfold respond, ending.
      destruct (text res) as [t|e];
        [|eexists; split; [reflexivity|]; split; reflexivity].
      destruct (ok res) eqn:Hok; cbn [negb].
      + destruct (quiet_project (operation_of h) (decode t) w1)
          as (r2 & out & Hp & Hout).
        rewrite Hp. destruct r2 as [u|e]; eexists;
          (split; [reflexivity|]); (split; [reflexivity|]);
          eexists _, out; (split; [reflexivity|]); (split; [exact Hout|reflexivity]).
      + eexists. split; [reflexivity|]. split; reflexivity.
    - eexists. split; [reflexivity|]. split; reflexivity. }
  destruct Hm as (w & Hm1 & Hm2 & Hm3).
  exists r, w1, evs, w. repeat split; try assumption; lia.
Qed.

Import ValidatorProps.

(** C7 (as amended).  [readJsonSafely] fails only when the read of the
    body fails, and then with the error of the read.  Of a body that was
    read it gives the empty mapping when the text is empty, the parsed value
    when [JSON.parse] accepts the text, and the mapping with the raw text
    under [error] for any other text; the text not-json is such a text.  It
    does nothing else. *)
Theorem readJsonSafely_fails_on_read_only :
  (forall (res : Response) (w : World),
     match text res with
     | Err e => readJsonSafely res w = Some (Err e, w)
     | Ok t =>
       exists v,
         readJsonSafely res w = Some (Ok v, w)
         /\ (t = "" -> v = Json.Obj [])
         /\ (forall p, t <> "" -> Json.JSON_parse t = Ok p -> v = p)
         /\ (forall e, t <> "" -> Json.JSON_parse t = Err e ->
                       v = Json.Obj [("error", Json.Str t)])
     end)
  /\ (forall (code : Z) (hdrs : list (string * string)) (w : World),
        readJsonSafely (mkResponse code hdrs "not-json") w
        = Some (Ok (Json.Obj [("error", Json.Str "not-json")]), w)).
Proof.
  split.
  - intros res w. rewrite readJsonSafely_decode.
    destruct (text res) as [t|e]; cbn [rbind]; [|reflexivity].
    exists (decode t). split; [reflexivity|].
    unfold decode. destruct t as [|c r]; cbn [is_empty].
    + repeat split; intros; congruence.
    + split; [discriminate|].
      split; intros ? _ ->; reflexivity.
  - intros code hdrs w. rewrite readJsonSafely_decode. reflexivity.
Qed.

(** A response whose body cannot be read: the connection ends before the
    body does. *)
Definition unreadable (code : Z) : Response :=
  mkReceived code [] (Err (mkError "terminated")).

(** C7 as first stated fails on a response whose body cannot be read:
    [readJsonSafely] reads the body before its [try], and rejects with the
    error of the read. *)
Lemma unreadable_body_rejects :
  readJsonSafely (unreadable 200) start = Some (Err (mkError "terminated"), start).
Proof. reflexivity. Qed.

(** C8 (as amended).  Every run ends without throwing.  When its last
    attempt got a response that is not 2xx, the last thing the run does is
    report failure, and nothing was set as an output or reported before it.
    If the body of that response was read, the message is the payload's
    [error] when that is a string, and one naming the status code otherwise,
    followed in both cases by the operation; if the read of the body
    failed, the message is that of the read's error, as it is. *)
Theorem final_failure_reported (h : host) :
  exists w,
    main h = Some w
    /\ forall res,
         (0 < fetches w)%nat ->
         network h (fetches w - 1) = Resolved res ->
         ok res = false ->
         exists evs msg,
           events w = (evs ++ [SetFailed msg])%list
           /\ match text res with
              | Ok t =>
                exists m,
                  msg = m ++ " (operation=" ++ operation_of h ++ ")"
                  /\ match Json.get_optional (decode t) "error" with
                     | Json.Str s => m = s
                     | _ => m = "Request failed with status " ++ Z_to_string (status res)
                     end
              | Err e => msg = message e
              end
           /\ forall e, In e evs ->
                        match e with
                        | SetOutput _ _ | SetFailed _ => False
                        | _ => True
                        end.
Proof.
  pose proof (main_run h) as H.
  destruct (validated h) as [[[url method] hdrs]|e].
  - destruct H as (r & w1 & evs & w & _ & Hev & Hall & Hn & _ & Hlast & Hmain & Hf & Hend).
    exists w. split; [exact Hmain|].
    intros res _ Hnet Hok. rewrite Hf in Hnet. rewrite Hnet in Hlast. subst r.
    unfold ending in Hend.
    assert (Hsilent : forall e, In e (secrets h ++ evs) ->
                                match e with
                                | SetOutput _ _ | SetFailed _ => False
                                | _ => True
                                end).
    { intros e Hin. apply in_app_or in Hin. destruct Hin as [Hin|Hin].
      - unfold secrets in Hin.
        destruct (checked_names h); [|destruct Hin].
        destruct (checked_admin_key h); [|destruct Hin].
        destruct (isAdminOp (operation_of h)); [|destruct Hin].
        destruct Hin as [<-|[]]. exact I.
      - rewrite Forall_forall in Hall. destruct (Hall e Hin) as [->|[ms ->]]; exact I. }
    destruct (text res) as [t|e] eqn:Et.
    + rewrite Hok in Hend. subst w.
      exists (secrets h ++ evs)%list. eexists.
      split; [unfold emit; cbn [events]; rewrite Hev; reflexivity|].
      split; [|exact Hsilent].
      exists (failure_text res). split; [reflexivity|].
      unfold failure_text. rewrite (body_read res t Et).
      destruct (Json.get_optional (decode t) "error"); reflexivity.
    + subst w. exists (secrets h ++ evs)%list, (message e).
      split; [unfold emit; cbn [events]; rewrite Hev; reflexivity|].
      split; [reflexivity|exact Hsilent].
  - eexists. split; [exact H|]. cbn [fetches]. intros res Hlt. lia.
Qed.

Definition inputs (l : list (string * string)) : string -> string :=
  fun name =>
    match find (fun nv => String.eqb (fst nv) name) l with
    | Some nv => snd nv
    | None => EmptyString
    end.

Definition not_found_host : host :=
  mkHost (inputs [("operation", "get"); ("namespace", "ns1"); ("key", "mykey")])
         (fun _ => Resolved (mkResponse 404 [] "nope")).

Lemma final_failure_reported_witness :
  exists w evs,
    main not_found_host = Some w
    /\ events w = (evs ++ [SetFailed "nope (operation=get)"])%list.
Proof.
  destruct (final_failure_reported not_found_host) as (w & Hm & Hf).
  assert (Hw : main not_found_host
               = Some (mkWorld 1 [Fetch "https://abacus.jasoncameron.dev/get/ns1/mykey" GET
                                    [("Accept", "application/json")];
                                  SetFailed "nope (operation=get)"]))
    by (vm_compute; reflexivity).
  rewrite Hw in Hm. injection Hm as <-.
  destruct (Hf (mkResponse 404 [] "nope")) as (evs & msg & Hev & Hmsg & _);
    [cbn; lia|reflexivity|reflexivity|].
  eexists _, evs. split; [exact Hw|].
  cbn [text mkResponse] in Hmsg. destruct Hmsg as (m & -> & Hm).
  vm_compute in Hm. subst m. exact Hev.
Defined.

(** The service answers 404, and the connection ends before the body of
    the answer does. *)
Definition not_found_unreadable : host :=
  mkHost (inputs [("operation", "get"); ("namespace", "ns1"); ("key", "mykey")])
         (fun _ => Resolved (unreadable 404)).

(** C8 as first stated fails on a last response that is not 2xx and whose
    body cannot be read: the payload's [error] is no string, for there is no
    payload, and the run reports the error of the read, not a message that
    names the status code, and without the operation after it. *)
Lemma unreadable_failure_not_named :
  main not_found_unreadable
  = Some (mkWorld 1 [Fetch "https://abacus.jasoncameron.dev/get/ns1/mykey" GET
                       [("Accept", "application/json")];
                     SetFailed "terminated"]).
Proof. vm_compute. reflexivity. Qed.

(** An input that is not there: nothing is left of it after trimming. *)
Definition missing (h : host) (name : string) : Prop :=
  JsString.trim (getInput h name) = "".

Lemma blank_input_missing (h : host) (name : string) :
  JsString.is_blank (input h name) = true -> missing h name.
Proof.
  unfold missing, getInput, JsString.is_blank, JsString.trim. intros H.
  apply String.eqb_eq in H. rewrite H. reflexivity.
Qed.

(** The inputs that the validation is to refuse. *)
Definition invalid_input (h : host) : Prop :=
  missing h "namespace" \/ ~ Identifier (getInput h "namespace")
  \/ missing h "key" \/ ~ Identifier (getInput h "key")
  \/ ((operation_of h = "set" \/ operation_of h = "update") /\ missing h "value")
  \/ (isAdminOp (operation_of h) = true /\ missing h "admin_key").

Lemma validateName_ok (kind : NameKind) (value : string) (u : unit) :
  validateName kind value = Ok u -> Identifier value.
Proof.
  unfold validateName. intros H. apply NAME_RE_test_spec.
  destruct (NAME_RE_test value); [reflexivity|discriminate H].
Qed.

Lemma requireNonEmpty_ok (name value : string) (u : unit) :
  requireNonEmpty name value = Ok u -> JsString.trim value <> "".
Proof.
  intros H Ht. rewrite (proj1 (requireNonEmpty_spec name value) Ht) in H.
  discriminate H.
Qed.

Lemma invalid_validated (h : host) :
  invalid_input h -> exists e, validated h = Err e.
Proof.
  intros Hinv. unfold validated, checked_names.
  destruct (requireNonEmpty "namespace" (getInput h "namespace")) eqn:E1;
    cbn [rbind]; [|eexists; reflexivity].
  destruct (requireNonEmpty "key" (getInput h "key")) eqn:E2;
    cbn [rbind]; [|eexists; reflexivity].
  destruct (validateName KNamespace (getInput h "namespace")) eqn:E3;
    cbn [rbind]; [|eexists; reflexivity].
  destruct (validateName KKey (getInput h "key")) eqn:E4;
    cbn [rbind]; [|eexists; reflexivity].
  destruct (checked_admin_key h) eqn:E5; cbn [rbind]; [|eexists; reflexivity].
  destruct (checked_value h) eqn:E6; cbn [rbind]; [|eexists; reflexivity].
  exfalso.
  apply requireNonEmpty_ok in E1. apply requireNonEmpty_ok in E2.
  apply validateName_ok in E3. apply validateName_ok in E4.
  destruct Hinv as [H|[H|[H|[H|[[Hop H]|[Hop H]]]]]]; try contradiction.
  - unfold checked_value in E6. unfold missing in H. rewrite H in E6.
    cbn [String.eqb] in E6. rewrite orb_true_r in E6.
    destruct Hop as [Hop|Hop]; rewrite Hop in E6; discriminate E6.
  - unfold checked_admin_key in E5. rewrite Hop in E5.
    apply requireNonEmpty_ok in E5. contradiction.
Qed.

Lemma secrets_cases (h : host) :
  secrets h = [] \/ secrets h = [SetSecret (getInput h "admin_key")].
Proof.
  unfold secrets. destruct (checked_names h); [|now left].
  destruct (checked_admin_key h); [|now left].
  destruct (isAdminOp (operation_of h)); [now right|now left].
Qed.

(** C9.  A run on invalid input (a namespace or key that is missing or
    violates the pattern, no value for set or update, no admin key for an
    admin operation) reports a validation error and does nothing else but,
    at most, mark the admin key as a secret: it makes no request and no
    wait.  When only the admin key of an admin operation is missing, the
    message names it. *)
Theorem invalid_input_no_request (h : host) :
  invalid_input h ->
  exists msg pre,
    main h = Some (mkWorld 0 (pre ++ [SetFailed msg]))
    /\ (pre = [] \/ pre = [SetSecret (getInput h "admin_key")])
    /\ (Identifier (getInput h "namespace") -> Identifier (getInput h "key") ->
        isAdminOp (operation_of h) = true -> missing h "admin_key" ->
        msg = "Missing required input: admin_key" /\ pre = []).
Proof.
  intros Hinv. destruct (invalid_validated h Hinv) as [e He].
  pose proof (main_run h) as H. rewrite He in H.
  exists (message e), (secrets h). split; [exact H|].
  split; [apply secrets_cases|].
  intros Hns Hkey Hop Hmiss.
  unfold validated, checked_names in He. unfold secrets, checked_names.
  rewrite !requireNonEmpty_identifier in * by assumption.
  rewrite (validateName_identifier KNamespace _ Hns) in *.
  rewrite (validateName_identifier KKey _ Hkey) in *.
  cbn [rbind] in *. unfold checked_admin_key in *. rewrite Hop in *.
  rewrite (proj1 (requireNonEmpty_spec "admin_key" _) Hmiss) in *.
  cbn [rbind] in He. injection He as <-. split; reflexivity.
Qed.

Definition set_without_value : host :=
  mkHost (inputs [("operation", "set"); ("namespace", "ns1"); ("key", "mykey");
                  ("admin_key", "k")])
         (fun _ => Rejected (mkError "unreachable")).

Lemma invalid_input_no_request_witness :
  exists msg pre,
    main set_without_value = Some (mkWorld 0 (pre ++ [SetFailed msg]))
    /\ (pre = [] \/ pre = [SetSecret "k"]).
Proof.
  destruct (invalid_input_no_request set_without_value) as (msg & pre & Hm & Hpre & _).
  - right. right. right. right. left. split; [now left|reflexivity].
  - exists msg, pre. split; [exact Hm|exact Hpre].
Defined.

Import UrlProps.

(** An input that is there. *)
Definition present (h : host) (name : string) : Prop :=
  JsString.trim (getInput h name) <> "".

(** The query [buildUrl] attaches. *)
Definition query_text (op : Operation) (initializer value : Z) : string :=
  if String.eqb op "create"
  then "?initializer=" ++ JsUrl.urlencoded_string (to_string (of_Z initializer))
  else if String.eqb op "set" || String.eqb op "update"
  then "?value=" ++ JsUrl.urlencoded_string (to_string (of_Z value))
  else "".

Lemma base_visible : all_chars visible (normalizeBaseUrl BASE_URL) = true.
Proof. reflexivity. Qed.

Lemma buildUrl_plain (op namespace key : string) (initializer value : option Z) :
  all_chars url_plain op = true ->
  JsUrl.is_single_dot op = false -> JsUrl.is_double_dot op = false ->
  Identifier namespace -> Identifier key ->
  (String.eqb op "create" = false -> initializer = None) ->
  (String.eqb op "set" || String.eqb op "update" = false -> value = None) ->
  (String.eqb op "create" = true -> value = None) ->
  buildUrl op namespace key initializer value
  = Ok (BASE_URL ++ "/" ++ op ++ "/" ++ namespace ++ "/" ++ key
        ++ match initializer, value with
           | Some i, _ => query_text op i 0
           | None, Some v => query_text op 0 v
           | None, None => ""
           end).
Proof.
  intros Hop Hop1 Hop2 Hns Hkey Hi Hv Hcv. unfold buildUrl.
  rewrite (encodeURIComponent_identifier _ Hns), (encodeURIComponent_identifier _ Hkey).
  destruct (identifier_not_dot _ Hns) as [Hns1 Hns2].
  destruct (identifier_not_dot _ Hkey) as [Hkey1 Hkey2].
  rewrite parse_three_segments; try assumption.
  2:{ exact base_visible. }
  2:{ eexists _, _. reflexivity. }
  2,3: apply (all_chars_impl name_char); [exact name_char_plain|now apply identifier_chars].
  cbn [rbind]. change (normalizeBaseUrl BASE_URL) with BASE_URL.
  unfold query_text.
  destruct (String.eqb op "create") eqn:Ecreate.
  - rewrite (Hcv eq_refl). destruct initializer as [i|].
    + rewrite (searchParams_set_fresh _ _ _ "initializer" _ "i" "nitializer" eq_refl).
      rewrite href_three_segments. reflexivity.
    + rewrite href_three_segments. rewrite !append_nil_r. reflexivity.
  - rewrite (Hi eq_refl).
    destruct (String.eqb op "set" || String.eqb op "update") eqn:Eset.
    + destruct value as [v|].
      * rewrite (searchParams_set_fresh _ _ _ "value" _ "v" "alue" eq_refl).
        rewrite href_three_segments. reflexivity.
      * rewrite href_three_segments. rewrite !append_nil_r. reflexivity.
    + rewrite (Hv eq_refl). rewrite href_three_segments, !append_nil_r. reflexivity.
Qed.

(** The request of a run whose inputs pass the validation. *)
Lemma validated_valid (h : host) (initializer value : Z) :
  all_chars url_plain (operation_of h) = true ->
  JsUrl.is_single_dot (operation_of h) = false ->
  JsUrl.is_double_dot (operation_of h) = false ->
  Identifier (getInput h "namespace") -> Identifier (getInput h "key") ->
  (isAdminOp (operation_of h) = true -> present h "admin_key") ->
  (operation_of h = "create" ->
   parseInteger "initializer" (or_default (getInput h "initializer") "0") = Ok initializer) ->
  (operation_of h = "set" \/ operation_of h = "update" ->
   present h "value" /\ parseInteger "value" (getInput h "value") = Ok value) ->
  validated h
  = Ok (BASE_URL ++ "/" ++ operation_of h ++ "/" ++ getInput h "namespace" ++ "/"
        ++ getInput h "key" ++ query_text (operation_of h) initializer value,
        methodFor (operation_of h), request_headers h).
Proof.
  intros Hop Hop1 Hop2 Hns Hkey Hadmin Hinit Hval.
  unfold validated, checked_names.
  rewrite !requireNonEmpty_identifier by assumption.
  rewrite (validateName_identifier KNamespace _ Hns).
  rewrite (validateName_identifier KKey _ Hkey). cbn [rbind].
  assert (Hck : checked_admin_key h = Ok tt).
  { unfold checked_admin_key. destruct (isAdminOp (operation_of h)); [|reflexivity].
    apply requireNonEmpty_spec. apply Hadmin. reflexivity. }
  rewrite Hck. cbn [rbind].
  unfold checked_value, parsed_initializer, parsed_value.
  destruct (String.eqb (operation_of h) "create") eqn:Ecreate.
  - pose proof Ecreate as Eop. apply String.eqb_eq in Eop.
    assert (Eset : String.eqb (operation_of h) "set"
                   || String.eqb (operation_of h) "update" = false)
      by (rewrite Eop; reflexivity).
    rewrite Eset. cbn [andb rbind]. rewrite (Hinit Eop). cbn [rbind].
    rewrite buildUrl_plain; try assumption; try congruence.
    cbn [rbind]. unfold query_text. rewrite Ecreate. reflexivity.
  - destruct (String.eqb (operation_of h) "set" || String.eqb (operation_of h) "update")
      eqn:Eset.
    + assert (Hor : operation_of h = "set" \/ operation_of h = "update").
      { apply orb_true_iff in Eset. destruct Eset as [E|E]; apply String.eqb_eq in E; auto. }
      destruct (Hval Hor) as [Hpres Hparse]. cbn [andb].
      assert (Hnb : is_empty (getInput h "value")
                    || String.eqb (JsString.trim (getInput h "value")) "" = false).
      { unfold present in Hpres.
        destruct (getInput h "value") as [|c r] eqn:Ev; [exfalso; apply Hpres; reflexivity|].
        cbn [is_empty orb]. apply String.eqb_neq. exact Hpres. }
      rewrite Hnb. cbn [rbind]. rewrite Hparse. cbn [rbind].
      rewrite buildUrl_plain; try assumption; try congruence.
      cbn [rbind]. unfold query_text. rewrite Ecreate, Eset. reflexivity.
    + cbn [andb rbind].
      rewrite buildUrl_plain; try assumption; try congruence; try reflexivity.
      cbn [rbind]. unfold query_text. rewrite Ecreate, Eset. rewrite !append_nil_r.
      reflexivity.
Qed.

Lemma ending_events (h : host) (r : Result Response) (w1 w : World) :
  ending h r w1 w ->
  exists tail,
    events w = (events w1 ++ tail)%list
    /\ Forall (fun e => local_event e \/ exists m, e = SetFailed m) tail.
Proof.
  unfold ending, emit. intros H.
  assert (Hf : forall m, Forall (fun e => local_event e \/ exists m, e = SetFailed m)
                                [SetFailed m]).
  { intros m. constructor; [right; eexists; reflexivity|constructor]. }
  destruct r as [res|e].
  - destruct (text res) as [t|e];
      [|subst w; cbn [events]; eexists; split; [reflexivity|apply Hf]].
    destruct (ok res).
    + destruct H as (r2 & out & _ & Hout & ->).
      assert (Hl : Forall (fun e => local_event e \/ exists m, e = SetFailed m) out).
      { eapply Forall_impl; [|exact Hout]. intros e He. now left. }
      destruct r2 as [u|e]; cbn [events].
      * exists out. split; [reflexivity|exact Hl].
      * exists (out ++ [SetFailed (message e)])%list. rewrite app_assoc.
        split; [reflexivity|]. apply Forall_app. split; [exact Hl|apply Hf].
    + subst w. cbn [events]. eexists. split; [reflexivity|apply Hf].
  - subst w. cbn [events]. eexists. split; [reflexivity|apply Hf].
Qed.

(** A run whose inputs pass the validation makes at least one attempt, and
    every attempt carries the validated request. *)
Lemma main_request (h : host) (url : string) (method : HttpMethod)
  (hdrs : list (string * string)) :
  validated h = Ok (url, method, hdrs) ->
  exists w,
    main h = Some w
    /\ (0 < attempts (events w))%nat
    /\ forall u m hd, In (Fetch u m hd) (events w) ->
                      u = url /\ m = method /\ hd = hdrs.
Proof.
  intros Hv. pose proof (main_run h) as H. rewrite Hv in H.
  destruct H as (r & w1 & evs & w & _ & Hev & Hall & Hn & Hatt & _ & Hmain & _ & Hend).
  destruct (ending_events h r w1 w Hend) as (tail & Hw & Htail).
  exists w. split; [exact Hmain|]. rewrite Hw, Hev. split.
  - rewrite !attempts_app. lia.
  - intros u m hd Hin.
    apply in_app_or in Hin. destruct Hin as [Hin|Hin].
    + apply in_app_or in Hin. destruct Hin as [Hin|Hin].
      * destruct (secrets_cases h) as [Hs|Hs]; rewrite Hs in Hin.
        -- destruct Hin.
        -- destruct Hin as [Hin|[]]. discriminate Hin.
      * rewrite Forall_forall in Hall. destruct (Hall _ Hin) as [Heq|[ms Heq]].
        -- injection Heq as -> -> ->. auto.
        -- discriminate Heq.
    + rewrite Forall_forall in Htail. destruct (Htail _ Hin) as [Hl|[msg Heq]].
      * destruct Hl.
      * discriminate Heq.
Qed.

(** The eight operations. *)
Definition known_operation (op : Operation) : Prop :=
  In op ["hit"; "create"; "get"; "info"; "set"; "update"; "reset"; "delete"].









Import NumberProps.

Definition read_operation (op : Operation) : Prop :=
  In op ["hit"; "create"; "get"; "info"].

Definition admin_operation (op : Operation) : Prop :=
  In op ["set"; "update"; "reset"; "delete"].

Lemma known_operation_plain (op : Operation) :
  known_operation op ->
  all_chars url_plain op = true
  /\ JsUrl.is_single_dot op = false /\ JsUrl.is_double_dot op = false
  /\ (read_operation op -> isAdminOp op = false)
  /\ (admin_operation op -> isAdminOp op = true).
Proof.
  unfold known_operation, read_operation, admin_operation. cbn [In].
  intros H.
  repeat match goal with
         | H : _ \/ _ |- _ => destruct H as [H|H]
         end; try contradiction; subst op;
    (split; [reflexivity|]); (split; [reflexivity|]); (split; [reflexivity|]);
    split; intros H; try reflexivity;
    repeat match goal with
           | H : _ \/ _ |- _ => destruct H as [H|H]
           end; try contradiction; discriminate H.
Qed.

(** C6 (as amended).  For one of the eight operations with a valid
    namespace and key (and the admin key, value and initializer the
    operation needs), every attempt of the run carries the same request:
    GET for hit, create, get and info, POST for set, update, reset and
    delete; the URL is the origin, then /operation/namespace/key, where
    percent-encoding leaves a valid namespace and key as they are; create
    adds [?initializer=] and set and update add [?value=] with the form
    encoding of [String] of the parsed number, which is that number as a
    decimal integer whenever its magnitude is below 10^21, and is 0 for an
    initializer that is absent; no other operation adds a query; the headers
    are [Accept], and for the admin operations also [Authorization] with the
    caller's admin key as a bearer token.  The URL is written out of the
    operation, the names and the number alone. *)
Theorem request_of_valid_inputs (h : host) (initializer value : Z) :
  let op := operation_of h in
  let namespace := getInput h "namespace" in
  let key := getInput h "key" in
  let stem := BASE_URL ++ "/" ++ op ++ "/" ++ namespace ++ "/" ++ key in
  known_operation op ->
  Identifier namespace -> Identifier key ->
  (admin_operation op -> present h "admin_key") ->
  (op = "create" ->
   parseInteger "initializer" (or_default (getInput h "initializer") "0") = Ok initializer) ->
  (op = "set" \/ op = "update" ->
   present h "value" /\ parseInteger "value" (getInput h "value") = Ok value) ->
  exists w,
    main h = Some w
    /\ (0 < attempts (events w))%nat
    /\ forall url method hdrs,
         In (Fetch url method hdrs) (events w) ->
         (read_operation op -> method = GET)
         /\ (admin_operation op -> method = POST)
         /\ JsUrl.encodeURIComponent namespace = namespace
         /\ JsUrl.encodeURIComponent key = key
         /\ (op = "create" ->
             url = stem ++ "?initializer="
                   ++ JsUrl.urlencoded_string (to_string (of_Z initializer)))
         /\ (op = "create" -> getInput h "initializer" = "" ->
             url = stem ++ "?initializer=0")
         /\ (op = "set" \/ op = "update" ->
             url = stem ++ "?value=" ++ JsUrl.urlencoded_string (to_string (of_Z value)))
         /\ (In op ["hit"; "get"; "info"; "reset"; "delete"] -> url = stem)
         /\ (forall n, (op = "create" /\ n = initializer)
                       \/ ((op = "set" \/ op = "update") /\ n = value) ->
                       Z.abs n < 10 ^ 21 ->
                       is_decimal_integer (to_string (of_Z n)) = true
                       /\ JsUrl.urlencoded_string (to_string (of_Z n)) = to_string (of_Z n))
         /\ (read_operation op -> hdrs = [("Accept", "application/json")])
         /\ (admin_operation op ->
             hdrs = [("Accept", "application/json");
                     ("Authorization", "Bearer " ++ getInput h "admin_key")]).
Proof.
  intros op namespace key stem Hop Hns Hkey Hadmin Hinit Hval.
  destruct (known_operation_plain op Hop) as (Hplain & Hd1 & Hd2 & Hread & Hadm).
  assert (Hv : validated h
               = Ok (stem ++ query_text op initializer value, methodFor op,
                     request_headers h)).
  { unfold stem. rewrite !append_assoc. cbn [append].
    rewrite (validated_valid h initializer value); try assumption.
    - reflexivity.
    - intros Hb. apply Hadmin. fold op in Hb.
      unfold known_operation, admin_operation in *. cbn [In] in *.
      repeat match goal with
             | H : _ \/ _ |- _ => destruct H as [H|H]
             end; try contradiction; subst op; rewrite <- Hop in Hb;
        try discriminate Hb; tauto. }
  destruct (main_request h _ _ _ Hv) as (w & Hmain & Hatt & Hreq).
  exists w. split; [exact Hmain|]. split; [exact Hatt|].
  intros url method hdrs Hin. destruct (Hreq _ _ _ Hin) as (-> & -> & ->).
  unfold methodFor, request_headers, query_text. fold op.
  split; [intros Hr; rewrite (Hread Hr); reflexivity|].
  split; [intros Ha; rewrite (Hadm Ha); reflexivity|].
  split; [apply encodeURIComponent_identifier; exact Hns|].
  split; [apply encodeURIComponent_identifier; exact Hkey|].
  split; [intros ->; reflexivity|].
  split.
  { intros Hc Hempty. specialize (Hinit Hc). rewrite Hempty in Hinit.
    assert (initializer = 0) as -> by (vm_compute in Hinit; congruence).
    rewrite Hc. reflexivity. }
  split; [intros [-> | ->]; reflexivity|].
  split.
  { intros Hl. cbn [In] in Hl.
    repeat match goal with
           | H : _ \/ _ |- _ => destruct H as [H|H]
           end; try contradiction; rewrite <- Hl; cbn; rewrite append_nil_r; reflexivity. }
  split.
  { intros n Hn Hlt.
    assert (Hrep : representable (Z.abs n)).
    { destruct Hn as [[Hc ->]|[Hc ->]].
      - eapply parseInteger_representable. apply Hinit. exact Hc.
      - eapply parseInteger_representable. apply Hval. exact Hc. }
    destruct (to_string_decimal_integer n Hrep Hlt) as [Hdec Hchars].
    split; [exact Hdec|]. apply urlencoded_string_digits. exact Hchars. }
  split; [intros Hr; rewrite (Hread Hr); reflexivity|].
  intros Ha. rewrite (Hadm Ha). reflexivity.
Qed.

Definition create_counter : host :=
  mkHost (inputs [("operation", "create"); ("namespace", "ns1"); ("key", "mykey");
                  ("initializer", "5")])
         (fun _ => Resolved (mkResponse 200 [] "{}")).

Lemma request_of_valid_inputs_witness :
  exists w,
    main create_counter = Some w
    /\ (0 < attempts (events w))%nat
    /\ forall url method hdrs,
         In (Fetch url method hdrs) (events w) ->
         url = "https://abacus.jasoncameron.dev/create/ns1/mykey?initializer=5"
         /\ method = GET
         /\ hdrs = [("Accept", "application/json")].
Proof.
  destruct (request_of_valid_inputs create_counter 5 0) as (w & Hmain & Hatt & Hreq).
  - unfold known_operation. cbn. tauto.
  - apply NAME_RE_test_spec. reflexivity.
  - apply NAME_RE_test_spec. reflexivity.
  - unfold admin_operation. cbn. intuition discriminate.
  - intros _. vm_compute. reflexivity.
  - intros [H|H]; vm_compute in H; discriminate H.
  - exists w. split; [exact Hmain|]. split; [exact Hatt|].
    intros url method hdrs Hin.
    destruct (Hreq url method hdrs Hin) as (Hget & _ & _ & _ & Hurl & _ & _ & _ & _ & Hhdrs & _).
    split; [rewrite (Hurl eq_refl); vm_compute; reflexivity|].
    split; [apply Hget|apply Hhdrs]; unfold read_operation; cbn; tauto.
Defined.

Definition huge_value : host :=
  mkHost (inputs [("operation", "set"); ("namespace", "ns1"); ("key", "mykey");
                  ("value", "1e21"); ("admin_key", "k")])
         (fun _ => Resolved (mkResponse 200 [] "{}")).

(** C6 as first stated fails on a value of magnitude 10^21 or more: the
    input [1e21] is a finite integer for [parseInteger], and [String] writes
    it with an exponent, so the query holds [1e+21] in its form encoding and
    no decimal integer. *)
Lemma huge_value_not_decimal :
  parseInteger "value" (getInput huge_value "value") = Ok (10 ^ 21)
  /\ to_string (of_Z (10 ^ 21)) = "1e+21"
  /\ main huge_value
     = Some (mkWorld 1
               [SetSecret "k";
                Fetch "https://abacus.jasoncameron.dev/set/ns1/mykey?value=1e%2B21" POST
                  [("Accept", "application/json"); ("Authorization", "Bearer k")]])
  /\ is_decimal_integer "1e%2B21" = false
  /\ is_decimal_integer "1e+21" = false.
Proof. repeat split; vm_compute; reflexivity. Qed.

(** The body of the answer to a create in the specification's scenario:
    value 5, namespace ns1, key mykey, admin_key abc123. *)
Definition created_body : string :=
  "{" ++ dquote ++ "value" ++ dquote ++ ":5,"
  ++ dquote ++ "namespace" ++ dquote ++ ":" ++ dquote ++ "ns1" ++ dquote ++ ","
  ++ dquote ++ "key" ++ dquote ++ ":" ++ dquote ++ "mykey" ++ dquote ++ ","
  ++ dquote ++ "admin_key" ++ dquote ++ ":" ++ dquote ++ "abc123" ++ dquote ++ "}".

Definition create_with_admin_key : host :=
  mkHost (inputs [("operation", "create"); ("namespace", "ns1"); ("key", "mykey");
                  ("initializer", "5")])
         (fun _ => Resolved (mkResponse 200 [] created_body)).

Definition delete_counter : host :=
  mkHost (inputs [("operation", "delete"); ("namespace", "ns1"); ("key", "mykey");
                  ("admin_key", "abc123")])
         (fun _ => Resolved (mkResponse 200 [] "{}")).

(** C4, on the code.  The caller's admin key is marked as a secret before
    the request that carries it; the admin key that a create returns is set
    as an output first and marked as a secret only after that. *)
Lemma returned_admin_key_output_before_secret :
  main delete_counter
  = Some (mkWorld 1
            [SetSecret "abc123";
             Fetch "https://abacus.jasoncameron.dev/delete/ns1/mykey" POST
               [("Accept", "application/json"); ("Authorization", "Bearer abc123")]])
  /\ main create_with_admin_key
     = Some (mkWorld 1
               [Fetch "https://abacus.jasoncameron.dev/create/ns1/mykey?initializer=5" GET
                  [("Accept", "application/json")];
                SetOutput "value" "5";
                SetOutput "namespace" "ns1";
                SetOutput "key" "mykey";
                SetOutput "admin_key" "abc123";
                SetSecret "abc123"]).
Proof. split; vm_compute; reflexivity. Qed.

End RunProps.

(* ================================================================== *)
(** * Further properties: white space and the validators *)
(* ================================================================== *)

Module TrimProps.

Import JsString Validator ValidatorProps.

(** One step of [trimStart]: it stops, or goes on from a shorter string. *)
Lemma trimStart_step (s : string) :
  trimStart s = s
  \/ exists s', (String.length s' < String.length s)%nat /\ trimStart s = trimStart s'.
Proof.
  destruct s as [|c r]; [now left|].
  cbn [trimStart]. destruct (is_ascii_ws c).
  { right. exists r. cbn [String.length]. split; [lia|reflexivity]. }
  destruct r as [|c1 r1]; [now left|].
  destruct (is_char 194 c && is_char 160 c1).
  { right. exists r1. cbn [String.length]. split; [lia|reflexivity]. }
  destruct r1 as [|c2 r2]; [now left|].
  match goal with |- context [if ?b then _ else _] => destruct b end; [|now left].
  right. exists r2. cbn [String.length]. split; [lia|reflexivity].
Qed.

Lemma trimStart_idempotent (s : string) : trimStart (trimStart s) = trimStart s.
Proof.
  remember (String.length s) as n eqn:Hn.
  revert s Hn. induction n as [n IH] using lt_wf_ind. intros s Hn.
  destruct (trimStart_step s) as [H|(s' & Hlt & H)].
  - rewrite H. exact H.
  - rewrite H. apply (IH (String.length s')); [lia|reflexivity].
Qed.

Lemma trimEnd_empty (s : string) : trimEnd s = "" <-> is_blank s = true.
Proof.
  destruct s as [|c r]; [split; reflexivity|].
  cbn [trimEnd]. destruct (is_blank (String c r)); split; congruence.
Qed.

(** Nothing is left of a string after [trim] exactly when it is white
    space only. *)
Lemma trim_empty (s : string) : trim s = "" <-> is_blank s = true.
Proof.
  unfold trim. rewrite trimEnd_empty. unfold is_blank.
  rewrite trimStart_idempotent. reflexivity.
Qed.

Lemma trim_blank (s : string) : is_blank s = true -> trim s = "".
Proof. apply trim_empty. Qed.

Lemma trim_not_blank (s : string) : is_blank s = false -> trim s <> "".
Proof. intros H Ht. apply trim_empty in Ht. congruence. Qed.

(** X1.  [requireNonEmpty] throws, with a message naming the input, exactly
    when the value is empty or white space only. *)
Theorem requireNonEmpty_blank (name value : string) :
  requireNonEmpty name value
  = if is_blank value then throw ("Missing required input: " ++ name) else Ok tt.
Proof.
  destruct (is_blank value) eqn:Hb.
  - apply requireNonEmpty_spec. apply trim_blank. exact Hb.
  - apply requireNonEmpty_spec. apply trim_not_blank. exact Hb.
Qed.

(** X2.  A value that [validateName] accepts is accepted by
    [requireNonEmpty] under any name, and [trim] leaves it as it is. *)
Theorem validateName_implies_requireNonEmpty (kind : NameKind) (name value : string) :
  validateName kind value = Ok tt ->
  requireNonEmpty name value = Ok tt /\ trim value = value.
Proof.
  intros H. unfold validateName in H.
  assert (Hid : Identifier value).
  { apply NAME_RE_test_spec. destruct (NAME_RE_test value); [reflexivity|discriminate H]. }
  split; [apply requireNonEmpty_identifier; exact Hid|apply trim_identifier; exact Hid].
Qed.

Lemma validateName_implies_requireNonEmpty_witness :
  requireNonEmpty "namespace" "my.app_1" = Ok tt /\ trim "my.app_1" = "my.app_1".
Proof.
  exact (validateName_implies_requireNonEmpty KNamespace "namespace" "my.app_1" eq_refl).
Defined.

(** Characters of a name are no white space: [trim] keeps a string of
    them. *)
Lemma trim_name_chars (s : string) : all_chars name_char s = true -> trim s = s.
Proof.
  intros H. unfold trim. destruct s as [|c r]; [reflexivity|].
  pose proof H as H'. cbn [all_chars] in H'. apply andb_true_iff in H'.
  destruct H' as [Hc _].
  rewrite (trimStart_name_char c r Hc). apply trimEnd_name_chars. exact H.
Qed.

End TrimProps.

(* ================================================================== *)
(** * Further properties: parseInteger *)
(* ================================================================== *)

Module ParseProps.

Import JsString JsNumber Validator Main NumberProps TrimProps.

(** The value of a decimal numeral read after [acc]. *)
Fixpoint uint_value (d : Decimal.uint) (acc : Z) : Z :=
  match d with
  | Decimal.Nil => acc
  | Decimal.D0 l => uint_value l (acc * 10 + 0)
  | Decimal.D1 l => uint_value l (acc * 10 + 1)
  | Decimal.D2 l => uint_value l (acc * 10 + 2)
  | Decimal.D3 l => uint_value l (acc * 10 + 3)
  | Decimal.D4 l => uint_value l (acc * 10 + 4)
  | Decimal.D5 l => uint_value l (acc * 10 + 5)
  | Decimal.D6 l => uint_value l (acc * 10 + 6)
  | Decimal.D7 l => uint_value l (acc * 10 + 7)
  | Decimal.D8 l => uint_value l (acc * 10 + 8)
  | Decimal.D9 l => uint_value l (acc * 10 + 9)
  end.

Lemma digits_value_uint (d : Decimal.uint) :
  forall acc, digits_value 10 acc (NilEmpty.string_of_uint d) = uint_value d acc.
Proof.
  induction d; intros acc; cbn [NilEmpty.string_of_uint uint_value];
    [reflexivity|..]; cbn [digits_value]; rewrite <- IHd; reflexivity.
Qed.

Lemma uint_value_pos (d : Decimal.uint) :
  forall acc : positive, uint_value d (Z.pos acc) = Z.pos (Pos.of_uint_acc d acc).
Proof.
  induction d; intros acc; cbn [uint_value Pos.of_uint_acc];
    [reflexivity|..]; rewrite <- IHd; f_equal; lia.
Qed.

Lemma uint_value_zero (d : Decimal.uint) : uint_value d 0 = Z.of_N (Pos.of_uint d).
Proof.
  induction d; cbn [uint_value Pos.of_uint]; [reflexivity|exact IHd|..];
    cbn [Z.of_N]; rewrite <- uint_value_pos; reflexivity.
Qed.

(** Reading the decimal numeral of a positive number gives the number. *)
Lemma digits_value_to_string (p : positive) :
  digits_value 10 0 (Z_to_string (Z.pos p)) = Z.pos p.
Proof.
  unfold Z_to_string. cbn [Z.to_int NilEmpty.string_of_int].
  rewrite digits_value_uint, uint_value_zero, DecimalPos.Unsigned.of_to. reflexivity.
Qed.

Lemma digit_value_digit (c : ascii) :
  is_digit c = true -> exists v, digit_value 10 c = Some v.
Proof.
  destruct c as [[] [] [] [] [] [] [] []]; try discriminate; intros _;
    eexists; vm_compute; reflexivity.
Qed.

Lemma span_digits_all (s : string) :
  all_chars is_digit s = true -> span_digits 10 s = (s, "").
Proof.
  induction s as [|c r IH]; [reflexivity|].
  cbn [all_chars]. intros H. apply andb_true_iff in H. destruct H as [Hc Hr].
  cbn [span_digits]. destruct (digit_value_digit c Hc) as [v ->].
  rewrite (IH Hr). reflexivity.
Qed.

Lemma digit_name_char (c : ascii) : is_digit c = true -> name_char c = true.
Proof.
  unfold name_char. intros ->. rewrite orb_true_r. reflexivity.
Qed.

Lemma digit_no_prefix (c : ascii) :
  is_digit c = true ->
  is_char 120 c || is_char 88 c = false
  /\ is_char 111 c || is_char 79 c = false
  /\ is_char 98 c || is_char 66 c = false
  /\ is_char 45 c = false /\ is_char 43 c = false
  /\ Ascii.eqb c "I" = false.
Proof.
  destruct c as [[] [] [] [] [] [] [] []]; try discriminate; intros _;
    vm_compute; repeat split; reflexivity.
Qed.

(** [Number] of a non-empty string of decimal digits, with or without a
    minus before it, reads the digits. *)
Lemma Number_digits (neg : bool) (c : ascii) (r : string) :
  all_chars is_digit (String c r) = true ->
  Number ((if neg then "-" else "") ++ String c r)
  = to_double neg (digits_value 10 0 (String c r)) 1.
Proof.
  intros Hd.
  assert (Hname : all_chars name_char ((if neg then "-" else "") ++ String c r) = true).
  { rewrite UrlProps.all_chars_app. apply andb_true_iff. split.
    - destruct neg; reflexivity.
    - apply (UrlProps.all_chars_impl is_digit); [exact digit_name_char|exact Hd]. }
  unfold Number. rewrite (trim_name_chars _ Hname).
  pose proof Hd as Hd'. cbn [all_chars] in Hd'. apply andb_true_iff in Hd'.
  destruct Hd' as [Hc Hr].
  destruct (digit_no_prefix c Hc) as (_ & _ & _ & Hm & Hp & HI).
  assert (Hpu : parse_unsigned_decimal (String c r)
                = Some (digits_value 10 0 (String c r), 0)).
  { unfold parse_unsigned_decimal. rewrite (span_digits_all _ Hd).
    cbn [is_empty andb]. rewrite UrlProps.append_nil_r. reflexivity. }
  assert (Hnd : parse_non_decimal (String c r) = None).
  { unfold parse_non_decimal. destruct r as [|c1 r1]; [reflexivity|].
    destruct (is_char 48 c); [|reflexivity].
    cbn [all_chars] in Hr. apply andb_true_iff in Hr. destruct Hr as [Hc1 _].
    destruct (digit_no_prefix c1 Hc1) as (-> & -> & -> & _). reflexivity. }
  assert (Hinf : String.eqb (String c r) "Infinity" = false).
  { cbn [String.eqb]. rewrite HI. reflexivity. }
  destruct neg; cbn [append is_empty].
  - cbn [parse_non_decimal]. change (is_char 48 "-") with false. cbv iota.
    cbn [take_sign]. change (is_char 45 "-") with true. cbv iota.
    rewrite Hinf, Hpu. unfold of_decimal. cbn [Z.leb Z.compare]. 
    change (10 ^ 0) with 1. rewrite Z.mul_1_r. reflexivity.
  - rewrite Hnd. cbn [take_sign]. rewrite Hm, Hp, Hinf, Hpu.
    unfold of_decimal. cbn [Z.leb Z.compare].
    change (10 ^ 0) with 1. rewrite Z.mul_1_r. reflexivity.
Qed.

(** A number equal to the integer [v] is an integer, and denotes [v]. *)
Lemma eqb_integer (x : number) (v : Z) :
  eqb x (Finite v 0) = true ->
  isFinite x = true /\ isInteger x = true /\ integer_value x = v.
Proof.
  destruct x as [| |m e]; try discriminate.
  unfold eqb, isFinite, isInteger, integer_value. intros H. apply Z.eqb_eq in H.
  destruct (0 <=? e) eqn:He.
  - apply Z.leb_le in He. rewrite Z.min_r in H by lia.
    rewrite Z.sub_0_r in H. change (2 ^ (0 - 0)) with 1 in H. 
    split; [reflexivity|]. split; [reflexivity|]. lia.
  - apply Z.leb_gt in He. rewrite Z.min_l in H by lia.
    rewrite Z.sub_diag in H. change (2 ^ 0) with 1 in H. rewrite Z.mul_1_r in H.
    replace (0 - e) with (- e) in H by lia.
    assert (Hp : 0 < 2 ^ (- e)) by (apply Z.pow_pos_nonneg; lia).
    split; [reflexivity|]. subst m. split.
    + cbn [orb]. apply Z.eqb_eq. apply Z.mod_mul. lia.
    + apply Z.div_mul. lia.
Qed.

Lemma small_representable (v : Z) : 0 <= v <= 2 ^ 53 -> representable v.
Proof.
  intros H. exists v, 0. split; [exact H|]. split; [lia|]. change (2 ^ 0) with 1. lia.
Qed.

Lemma parseInteger_double (name raw : string) (neg : bool) (v : Z) :
  0 <= v <= 2 ^ 53 ->
  Number raw = to_double neg v 1 ->
  parseInteger name raw = Ok (if neg then - v else v).
Proof.
  intros Hv HN. unfold parseInteger. rewrite HN.
  assert (H : isFinite (to_double_abs v 1) = true
              /\ isInteger (to_double_abs v 1) = true
              /\ integer_value (to_double_abs v 1) = v).
  { destruct (Z.eq_dec v 0) as [->|Hz]; [repeat split; reflexivity|].
    apply eqb_integer. apply to_double_abs_representable.
    - apply small_representable. exact Hv.
    - split; [lia|]. apply Z.le_lt_trans with (2 ^ 53); [lia|reflexivity]. }
  destruct H as (Hf & Hi & Hval).
  unfold to_double. destruct neg.
  - destruct (to_double_abs v 1) as [| |m e]; try discriminate Hf.
    destruct (integer_value_negate m e Hi) as [Hi' Hv'].
    cbn [negate isFinite negb orb]. rewrite Hi'. cbn [negb]. rewrite Hv', Hval.
    reflexivity.
  - rewrite Hf, Hi. cbn [negb orb]. rewrite Hval. reflexivity.
Qed.

Lemma parseInteger_decimal_value (name : string) (n : Z) :
  Z.abs n <= 2 ^ 53 -> parseInteger name (Z_to_string n) = Ok n.
Proof.
  intros Hn. destruct n as [|p|p].
  - reflexivity.
  - destruct (Z_to_string_digits (Z.pos p)) as [Hd Hne]; [lia|].
    destruct (Z_to_string (Z.pos p)) as [|c r] eqn:Es; [contradiction|].
    rewrite (parseInteger_double name (String c r) false (Z.pos p)).
    + reflexivity.
    + lia.
    + pose proof (digits_value_to_string p) as Hv. rewrite Es in Hv.
      rewrite <- Hv. exact (Number_digits false c r Hd).
  - destruct (Z_to_string_digits (Z.pos p)) as [Hd Hne]; [lia|].
    assert (Es' : Z_to_string (Z.neg p) = "-" ++ Z_to_string (Z.pos p)) by reflexivity.
    rewrite Es'.
    destruct (Z_to_string (Z.pos p)) as [|c r] eqn:Es; [contradiction|].
    rewrite (parseInteger_double name _ true (Z.pos p)).
    + reflexivity.
    + lia.
    + pose proof (digits_value_to_string p) as Hv. rewrite Es in Hv.
      rewrite <- Hv. exact (Number_digits true c r Hd).
Qed.

(** X3.  [parseInteger] reads the decimal numeral of every integer of
    magnitude up to 2^53 back as that integer. *)
Theorem parseInteger_decimal (name : string) (n : Z) :
  Z.abs n <= 2 ^ 53 -> parseInteger name (Z_to_string n) = Ok n.
Proof. apply parseInteger_decimal_value. Qed.

Lemma parseInteger_decimal_witness :
  parseInteger "value" (Z_to_string (-9007199254740992)) = Ok (-9007199254740992).
Proof. apply parseInteger_decimal. vm_compute. discriminate. Defined.

(** X4.  [parseInteger] takes a raw text that is empty or white space only
    for the integer 0. *)
Theorem parseInteger_blank (name raw : string) :
  is_blank raw = true -> parseInteger name raw = Ok 0.
Proof.
  intros H. unfold parseInteger, Number. rewrite (trim_blank raw H). reflexivity.
Qed.

Lemma parseInteger_blank_witness : parseInteger "Retry-After" "  " = Ok 0.
Proof. apply parseInteger_blank. reflexivity. Defined.

(** X5.  Every integer that [parseInteger] returns is one that binary64
    holds: its magnitude is [a * 2^b] with [a] up to 2^53.  An integer text
    beyond that precision is read as the nearest such number, so
    9007199254740993 (2^53 + 1) is read as 9007199254740992. *)
Theorem parseInteger_binary64 (name raw : string) (v : Z) :
  parseInteger name raw = Ok v ->
  exists a b, 0 <= a <= 2 ^ 53 /\ 0 <= b /\ Z.abs v = a * 2 ^ b.
Proof. apply parseInteger_representable. Qed.

Lemma parseInteger_binary64_witness :
  parseInteger "value" "9007199254740993" = Ok 9007199254740992
  /\ exists a b, 0 <= a <= 2 ^ 53 /\ 0 <= b /\ Z.abs 9007199254740992 = a * 2 ^ b.
Proof.
  assert (H : parseInteger "value" "9007199254740993" = Ok 9007199254740992)
    by (vm_compute; reflexivity).
  split; [exact H|].
  exact (parseInteger_binary64 "value" "9007199254740993" 9007199254740992 H).
Defined.

End ParseProps.

(* ================================================================== *)
(** * Further properties: buildUrl *)
(* ================================================================== *)

Module EncodeProps.

Import JsNumber JsUrl Main ValidatorProps UrlProps.

(** What [encodeURIComponent] writes for one byte. *)
Definition encoded_byte (c : ascii) : string :=
  if negb (uri_unreserved c) then percent_byte c else String c EmptyString.

Lemma encodeURIComponent_cons (c : ascii) (r : string) :
  encodeURIComponent (String c r) = encoded_byte c ++ encodeURIComponent r.
Proof. reflexivity. Qed.

Lemma encoded_byte_plain (c : ascii) : all_chars url_plain (encoded_byte c) = true.
Proof. destruct c as [[] [] [] [] [] [] [] []]; vm_compute; reflexivity. Qed.

(** [encodeURIComponent] writes nothing that splits or ends a path. *)
Lemma encodeURIComponent_plain (s : string) :
  all_chars url_plain (encodeURIComponent s) = true.
Proof.
  induction s as [|c r IH]; [reflexivity|].
  rewrite encodeURIComponent_cons, all_chars_app, encoded_byte_plain, IH. reflexivity.
Qed.

(** What is written for a byte other than the dot begins no dot segment. *)
Lemma encoded_byte_not_dot (c : ascii) (t : string) :
  Ascii.eqb c "." = false ->
  is_single_dot (encoded_byte c ++ t) = false
  /\ is_double_dot (encoded_byte c ++ t) = false.
Proof.
  destruct c as [[] [] [] [] [] [] [] []]; intros H; vm_compute in H;
    try discriminate H; vm_compute; split; reflexivity.
Qed.

Lemma lowercase_empty (s : string) : lowercase s = "" -> s = "".
Proof. destruct s; [reflexivity|discriminate]. Qed.

Lemma encodeURIComponent_empty (s : string) : encodeURIComponent s = "" -> s = "".
Proof.
  destruct s as [|c r]; [reflexivity|].
  rewrite encodeURIComponent_cons. unfold encoded_byte.
  destruct (negb (uri_unreserved c)); discriminate.
Qed.

Lemma encodeURIComponent_single_dot (s : string) :
  is_single_dot (encodeURIComponent s) = true -> s = ".".
Proof.
  destruct s as [|c r]; [discriminate|].
  rewrite encodeURIComponent_cons.
  destruct (Ascii.eqb c ".") eqn:Ec.
  - apply Ascii.eqb_eq in Ec. subst c. intros H.
    change (encoded_byte "." ++ encodeURIComponent r)
      with (String "."%char (encodeURIComponent r)) in H.
    unfold is_single_dot in H. cbn [lowercase String.eqb] in H.
    change (to_lower ".") with "."%char in H.
    change (Ascii.eqb "." ".") with true in H.
    change (Ascii.eqb "." "%") with false in H. cbv iota in H.
    rewrite orb_false_r in H.
    destruct (lowercase (encodeURIComponent r)) eqn:El; [|discriminate H].
    apply lowercase_empty, encodeURIComponent_empty in El. subst r. reflexivity.
  - destruct (encoded_byte_not_dot c (encodeURIComponent r) Ec) as [H1 _].
    rewrite H1. discriminate.
Qed.

Lemma encodeURIComponent_double_dot (s : string) :
  is_double_dot (encodeURIComponent s) = true -> s = "..".
Proof.
  destruct s as [|c r]; [discriminate|].
  rewrite encodeURIComponent_cons.
  destruct (Ascii.eqb c ".") eqn:Ec.
  - apply Ascii.eqb_eq in Ec. subst c. intros H.
    change (encoded_byte "." ++ encodeURIComponent r)
      with (String "."%char (encodeURIComponent r)) in H.
    assert (Hs : is_single_dot (encodeURIComponent r) = true).
    { unfold is_double_dot in H. unfold is_single_dot.
      cbn [lowercase String.eqb] in H.
      change (to_lower ".") with "."%char in H.
      change (Ascii.eqb "." ".") with true in H.
      change (Ascii.eqb "." "%") with false in H. cbv iota in H.
      rewrite !orb_false_r in H. exact H. }
    apply encodeURIComponent_single_dot in Hs. subst r. reflexivity.
  - destruct (encoded_byte_not_dot c (encodeURIComponent r) Ec) as [_ H2].
    rewrite H2. discriminate.
Qed.

Lemma encodeURIComponent_not_dot (s : string) :
  s <> "." -> s <> ".." ->
  is_single_dot (encodeURIComponent s) = false
  /\ is_double_dot (encodeURIComponent s) = false.
Proof.
  intros H1 H2. split.
  - destruct (is_single_dot (encodeURIComponent s)) eqn:E; [|reflexivity].
    apply encodeURIComponent_single_dot in E. contradiction.
  - destruct (is_double_dot (encodeURIComponent s)) eqn:E; [|reflexivity].
    apply encodeURIComponent_double_dot in E. contradiction.
Qed.

(** The query [buildUrl] attaches to the path. *)
Definition attached_query (op : Operation) (initializer value : option Z) : string :=
  if String.eqb op "create" then
    match initializer with
    | Some i => "?initializer=" ++ urlencoded_string (to_string (of_Z i))
    | None => ""
    end
  else if String.eqb op "set" || String.eqb op "update" then
    match value with
    | Some v => "?value=" ++ urlencoded_string (to_string (of_Z v))
    | None => ""
    end
  else "".

(** X6.  [buildUrl] keeps the three segments of its path apart whatever the
    namespace and the key are: for an operation of plain characters (each of
    the eight is), and a namespace and a key other than the dot segments,
    the URL is the origin, the operation and the percent-encoded namespace
    and key, each after a slash, then the query of the operation. *)
Theorem buildUrl_encoded (op namespace key : string) (initializer value : option Z) :
  all_chars url_plain op = true ->
  is_single_dot op = false -> is_double_dot op = false ->
  namespace <> "." -> namespace <> ".." -> key <> "." -> key <> ".." ->
  buildUrl op namespace key initializer value
  = Ok (BASE_URL ++ "/" ++ op ++ "/" ++ encodeURIComponent namespace
        ++ "/" ++ encodeURIComponent key ++ attached_query op initializer value).
Proof.
  intros Hop Hop1 Hop2 Hn1 Hn2 Hk1 Hk2. unfold buildUrl.
  destruct (encodeURIComponent_not_dot namespace Hn1 Hn2) as [Hns1 Hns2].
  destruct (encodeURIComponent_not_dot key Hk1 Hk2) as [Hkey1 Hkey2].
  rewrite parse_three_segments;
    try assumption; try apply encodeURIComponent_plain; try reflexivity.
  2:{ eexists _, _. reflexivity. }
  cbn [rbind]. change (normalizeBaseUrl BASE_URL) with BASE_URL.
  unfold attached_query.
  destruct (String.eqb op "create") eqn:Ecreate.
  - assert (Eset : String.eqb op "set" || String.eqb op "update" = false).
    { apply String.eqb_eq in Ecreate. subst op. reflexivity. }
    rewrite Eset.
    destruct initializer as [i|].
    + rewrite (searchParams_set_fresh _ _ _ "initializer" _ "i" "nitializer" eq_refl).
      destruct value; rewrite href_three_segments; reflexivity.
    + destruct value; rewrite href_three_segments, !append_nil_r; reflexivity.
  - destruct (String.eqb op "set" || String.eqb op "update") eqn:Eset.
    + destruct initializer, value;
        rewrite ?(searchParams_set_fresh _ _ _ "value" _ "v" "alue" eq_refl);
        rewrite href_three_segments, ?append_nil_r; reflexivity.
    + destruct initializer, value; rewrite href_three_segments, !append_nil_r;
        reflexivity.
Qed.

Lemma buildUrl_encoded_witness :
  buildUrl "get" "a/b?c" "50% off#1" None None
  = Ok "https://abacus.jasoncameron.dev/get/a%2Fb%3Fc/50%25%20off%231".
Proof.
  apply (buildUrl_encoded "get" "a/b?c" "50% off#1" None None);
    try reflexivity; discriminate.
Defined.

Lemma push_segment_last (buf : string) (p : list string) :
  push_segment buf false p <> [].
Proof.
  unfold push_segment.
  destruct (is_double_dot buf); [|destruct (is_single_dot buf)];
    intros H; apply app_eq_nil in H; destruct H as [_ H]; discriminate H.
Qed.

(** The path state ends on a URL of the origin it started from, with at
    least one segment. *)
Lemma path_state_shape (o : string) (s : string) :
  forall (buf : string) (p : list string),
    origin (path_state o s buf p) = o /\ path (path_state o s buf p) <> [].
Proof.
  induction s as [|c r IH]; intros buf p; cbn [path_state].
  - split; [reflexivity|apply push_segment_last].
  - destruct (is_char 47 c || is_char 92 c); [apply IH|].
    destruct (is_char 63 c).
    { destruct (query_state r ""). split; [reflexivity|apply push_segment_last]. }
    destruct (is_char 35 c); [split; [reflexivity|apply push_segment_last]|].
    apply IH.
Qed.

Lemma parse_under_origin_shape (o rest : string) :
  all_chars visible o = true -> (exists x r, o = String x r) ->
  exists u, parse o (o ++ "/" ++ rest) = Ok u /\ origin u = o /\ path u <> [].
Proof.
  intros Ho (x & r & Hx). unfold parse.
  assert (Hlead : strip_leading (o ++ "/" ++ rest) = o ++ "/" ++ rest).
  { subst o. cbn [append all_chars] in *. apply andb_true_iff in Ho.
    destruct Ho as [Hv _]. cbn [strip_leading].
    replace (is_c0_or_space x) with false; [reflexivity|].
    symmetry. unfold visible in Hv. apply Z.ltb_lt in Hv. apply Z.leb_gt. exact Hv. }
  rewrite Hlead.
  replace (o ++ "/" ++ rest) with ((o ++ "/") ++ rest) by (now rewrite append_assoc).
  assert (Hos : all_chars visible (o ++ "/") = true).
  { rewrite all_chars_app, Ho. reflexivity. }
  rewrite (strip_trailing_app_visible _ _ Hos), (remove_tab_newline_app_visible _ _ Hos).
  rewrite append_assoc, strip_prefix_app. cbn [append ends_authority].
  change (one_of [47; 92; 63; 35] "/") with true. cbv iota.
  eexists. split; [reflexivity|].
  unfold path_start_state. change (is_char 47 "/" || is_char 92 "/") with true.
  cbv iota. apply path_state_shape.
Qed.

Lemma href_under_origin (u : URL) :
  path u <> [] -> exists rest, href u = origin u ++ "/" ++ rest.
Proof.
  unfold href. destruct (path u) as [|seg p]; [contradiction|]. intros _.
  assert (H : exists t, concat "" (map (fun seg => "/" ++ seg) (seg :: p)) = "/" ++ t).
  { cbn [map concat]. destruct (map (fun seg => "/" ++ seg) p);
      cbn [append]; eexists; reflexivity. }
  destruct H as [t ->]. eexists. cbn [append]. reflexivity.
Qed.

(** X7.  [buildUrl] does not throw, and the URL it returns lies under
    [BASE_URL], whatever the operation, the namespace and the key are
    (well-formed text, as every string of this embedding is: none holds a
    lone surrogate, on which [encodeURIComponent] would throw). *)
Theorem buildUrl_under_base (op namespace key : string) (initializer value : option Z) :
  exists rest,
    buildUrl op namespace key initializer value = Ok (BASE_URL ++ "/" ++ rest).
Proof.
  unfold buildUrl. cbv zeta.
  change (normalizeBaseUrl BASE_URL) with BASE_URL.
  destruct (parse_under_origin_shape BASE_URL
              (op ++ "/" ++ encodeURIComponent namespace ++ "/"
                  ++ encodeURIComponent key))
    as (u & Hu & Ho & Hp); [reflexivity|eexists _, _; reflexivity|].
  rewrite Hu. cbn [rbind].
  match goal with
  | |- exists rest, Ok (href ?v) = _ =>
    assert (Hv : origin v = BASE_URL /\ path v <> [])
  end.
  { destruct initializer as [i|]; [destruct (String.eqb op "create")|];
      (destruct value as [v|]; [destruct (String.eqb op "set" || String.eqb op "update")|]);
      cbn [searchParams_set origin path]; split; assumption. }
  destruct Hv as [Hvo Hvp].
  destruct (href_under_origin _ Hvp) as [rest Hrest].
  exists rest. rewrite Hrest, Hvo. reflexivity.
Qed.

End EncodeProps.

(* ================================================================== *)
(** * Further properties: normalizeBaseUrl and requestWithRetries *)
(* ================================================================== *)

Module BaseUrlProps.

Import Main.

Lemma length_snoc (t : string) (c : ascii) :
  String.length (t ++ String c "") = S (String.length t).
Proof. induction t as [|x t IH]; cbn [append String.length]; [|rewrite IH]; reflexivity. Qed.

Lemma substring_last (t : string) (c : ascii) :
  substring (String.length t) 1 (t ++ String c "") = String c "".
Proof. induction t as [|x t IH]; [reflexivity|exact IH]. Qed.

Lemma substring_init (t : string) (c : ascii) :
  substring 0 (String.length t) (t ++ String c "") = t.
Proof.
  induction t as [|x t IH]; [reflexivity|].
  cbn [append String.length substring]. rewrite IH. reflexivity.
Qed.

(** X8.  [normalizeBaseUrl] drops the last character of a URL when it is a
    slash, and only that one; any other URL is returned as it is. *)
Theorem normalizeBaseUrl_last (t : string) (c : ascii) :
  normalizeBaseUrl "" = ""
  /\ normalizeBaseUrl (t ++ String c "")
     = if Ascii.eqb c "/" then t else t ++ String c "".
Proof.
  split; [reflexivity|].
  unfold normalizeBaseUrl, ends_with. rewrite length_snoc.
  cbn [String.length Nat.leb Nat.sub]. rewrite Nat.sub_0_r, substring_last.
  cbn [String.eqb andb].
  destruct (Ascii.eqb c "/"); [apply substring_init|reflexivity].
Qed.

End BaseUrlProps.

Module ExchangeProps.

Import JsNumber Host Main RetryProps ParseProps.

(** The events of one call: attempts with the request given, and a wait
    between every two of them. *)
Fixpoint exchange (url : string) (method : HttpMethod) (hdrs : list (string * string))
  (waits : list Z) : list Event :=
  match waits with
  | [] => [Fetch url method hdrs]
  | ms :: r => Fetch url method hdrs :: Sleep ms :: exchange url method hdrs r
  end.


Lemma retry_wait_nonneg (res : Response) (backoffMs : Z) :
  0 <= backoffMs -> 0 <= retry_wait res backoffMs.
Proof.
  intros H. unfold retry_wait.
  destruct (headers_get res "Retry-After") as [[|c r]|]; try exact H.
  destruct (parseInteger "Retry-After" (String c r)); [lia|exact H].
Qed.

Section Call.

Variable h : host.
Variable url : string.
Variable method : HttpMethod.
Variable hdrs : list (string * string).

Lemma retry_loop_exchange :
  forall (fuel : nat) (attempt backoffMs : Z) (w : World) r w',
    0 < backoffMs ->
    retry_loop fuel h url method hdrs attempt backoffMs w = Some (r, w') ->
    exists waits,
      events w' = (events w ++ exchange url method hdrs waits)%list
      /\ Forall (fun ms => 0 <= ms) waits
      /\ fetches w' = (fetches w + S (List.length waits))%nat.
Proof.
  induction fuel as [|f IH]; intros attempt backoffMs w r w' Hb Hrun.
  - discriminate Hrun.
  - rewrite retry_loop_S in Hrun. cbv zeta in Hrun.
    pose proof (transition_cases (attempt + 1) backoffMs (network h (fetches w))) as Ht.
    destruct (transition (attempt + 1) backoffMs (network h (fetches w)))
      as [[ms|] [[res|b]|e]]; cbn [fst snd waited] in Hrun; try contradiction.
    + destruct Ht as (_ & Hb' & _ & Hms).
      apply IH in Hrun; [|lia].
      destruct Hrun as (waits & Hev & Hall & Hn). cbn [fetches events] in *.
      exists (ms :: waits). split.
      { rewrite Hev, <- app_assoc. reflexivity. }
      split.
      { constructor; [|exact Hall].
        destruct Hms as [->|(res & _ & _ & ->)]; [lia|].
        apply retry_wait_nonneg. lia. }
      cbn [List.length]. lia.
    + injection Hrun as <- <-. exists []. cbn [fetches events exchange List.length].
      split; [reflexivity|]. split; [constructor|lia].
    + injection Hrun as <- <-. exists []. cbn [fetches events exchange List.length].
      split; [reflexivity|]. split; [constructor|lia].
Qed.

(** A rejection is thrown from the last attempt only. *)
Lemma retry_loop_rejected :
  forall (fuel : nat) (attempt backoffMs : Z) (w : World) e w',
    0 <= attempt < MAX_ATTEMPTS ->
    retry_loop fuel h url method hdrs attempt backoffMs w = Some (Err e, w') ->
    fetches w' = (fetches w + Z.to_nat (MAX_ATTEMPTS - attempt))%nat.
Proof.
  induction fuel as [|f IH]; intros attempt backoffMs w e w' Ha Hrun.
  - discriminate Hrun.
  - rewrite retry_loop_S in Hrun. cbv zeta in Hrun.
    pose proof (transition_cases (attempt + 1) backoffMs (network h (fetches w))) as Ht.
    destruct (transition (attempt + 1) backoffMs (network h (fetches w)))
      as [[ms|] [[res|b]|e0]]; cbn [fst snd waited] in Hrun; try contradiction.
    + destruct Ht as (Hlt & _).
      apply IH in Hrun; [|lia]. cbn [fetches] in Hrun. rewrite Hrun.
      unfold MAX_ATTEMPTS in *. lia.
    + discriminate Hrun.
    + destruct Ht as (_ & Hge). injection Hrun as _ <-. cbn [fetches].
      unfold MAX_ATTEMPTS in *. lia.
Qed.

(** X9.  A response that is neither a 429 nor a 5xx is returned from the
    first attempt that gets it: [requestWithRetries] makes this one call of
    [fetch] and no wait. *)
Theorem other_response_not_retried (w : World) (res : Response) :
  network h (fetches w) = Resolved res ->
  status res <> 429 -> ~ 500 <= status res <= 599 ->
  requestWithRetries h url method hdrs w
  = Some (Ok res, mkWorld (S (fetches w)) (events w ++ [Fetch url method hdrs])).
Proof.
  intros Hnet H429 H5xx.
  unfold requestWithRetries, requestWithRetries_fuel.
  change (Z.to_nat MAX_ATTEMPTS) with 5%nat.
  rewrite retry_loop_S, Hnet, transition_other; [reflexivity|].
  unfold qualifying. apply orb_false_iff. split.
  - apply Z.eqb_neq. exact H429.
  - apply andb_false_iff.
    destruct (500 <=? status res) eqn:E1; [right|now left].
    apply Z.leb_le in E1. apply Z.leb_gt. lia.
Qed.

(** X10.  The events of a call of [requestWithRetries] are attempts that all
    carry the request given, with exactly one wait between every two of
    them and none after the last; there are at most four waits, and none is
    negative. *)
Theorem attempts_alternate_with_waits (w : World) :
  exists r w' waits,
    requestWithRetries h url method hdrs w = Some (r, w')
    /\ events w' = (events w ++ exchange url method hdrs waits)%list
    /\ (List.length waits <= 4)%nat
    /\ Forall (fun ms => 0 <= ms) waits.
Proof.
  destruct (retry_loop_run h url method hdrs 5 0 500 w)
    as (r & w' & Hrun & Hn & _).
  { unfold MAX_ATTEMPTS. lia. } { reflexivity. }
  change (Z.to_nat (MAX_ATTEMPTS - 0)) with 5%nat in Hn.
  destruct (retry_loop_exchange 5 0 500 w r w') as (waits & Hev & Hall & Hf);
    [lia|exact Hrun|].
  exists r, w', waits. split; [exact Hrun|]. split; [exact Hev|].
  split; [lia|exact Hall].
Qed.


(** X12.  A [Retry-After] header that is the decimal numeral of an integer
    [n] from 1 to 2^31 - 1 makes the pass set its timer to [n] milliseconds,
    a delay that the timer takes as it is, so that the pass waits that long:
    the cap of 8000 is on the stored backoff only, not on the wait that a
    header asks for. *)
Theorem retry_after_not_capped (attempt backoffMs : Z) (w : World) (res : Response)
  (n : Z) :
  network h (fetches w) = Resolved res ->
  status res = 429 -> attempt < MAX_ATTEMPTS ->
  headers_get res "Retry-After" = Some (Z_to_string n) ->
  1 <= n <= 2147483647 ->
  attempt_once h url method hdrs attempt backoffMs w
  = Some (Ok (Continue (Z.min (backoffMs * 2) 8000)),
          mkWorld (S (fetches w)) (events w ++ [Fetch url method hdrs; Sleep n]))
  /\ timer_delay n = n.
Proof.
  intros Hnet H429 Hlt Hra Hn. split.
  - rewrite attempt_once_eq, Hnet. unfold transition.
    rewrite H429. apply Z.ltb_lt in Hlt. rewrite Hlt. cbn [andb fst snd waited].
    unfold retry_wait. rewrite Hra.
    destruct (NumberProps.Z_to_string_digits n) as [_ Hne]; [lia|].
    destruct (Z_to_string n) as [|c r] eqn:Es; [contradiction|].
    rewrite <- Es, (parseInteger_decimal_value "Retry-After" n) by lia.
    rewrite Z.max_r by lia. reflexivity.
  - unfold timer_delay.
    replace (1 <=? n) with true by (symmetry; apply Z.leb_le; lia).
    replace (n <=? 2147483647) with true by (symmetry; apply Z.leb_le; lia).
    reflexivity.
Qed.

End Call.

Lemma other_response_not_retried_witness :
  requestWithRetries (always (mkResponse 404 [] "missing")) "u" GET [] start
  = Some (Ok (mkResponse 404 [] "missing"), mkWorld 1 [Fetch "u" GET []]).
Proof.
  apply (other_response_not_retried (always (mkResponse 404 [] "missing")) "u" GET []
           start (mkResponse 404 [] "missing") eq_refl); cbn [status mkResponse]; lia.
Defined.


Lemma retry_after_not_capped_witness :
  attempt_once (always (retry_after "3600000")) "u" GET [] 1 500 start
  = Some (Ok (Continue 1000), mkWorld 1 [Fetch "u" GET []; Sleep 3600000])
  /\ timer_delay 3600000 = 3600000.
Proof.
  apply (retry_after_not_capped (always (retry_after "3600000")) "u" GET [] 1 500 start
           (retry_after "3600000") 3600000 eq_refl eq_refl eq_refl eq_refl).
  lia.
Defined.

End ExchangeProps.

(* ================================================================== *)
(** * Further properties: run *)
(* ================================================================== *)

Module ActionProps.

Import Validator JsNumber Host Main ValidatorProps RetryProps UrlProps RunProps.
Import TrimProps ParseProps ExchangeProps.
Local Open Scope action_scope.

(** ** What a run does with the payload of a response that is ok *)

(** A statement of [run] after the check of the status:
    [setOutputIfPresent(name, payload.name)], or the marking of a returned
    admin key. *)
Inductive Action : Type :=
| Output (name : string)
| MarkSecret.

(** The statements of an operation, in their order. *)
Definition actions (operation : Operation) : list Action :=
  [Output "value"]
  ++ (if String.eqb operation "create"
      then [Output "namespace"; Output "key"; Output "admin_key"; MarkSecret]
      else [])
  ++ (if String.eqb operation "info"
      then [Output "exists"; Output "expires_in"; Output "expires_str";
            Output "full_key"; Output "is_genuine"]
      else [])
  ++ (if String.eqb operation "delete"
      then [Output "status"; Output "message"]
      else []).

Definition after (e : Event) (p : list Event * Result unit) : list Event * Result unit :=
  (e :: fst p, snd p).

(** What the statements do on a payload that is neither [null] nor
    [undefined]: the events up to the end, or up to the first field of which
    [String] throws, and the error thrown there. *)
Fixpoint perform (payload : Json.value) (l : list Action) : list Event * Result unit :=
  match l with
  | [] => ([], Ok tt)
  | Output name :: r =>
    let v := Json.get_optional payload name in
    if Json.is_nullish v then perform payload r
    else
      match Json.to_String v with
      | Ok s => after (SetOutput name s) (perform payload r)
      | Err e => ([], Err e)
      end
  | MarkSecret :: r =>
    match Json.get_optional payload "admin_key" with
    | Json.Str s => after (SetSecret s) (perform payload r)
    | _ => perform payload r
    end
  end.

(** What [run().catch] reports of a result. *)
Definition reported (r : Result unit) : list Event :=
  match r with
  | Ok _ => []
  | Err e => [SetFailed (message e)]
  end.

Lemma perform_app (payload : Json.value) (l1 l2 : list Action) :
  perform payload (l1 ++ l2)
  = match snd (perform payload l1) with
    | Ok _ => ((fst (perform payload l1) ++ fst (perform payload l2))%list,
               snd (perform payload l2))
    | Err e => (fst (perform payload l1), Err e)
    end.
Proof.
  induction l1 as [|a l1 IH]; cbn [app perform].
  - cbn [fst snd app]. destruct (perform payload l2); reflexivity.
  - destruct a as [name|].
    + cbv zeta. destruct (Json.is_nullish (Json.get_optional payload name)); [exact IH|].
      destruct (Json.to_String (Json.get_optional payload name)); [|reflexivity].
      unfold after. cbn [fst snd]. rewrite IH.
      destruct (snd (perform payload l1)); reflexivity.
    + destruct (Json.get_optional payload "admin_key"); try exact IH.
      unfold after. cbn [fst snd]. rewrite IH.
      destruct (snd (perform payload l1)); reflexivity.
Qed.

(** A computation that does what the statements [l] do. *)
Definition performs (payload : Json.value) (c : M unit) (l : list Action) : Prop :=
  forall w,
    c w = Some (snd (perform payload l),
                mkWorld (fetches w) (events w ++ fst (perform payload l))).

Lemma same_world (w : World) : w = mkWorld (fetches w) (events w ++ []).
Proof. destruct w. cbn [fetches events]. rewrite app_nil_r. reflexivity. Qed.

Lemma performs_ret (payload : Json.value) : performs payload (ret tt) [].
Proof. intros w. unfold ret. cbn [perform fst snd]. rewrite <- same_world. reflexivity. Qed.

Lemma performs_bind (payload : Json.value) (c k : M unit) (l1 l2 : list Action) :
  performs payload c l1 -> performs payload k l2 ->
  performs payload (c ;;; k) (l1 ++ l2).
Proof.
  intros Hc Hk w. unfold bind. rewrite Hc, perform_app.
  destruct (snd (perform payload l1)) as [[]|e]; [|reflexivity].
  rewrite Hk. cbn [fetches events fst snd]. rewrite app_assoc. reflexivity.
Qed.

Lemma performs_cons (payload : Json.value) (c k : M unit) (a : Action)
  (l : list Action) :
  performs payload c [a] -> performs payload k l ->
  performs payload (c ;;; k) (a :: l).
Proof. intros Hc Hk. exact (performs_bind payload c k [a] l Hc Hk). Qed.

Lemma performs_output (payload : Json.value) (name : string) :
  Json.is_nullish payload = false ->
  performs payload (output_field payload name) [Output name].
Proof.
  intros Hp. unfold output_field, setOutputIfPresent.
  assert (Hget : Json.get payload name = Ok (Json.get_optional payload name)).
  { destruct payload; try reflexivity; discriminate Hp. }
  intros w. rewrite bind_lift, Hget. cbn [perform]. cbv zeta.
  destruct (Json.is_nullish (Json.get_optional payload name)).
  - cbn [fst snd]. unfold ret. rewrite <- same_world. reflexivity.
  - rewrite bind_lift.
    destruct (Json.to_String (Json.get_optional payload name)) as [s|e].
    + reflexivity.
    + cbn [fst snd]. rewrite <- same_world. reflexivity.
Qed.

Lemma performs_secret (payload : Json.value) :
  performs payload
           match Json.get_optional payload "admin_key" with
           | Json.Str s => setSecret s
           | _ => ret tt
           end
           [MarkSecret].
Proof.
  intros w. cbn [perform].
  destruct (Json.get_optional payload "admin_key");
    try (cbn [fst snd]; unfold ret; rewrite <- same_world; reflexivity).
  reflexivity.
Qed.

(** The statements of [run] after a response that is ok do what
    [perform] says of the operation. *)
Lemma project_performs (operation : Operation) (payload : Json.value) :
  Json.is_nullish payload = false ->
  performs payload (project operation payload) (actions operation).
Proof.
  intros Hp. unfold project, actions.
  repeat first
    [ apply performs_output; exact Hp
    | apply performs_secret
    | apply performs_ret
    | apply performs_cons
    | apply performs_bind
    | match goal with
      | |- performs _ (if ?b then _ else _) _ => destruct b
      end ].
Qed.

Lemma project_null (operation : Operation) (payload : Json.value) (w : World) :
  Json.is_nullish payload = true ->
  exists e, Json.get payload "value" = Err e
            /\ project operation payload w = Some (Err e, w).
Proof.
  intros Hp. unfold project, output_field.
  destruct payload; try discriminate Hp; eexists; split; reflexivity.
Qed.

(** What a run does after the exchange has ended with the result [r]. *)
Definition conclusion (h : host) (r : Result Response) : list Event :=
  match r with
  | Err e => [SetFailed (message e)]
  | Ok res =>
    match text res with
    | Err e => [SetFailed (message e)]
    | Ok t =>
      if ok res then
        match Json.get (decode t) "value" with
        | Ok _ =>
          (fst (perform (decode t) (actions (operation_of h)))
             ++ reported (snd (perform (decode t) (actions (operation_of h)))))%list
        | Err e => [SetFailed (message e)]
        end
      else [SetFailed (failure_text res ++ " (operation=" ++ operation_of h ++ ")")]
    end
  end.

(** The events of every run, in full. *)
Lemma main_trace (h : host) :
  match validated h with
  | Err e => main h = Some (mkWorld 0 (secrets h ++ [SetFailed (message e)]))
  | Ok (url, method, hdrs) =>
    exists waits r,
      main h = Some (mkWorld (S (List.length waits))
                             (secrets h ++ exchange url method hdrs waits
                                ++ conclusion h r))
      /\ (List.length waits <= 4)%nat
      /\ Forall (fun ms => 0 <= ms) waits
      /\ match network h (List.length waits) with
         | Rejected e => r = Err e /\ List.length waits = 4%nat
         | Resolved res => r = Ok res
         end
  end.
Proof.
  pose proof (main_run h) as H.
  destruct (validated h) as [[[url method] hdrs]|e]; [|exact H].
  destruct H as (r & w1 & evs & w & Hreq & _ & _ & Hn & _ & Hlast & Hmain & _ & Hend).
  destruct (retry_loop_exchange h url method hdrs 5 0 500 (mkWorld 0 (secrets h)) r w1)
    as (waits & Hev & Hall & Hf); [lia|exact Hreq|].
  cbn [fetches events Nat.add] in Hev, Hf.
  rewrite Hf in Hlast, Hn. cbn [Nat.sub] in Hlast. rewrite Nat.sub_0_r in Hlast.
  assert (Hlast' : match network h (List.length waits) with
                   | Rejected e => r = Err e /\ List.length waits = 4%nat
                   | Resolved res => r = Ok res
                   end).
  { destruct (network h (List.length waits)) as [e|res]; [|exact Hlast].
    split; [exact Hlast|]. subst r.
    pose proof (retry_loop_rejected h url method hdrs 5 0 500 _ _ _
                  ltac:(unfold MAX_ATTEMPTS; lia) Hreq) as Hfive.
    cbn [fetches Nat.add] in Hfive. rewrite Hf in Hfive.
    change (Z.to_nat (MAX_ATTEMPTS - 0)) with 5%nat in Hfive. lia. }
  exists waits, r. split; [|split; [lia|split; [exact Hall|exact Hlast']]].
  rewrite Hmain. f_equal. unfold ending in Hend. unfold conclusion.
  destruct r as [res|e].
  - destruct (text res) as [t|e].
    + destruct (ok res).
      * destruct Hend as (r2 & out & Hp & _ & ->).
        destruct (Json.is_nullish (decode t)) eqn:Hnull.
        -- destruct (project_null (operation_of h) _ w1 Hnull) as (e & Hget & Hp').
           rewrite Hp' in Hp. injection Hp as <- Hw.
           rewrite Hget. unfold emit. cbn [fetches events].
           assert (Hout : out = []).
           { destruct w1 as [n1 ev1]. cbn [fetches events] in Hw.
             injection Hw as Hw. rewrite <- (app_nil_r ev1) in Hw at 1.
             apply app_inv_head in Hw. congruence. }
           rewrite Hout, app_nil_r, Hf, Hev, <- app_assoc. reflexivity.
        -- pose proof (project_performs (operation_of h) _ Hnull w1) as Hp'.
           assert (Hget : Json.get (decode t) "value"
                          = Ok (Json.get_optional (decode t) "value")).
           { destruct (decode t); try reflexivity; discriminate Hnull. }
           rewrite Hget.
           remember (perform (decode t) (actions (operation_of h))) as P eqn:HP.
           rewrite Hp' in Hp. injection Hp as <- Hout.
           apply app_inv_head in Hout. subst out. rewrite Hf, Hev.
           destruct (snd P); unfold emit; cbn [reported fetches events];
             rewrite <- ?app_assoc, ?app_nil_r; reflexivity.
      * rewrite Hend. unfold emit. rewrite Hf, Hev, <- app_assoc. reflexivity.
    + rewrite Hend. unfold emit. rewrite Hf, Hev, <- app_assoc. reflexivity.
  - rewrite Hend. unfold emit. rewrite Hf, Hev, <- app_assoc. reflexivity.
Qed.

(** ** Consequences for every run *)

Definition is_failure (e : Event) : bool :=
  match e with
  | SetFailed _ => true
  | _ => false
  end.

Definition is_output (e : Event) : bool :=
  match e with
  | SetOutput _ _ => true
  | _ => false
  end.

(** Neither an output nor a report of failure. *)
Definition silent (e : Event) : Prop := is_failure e = false /\ is_output e = false.

Lemma silent_secrets (h : host) : Forall silent (secrets h).
Proof.
  destruct (secrets_cases h) as [-> | ->]; repeat constructor.
Qed.

Lemma silent_exchange (url : string) (method : HttpMethod)
  (hdrs : list (string * string)) (waits : list Z) :
  Forall silent (exchange url method hdrs waits).
Proof.
  induction waits as [|ms r IH]; cbn [exchange]; repeat constructor. exact IH.
Qed.

(** The names of the outputs of an operation. *)
Definition output_names (operation : Operation) : list string :=
  ["value"]
  ++ (if String.eqb operation "create" then ["namespace"; "key"; "admin_key"] else [])
  ++ (if String.eqb operation "info"
      then ["exists"; "expires_in"; "expires_str"; "full_key"; "is_genuine"] else [])
  ++ (if String.eqb operation "delete" then ["status"; "message"] else []).

Lemma actions_names (operation : Operation) (name : string) :
  In (Output name) (actions operation) -> In name (output_names operation).
Proof.
  unfold actions, output_names.
  destruct (String.eqb operation "create"), (String.eqb operation "info"),
    (String.eqb operation "delete"); cbn [app In]; intros H;
    repeat match goal with
           | H : _ \/ _ |- _ => destruct H as [H|H]
           end;
    try discriminate H; try contradiction; injection H as <-; tauto.
Qed.

(** An output among the events of [perform] is [String] of the field of
    its name, for a statement of the list. *)
Lemma perform_outputs (payload : Json.value) (n v : string) (l : list Action) :
  In (SetOutput n v) (fst (perform payload l)) ->
  In (Output n) l
  /\ Json.to_String (Json.get_optional payload n) = Ok v
  /\ Json.is_nullish (Json.get_optional payload n) = false.
Proof.
  induction l as [|a l IH]; cbn [perform fst]; [intros []|].
  destruct a as [name|].
  - cbv zeta. destruct (Json.is_nullish (Json.get_optional payload name)) eqn:Hn.
    + intros H. destruct (IH H) as (H1 & H2 & H3). split; [now right|]. auto.
    + destruct (Json.to_String (Json.get_optional payload name)) as [s|e] eqn:Hs;
        [|intros []].
      unfold after. cbn [fst]. intros [H|H].
      * injection H as <- <-. split; [now left|]. auto.
      * destruct (IH H) as (H1 & H2 & H3). split; [now right|]. auto.
  - assert (Hrec : In (SetOutput n v) (fst (perform payload l)) ->
                   In (Output n) (MarkSecret :: l)
                   /\ Json.to_String (Json.get_optional payload n) = Ok v
                   /\ Json.is_nullish (Json.get_optional payload n) = false).
    { intros H. destruct (IH H) as (H1 & H2 & H3). split; [now right|]. auto. }
    destruct (Json.get_optional payload "admin_key"); try exact Hrec.
    unfold after. cbn [fst]. intros [H|H]; [discriminate H|exact (Hrec H)].
Qed.

Lemma perform_local (payload : Json.value) (l : list Action) :
  Forall local_event (fst (perform payload l)).
Proof.
  induction l as [|a l IH]; cbn [perform fst]; [constructor|].
  destruct a as [name|].
  - cbv zeta. destruct (Json.is_nullish (Json.get_optional payload name)); [exact IH|].
    destruct (Json.to_String (Json.get_optional payload name)); [|constructor].
    unfold after. cbn [fst]. constructor; [exact I|exact IH].
  - destruct (Json.get_optional payload "admin_key"); try exact IH.
    unfold after. cbn [fst]. constructor; [exact I|exact IH].
Qed.

(** The statements end without an error when [String] throws on none of
    their fields. *)
Lemma perform_ok (payload : Json.value) (l : list Action) :
  (forall name, In (Output name) l ->
                exists s, Json.to_String (Json.get_optional payload name) = Ok s) ->
  snd (perform payload l) = Ok tt.
Proof.
  induction l as [|a l IH]; intros H; cbn [perform snd]; [reflexivity|].
  assert (Hl : snd (perform payload l) = Ok tt).
  { apply IH. intros name Hin. apply H. now right. }
  destruct a as [name|].
  - cbv zeta. destruct (Json.is_nullish (Json.get_optional payload name)); [exact Hl|].
    destruct (H name (or_introl eq_refl)) as [s ->]. exact Hl.
  - destruct (Json.get_optional payload "admin_key"); exact Hl.
Qed.

Lemma local_not_failure (l : list Event) :
  Forall local_event l -> Forall (fun e => is_failure e = false) l.
Proof.
  apply Forall_impl. intros [] H; try reflexivity; destruct H.
Qed.

Lemma silent_not_failure (l : list Event) :
  Forall silent l -> Forall (fun e => is_failure e = false) l.
Proof. apply Forall_impl. intros e [H _]. exact H. Qed.

Lemma no_failure (l pre post : list Event) (msg : string) :
  Forall (fun e => is_failure e = false) l ->
  l <> (pre ++ SetFailed msg :: post)%list.
Proof.
  intros Hall ->. rewrite Forall_forall in Hall.
  specialize (Hall (SetFailed msg)). cbn in Hall.
  assert (true = false) by (apply Hall; apply in_elt). discriminate.
Qed.

(** A failure reported after events that report none is the last event. *)
Lemma failure_last (l : list Event) (m : string) :
  Forall (fun e => is_failure e = false) l ->
  forall pre msg post,
    (l ++ [SetFailed m])%list = (pre ++ SetFailed msg :: post)%list ->
    pre = l /\ msg = m /\ post = [].
Proof.
  induction l as [|a l IH]; intros Hall pre msg post Heq.
  - destruct pre as [|x pre]; cbn [app] in Heq.
    + injection Heq as <- <-. auto.
    + injection Heq as _ Heq. destruct pre; discriminate Heq.
  - inversion Hall as [|? ? Ha Hl]; subst.
    destruct pre as [|x pre]; cbn [app] in Heq.
    + injection Heq as -> _. discriminate Ha.
    + injection Heq as <- Heq. destruct (IH Hl _ _ _ Heq) as (-> & -> & ->). auto.
Qed.

Lemma silent_before_conclusion (h : host) (url : string) (method : HttpMethod)
  (hdrs : list (string * string)) (waits : list Z) :
  Forall silent (secrets h ++ exchange url method hdrs waits).
Proof. apply Forall_app. split; [apply silent_secrets|apply silent_exchange]. Qed.

(** The end of a run: events that report no failure, then at most one
    report of failure. *)
Lemma conclusion_shape (h : host) (r : Result Response) :
  exists evs last,
    conclusion h r = (evs ++ last)%list
    /\ Forall local_event evs
    /\ (last = [] \/ exists m, last = [SetFailed m]).
Proof.
  assert (Hfail : forall m, exists evs last,
               [SetFailed m] = (evs ++ last)%list
               /\ Forall local_event evs
               /\ (last = [] \/ exists m', last = [SetFailed m'])).
  { intros m. exists [], [SetFailed m]. split; [reflexivity|].
    split; [constructor|]. right. eexists. reflexivity. }
  unfold conclusion. destruct r as [res|e]; [|apply Hfail].
  destruct (text res) as [t|e]; [|apply Hfail].
  destruct (ok res); [|apply Hfail].
  destruct (Json.get (decode t) "value"); [|apply Hfail].
  eexists _, _. split; [reflexivity|]. split; [apply perform_local|].
  unfold reported. destruct (snd (perform (decode t) (actions (operation_of h))));
    [now left|right; eexists; reflexivity].
Qed.

(** X13.  Every run ends, after at most five calls of [fetch].  It reports
    failure at most once, and then as the last thing it does: after a
    failure is reported nothing is set, marked, requested or waited for. *)
Theorem failure_reported_once_and_last (h : host) :
  exists w,
    main h = Some w /\ (fetches w <= 5)%nat
    /\ forall pre msg post,
         events w = (pre ++ SetFailed msg :: post)%list ->
         post = [] /\ Forall (fun e => is_failure e = false) pre.
Proof.
  pose proof (main_trace h) as H.
  destruct (validated h) as [[[url method] hdrs]|e].
  - destruct H as (waits & r & Hmain & Hlen & _ & _).
    eexists. split; [exact Hmain|]. cbn [fetches events]. split; [lia|].
    intros pre msg post Heq.
    pose proof (silent_before_conclusion h url method hdrs waits) as Hs.
    apply silent_not_failure in Hs.
    destruct (conclusion_shape h r) as (evs & last & Hc & Hevs & Hlast).
    apply local_not_failure in Hevs.
    assert (Hall : Forall (fun e => is_failure e = false)
                          ((secrets h ++ exchange url method hdrs waits) ++ evs)).
    { apply Forall_app. split; assumption. }
    rewrite Hc, !app_assoc in Heq.
    destruct Hlast as [-> | [m ->]].
    + rewrite app_nil_r in Heq. exfalso. revert Heq. apply no_failure. exact Hall.
    + destruct (failure_last _ m Hall _ _ _ Heq) as (-> & _ & ->).
      split; [reflexivity|exact Hall].
  - eexists. split; [exact H|]. cbn [fetches events]. split; [lia|].
    intros pre msg post Heq.
    pose proof (silent_not_failure _ (silent_secrets h)) as Hs.
    destruct (failure_last _ _ Hs _ _ _ Heq) as (-> & _ & ->).
    split; [reflexivity|exact Hs].
Qed.

Definition quoted (s : string) : string := dquote ++ s ++ dquote.

(** An answer to an info whose field [exists] is an object with a member
    named [toString]. *)
Definition info_body : string :=
  "{" ++ quoted "value" ++ ":1," ++ quoted "exists" ++ ":{" ++ quoted "toString"
  ++ ":1}," ++ quoted "full_key" ++ ":" ++ quoted "a" ++ "}".

Definition info_answer : host :=
  mkHost (inputs [("operation", "info"); ("namespace", "ns1"); ("key", "mykey")])
         (fun _ => Resolved (mkResponse 200 [] info_body)).

Lemma failure_reported_once_and_last_witness :
  exists w,
    main info_answer = Some w
    /\ events w = [Fetch "https://abacus.jasoncameron.dev/info/ns1/mykey" GET
                     [("Accept", "application/json")];
                   SetOutput "value" "1";
                   SetFailed "Cannot convert object to primitive value"].
Proof.
  destruct (failure_reported_once_and_last info_answer) as (w & Hm & _).
  exists w. split; [exact Hm|].
  assert (Hw : main info_answer
               = Some (mkWorld 1 [Fetch "https://abacus.jasoncameron.dev/info/ns1/mykey" GET
                                    [("Accept", "application/json")];
                                  SetOutput "value" "1";
                                  SetFailed "Cannot convert object to primitive value"]))
    by (vm_compute; reflexivity).
  rewrite Hw in Hm. injection Hm as <-. reflexivity.
Defined.

Lemma in_silent (e : Event) (l : list Event) :
  Forall silent l -> In e l -> is_output e = false.
Proof. intros H Hin. rewrite Forall_forall in H. apply (H e Hin). Qed.

(** X14.  Every output of a run is named as the operation allows ([value]
    for all, the names and the admin key for create, the five fields of
    info, status and message for delete), and is [String] of the field of
    that name in the payload of the last response, which was ok and whose
    body was read. *)
Theorem outputs_by_operation (h : host) (w : World) (name value : string) :
  main h = Some w ->
  In (SetOutput name value) (events w) ->
  In name (output_names (operation_of h))
  /\ exists res t,
       network h (fetches w - 1) = Resolved res /\ ok res = true
       /\ text res = Ok t
       /\ Json.to_String (Json.get_optional (decode t) name) = Ok value.
Proof.
  intros Hmain Hin. pose proof (main_trace h) as H.
  destruct (validated h) as [[[url method] hdrs]|e].
  - destruct H as (waits & r & Hm & _ & _ & Hlast).
    rewrite Hm in Hmain. injection Hmain as <-. cbn [fetches events] in *.
    rewrite app_assoc in Hin. apply in_app_or in Hin. destruct Hin as [Hin|Hin].
    { apply (in_silent _ _ (silent_before_conclusion h url method hdrs waits)) in Hin.
      discriminate Hin. }
    cbn [Nat.sub]. rewrite Nat.sub_0_r.
    assert (Hno : forall m, ~ In (SetOutput name value) [SetFailed m]).
    { intros m [Hf|[]]. discriminate Hf. }
    unfold conclusion in Hin. destruct r as [res|e]; [|destruct (Hno _ Hin)].
    destruct (network h (List.length waits)) as [e'|res'];
      [destruct Hlast as [Hlast _]; discriminate Hlast|injection Hlast as <-].
    destruct (text res) as [t|e] eqn:Et; [|destruct (Hno _ Hin)].
    destruct (ok res) eqn:Hok; [|destruct (Hno _ Hin)].
    destruct (Json.get (decode t) "value"); [|destruct (Hno _ Hin)].
    apply in_app_or in Hin. destruct Hin as [Hin|Hin].
    + apply perform_outputs in Hin. destruct Hin as (Hn & Hv & _).
      split; [apply actions_names; exact Hn|]. exists res, t. auto.
    + exfalso. unfold reported in Hin.
      destruct (snd (perform (decode t) (actions (operation_of h))));
        [destruct Hin|destruct (Hno _ Hin)].
  - rewrite H in Hmain. injection Hmain as <-. cbn [events] in Hin.
    apply in_app_or in Hin. destruct Hin as [Hin|Hin].
    + apply (in_silent _ _ (silent_secrets h)) in Hin. discriminate Hin.
    + destruct Hin as [Hin|[]]. discriminate Hin.
Qed.

Lemma outputs_by_operation_witness :
  exists w,
    main create_with_admin_key = Some w
    /\ In "admin_key" (output_names (operation_of create_with_admin_key)).
Proof.
  assert (Hw : exists w, main create_with_admin_key = Some w
                         /\ In (SetOutput "admin_key" "abc123") (events w)).
  { eexists. split; [vm_compute; reflexivity|]. cbn [events In]. tauto. }
  destruct Hw as (w & Hm & Hin). exists w. split; [exact Hm|].
  apply (outputs_by_operation create_with_admin_key w "admin_key" "abc123" Hm Hin).
Defined.

(** The request of a run whose inputs pass the validation. *)
Lemma validated_request (h : host) (url : string) (method : HttpMethod)
  (hdrs : list (string * string)) :
  validated h = Ok (url, method, hdrs) ->
  method = methodFor (operation_of h) /\ hdrs = request_headers h
  /\ secrets h = (if isAdminOp (operation_of h)
                  then [SetSecret (getInput h "admin_key")] else []).
Proof.
  unfold validated, secrets. intros H.
  destruct (checked_names h) as [[]|]; [|discriminate H].
  destruct (checked_admin_key h) as [[]|]; [|discriminate H]. cbn [rbind] in H.
  destruct (checked_value h); [|discriminate H]. cbn [rbind] in H.
  destruct (parsed_initializer h); [|discriminate H]. cbn [rbind] in H.
  destruct (parsed_value h); [|discriminate H]. cbn [rbind] in H.
  destruct (buildUrl _ _ _ _ _); [|discriminate H]. cbn [rbind] in H.
  injection H as _ <- <-. auto.
Qed.

(** X15.  Every request of a run is a POST that carries the caller's admin
    key as a bearer token when the operation is one of set, update, reset
    and delete, and then the first thing the run did was to mark that key
    as a secret; for any other operation it is a GET with the [Accept]
    header alone. *)
Theorem admin_key_marked_before_sent (h : host) (w : World) (url : string)
  (method : HttpMethod) (hdrs : list (string * string)) :
  main h = Some w ->
  In (Fetch url method hdrs) (events w) ->
  if isAdminOp (operation_of h)
  then method = POST
       /\ hdrs = [("Accept", "application/json");
                  ("Authorization", "Bearer " ++ getInput h "admin_key")]
       /\ exists rest, events w = SetSecret (getInput h "admin_key") :: rest
  else method = GET /\ hdrs = [("Accept", "application/json")].
Proof.
  intros Hmain Hin. pose proof (main_trace h) as H.
  destruct (validated h) as [[[url0 method0] hdrs0]|e] eqn:Hv.
  - destruct (validated_request h _ _ _ Hv) as (Hm & Hh & Hs).
    destruct (main_request h _ _ _ Hv) as (w' & Hmain' & _ & Hreq).
    rewrite Hmain in Hmain'. injection Hmain' as <-.
    destruct (Hreq _ _ _ Hin) as (_ & -> & ->).
    destruct H as (waits & r & Hm' & _).
    rewrite Hm' in Hmain. injection Hmain as <-. cbn [events].
    rewrite Hm, Hh, Hs. unfold methodFor, request_headers.
    destruct (isAdminOp (operation_of h)); cbn [app].
    + split; [reflexivity|]. split; [reflexivity|]. eexists. reflexivity.
    + split; reflexivity.
  - exfalso. rewrite H in Hmain. injection Hmain as <-. cbn [events] in Hin.
    apply in_app_or in Hin. destruct Hin as [Hin|[Hin|[]]]; [|discriminate Hin].
    destruct (secrets_cases h) as [Hs|Hs]; rewrite Hs in Hin;
      [destruct Hin|destruct Hin as [Hin|[]]; discriminate Hin].
Qed.

Lemma admin_key_marked_before_sent_witness :
  exists w rest,
    main delete_counter = Some w /\ events w = SetSecret "abc123" :: rest.
Proof.
  assert (Hw : exists w,
             main delete_counter = Some w
             /\ In (Fetch "https://abacus.jasoncameron.dev/delete/ns1/mykey" POST
                      [("Accept", "application/json"); ("Authorization", "Bearer abc123")])
                   (events w)).
  { eexists. split; [vm_compute; reflexivity|]. cbn [events In]. tauto. }
  destruct Hw as (w & Hm & Hin).
  pose proof (admin_key_marked_before_sent delete_counter w _ _ _ Hm Hin) as H.
  change (isAdminOp (operation_of delete_counter)) with true in H. cbv iota in H.
  destruct H as (_ & _ & rest & Hrest).
  exists w, rest. split; [exact Hm|exact Hrest].
Defined.

(** X16.  When the last response of a run is ok, its body was read and
    the payload is neither [null] nor [undefined], the run ends on what the
    statements of the operation do: for each field of the operation that the
    payload holds with a value other than [null], the output of [String] of
    that value, in the order value; namespace, key, admin_key (and then the
    marking of an admin key that is a string); exists, expires_in,
    expires_str, full_key, is_genuine; status, message.  The first field of
    which [String] throws ends them, and the run reports that error after
    the outputs set so far; when [String] throws on no field of the
    operation, the run reports no failure.  Nothing is set or reported
    before these events. *)
Theorem ok_response_outputs (h : host) :
  exists w,
    main h = Some w
    /\ forall res t,
         (0 < fetches w)%nat ->
         network h (fetches w - 1) = Resolved res ->
         ok res = true ->
         text res = Ok t ->
         Json.is_nullish (decode t) = false ->
         (exists pre,
            events w
            = (pre ++ fst (perform (decode t) (actions (operation_of h)))
                   ++ reported (snd (perform (decode t) (actions (operation_of h)))))%list
            /\ Forall silent pre)
         /\ ((forall name, In (Output name) (actions (operation_of h)) ->
                           exists s, Json.to_String (Json.get_optional (decode t) name)
                                     = Ok s) ->
             reported (snd (perform (decode t) (actions (operation_of h)))) = []).
Proof.
  pose proof (main_trace h) as H.
  destruct (validated h) as [[[url method] hdrs]|e].
  - destruct H as (waits & r & Hmain & _ & _ & Hlast).
    eexists. split; [exact Hmain|]. cbn [fetches events Nat.sub].
    rewrite Nat.sub_0_r. intros res t _ Hnet Hok Ht Hnull.
    rewrite Hnet in Hlast. subst r. unfold conclusion. rewrite Ht, Hok.
    assert (Hget : Json.get (decode t) "value"
                   = Ok (Json.get_optional (decode t) "value")).
    { destruct (decode t); try reflexivity; discriminate Hnull. }
    rewrite Hget. split.
    + eexists. rewrite app_assoc. split; [reflexivity|].
      apply silent_before_conclusion.
    + intros Hall. rewrite (perform_ok _ _ Hall). reflexivity.
  - eexists. split; [exact H|]. cbn [fetches]. intros res t Hlt. lia.
Qed.

Lemma ok_response_outputs_witness :
  exists w pre,
    main create_with_admin_key = Some w
    /\ events w = (pre ++ [SetOutput "value" "5"; SetOutput "namespace" "ns1";
                           SetOutput "key" "mykey"; SetOutput "admin_key" "abc123";
                           SetSecret "abc123"])%list.
Proof.
  destruct (ok_response_outputs create_with_admin_key) as (w & Hm & Hf).
  assert (Hw : exists evs, main create_with_admin_key = Some (mkWorld 1 evs)).
  { eexists. vm_compute. reflexivity. }
  destruct Hw as (evs & Hw). rewrite Hw in Hm. injection Hm as <-.
  destruct (Hf (mkResponse 200 [] created_body) created_body) as ((pre & Hev & _) & _);
    [cbn; lia|reflexivity|reflexivity|reflexivity|reflexivity|].
  exists (mkWorld 1 evs), pre. split; [exact Hw|].
  rewrite Hev. reflexivity.
Defined.

(** X17.  When the last response of a run is ok and its payload is [null],
    reading the payload's [value] throws: the run reports failure and sets
    no output, although the request succeeded. *)
Theorem null_payload_fails (h : host) :
  exists w,
    main h = Some w
    /\ forall res t,
         (0 < fetches w)%nat ->
         network h (fetches w - 1) = Resolved res ->
         ok res = true ->
         text res = Ok t ->
         decode t = Json.Null ->
         exists pre msg,
           events w = (pre ++ [SetFailed msg])%list /\ Forall silent pre.
Proof.
  pose proof (main_trace h) as H.
  destruct (validated h) as [[[url method] hdrs]|e].
  - destruct H as (waits & r & Hmain & _ & _ & Hlast).
    eexists. split; [exact Hmain|]. cbn [fetches events Nat.sub].
    rewrite Nat.sub_0_r. intros res t _ Hnet Hok Ht Hnull.
    rewrite Hnet in Hlast. subst r. unfold conclusion. rewrite Ht, Hok, Hnull.
    cbn [Json.get throw]. eexists _, _. rewrite app_assoc. split; [reflexivity|].
    apply silent_before_conclusion.
  - eexists. split; [exact H|]. cbn [fetches]. intros res t Hlt. lia.
Qed.

Definition null_answer : host :=
  mkHost (inputs [("operation", "get"); ("namespace", "ns1"); ("key", "mykey")])
         (fun _ => Resolved (mkResponse 200 [] "null")).

Lemma null_payload_fails_witness :
  exists w pre msg,
    main null_answer = Some w /\ events w = (pre ++ [SetFailed msg])%list.
Proof.
  destruct (null_payload_fails null_answer) as (w & Hm & Hf).
  assert (Hw : exists evs, main null_answer = Some (mkWorld 1 evs)).
  { eexists. vm_compute. reflexivity. }
  destruct Hw as (evs & Hw). rewrite Hw in Hm. injection Hm as <-.
  destruct (Hf (mkResponse 200 [] "null") "null") as (pre & msg & Hev & _);
    [cbn; lia|reflexivity|reflexivity|reflexivity|reflexivity|].
  exists (mkWorld 1 evs), pre, msg. split; [exact Hw|exact Hev].
Defined.

(** X18.  When the last response of a run is ok and has an empty body, the
    run ends there: it sets no output and reports no failure. *)
Theorem empty_body_no_outputs (h : host) :
  exists w,
    main h = Some w
    /\ forall res,
         (0 < fetches w)%nat ->
         network h (fetches w - 1) = Resolved res ->
         ok res = true -> text res = Ok "" ->
         Forall silent (events w).
Proof.
  pose proof (main_trace h) as H.
  destruct (validated h) as [[[url method] hdrs]|e].
  - destruct H as (waits & r & Hmain & _ & _ & Hlast).
    eexists. split; [exact Hmain|]. cbn [fetches events Nat.sub].
    rewrite Nat.sub_0_r. intros res _ Hnet Hok Hbody.
    rewrite Hnet in Hlast. subst r. unfold conclusion. rewrite Hbody, Hok.
    change (decode "") with (Json.Obj []). cbn [Json.get].
    assert (Hout : perform (Json.Obj []) (actions (operation_of h)) = ([], Ok tt)).
    { unfold actions.
      destruct (String.eqb (operation_of h) "create"),
        (String.eqb (operation_of h) "info"), (String.eqb (operation_of h) "delete");
        reflexivity. }
    rewrite Hout. cbn [fst snd reported app]. rewrite app_nil_r.
    apply silent_before_conclusion.
  - eexists. split; [exact H|]. cbn [fetches]. intros res Hlt. lia.
Qed.

Definition empty_answer : host :=
  mkHost (inputs [("operation", "info"); ("namespace", "ns1"); ("key", "mykey")])
         (fun _ => Resolved (mkResponse 204 [] "")).

Lemma empty_body_no_outputs_witness :
  exists w, main empty_answer = Some w /\ Forall silent (events w).
Proof.
  destruct (empty_body_no_outputs empty_answer) as (w & Hm & Hf).
  assert (Hw : exists evs, main empty_answer = Some (mkWorld 1 evs)).
  { eexists. vm_compute. reflexivity. }
  destruct Hw as (evs & Hw). rewrite Hw in Hm. injection Hm as <-.
  exists (mkWorld 1 evs). split; [exact Hw|].
  apply (Hf (mkResponse 204 [] "")); [cbn; lia|reflexivity|reflexivity|reflexivity].
Defined.

(** ** Numbers that are no integers *)

Lemma checked_names_valid (h : host) :
  Identifier (getInput h "namespace") -> Identifier (getInput h "key") ->
  checked_names h = Ok tt.
Proof.
  intros Hns Hkey. unfold checked_names.
  rewrite !requireNonEmpty_identifier by assumption.
  rewrite (validateName_identifier KNamespace _ Hns).
  rewrite (validateName_identifier KKey _ Hkey). reflexivity.
Qed.

Lemma parseInteger_refuses (name raw : string) :
  isFinite (Number raw) && isInteger (Number raw) = false ->
  parseInteger name raw
  = throw ("Invalid " ++ name ++ ": expected integer, got " ++ dquote ++ raw ++ dquote).
Proof.
  intros H. unfold parseInteger. cbv zeta.
  rewrite <- negb_andb, H. reflexivity.
Qed.

(** X19.  A run whose number is no integer makes no request.  With a valid
    namespace and key, a create whose initializer, or a set or update whose
    value (given together with the admin key), is not read by [Number] as a
    finite integer reports that the text is invalid, naming the input and
    quoting the text; all it has done before is to mark the admin key of
    the set or update as a secret. *)
Theorem non_integer_number_no_request (h : host) (name raw : string) :
  Identifier (getInput h "namespace") -> Identifier (getInput h "key") ->
  (operation_of h = "create" /\ name = "initializer"
   /\ raw = or_default (getInput h "initializer") "0")
  \/ ((operation_of h = "set" \/ operation_of h = "update") /\ name = "value"
      /\ raw = getInput h "value" /\ present h "value" /\ present h "admin_key") ->
  isFinite (Number raw) && isInteger (Number raw) = false ->
  main h
  = Some (mkWorld 0
            ((if isAdminOp (operation_of h)
              then [SetSecret (getInput h "admin_key")] else [])
               ++ [SetFailed ("Invalid " ++ name ++ ": expected integer, got "
                              ++ dquote ++ raw ++ dquote)])).
Proof.
  intros Hns Hkey Hcase Hnum.
  pose proof (checked_names_valid h Hns Hkey) as Hnames.
  pose proof (parseInteger_refuses name raw Hnum) as Hparse.
  pose proof (main_trace h) as H.
  assert (Hv : validated h
               = throw ("Invalid " ++ name ++ ": expected integer, got "
                        ++ dquote ++ raw ++ dquote)
               /\ secrets h = (if isAdminOp (operation_of h)
                               then [SetSecret (getInput h "admin_key")] else [])).
  { unfold validated, secrets. rewrite Hnames. cbn [rbind].
    unfold checked_admin_key, checked_value, parsed_initializer, parsed_value.
    destruct Hcase as [(Hop & -> & ->)|(Hop & -> & -> & Hval & Hkeyp)].
    - rewrite Hop. cbn [isAdminOp String.eqb Ascii.eqb Bool.eqb orb andb rbind].
      rewrite Hparse. split; reflexivity.
    - assert (Hreq : requireNonEmpty "admin_key" (getInput h "admin_key") = Ok tt)
        by (apply requireNonEmpty_spec; exact Hkeyp).
      assert (Hnb : is_empty (getInput h "value")
                    || String.eqb (JsString.trim (getInput h "value")) "" = false).
      { unfold present in Hval.
        destruct (getInput h "value") as [|c r] eqn:Ev; [exfalso; apply Hval; reflexivity|].
        cbn [is_empty orb]. apply String.eqb_neq. exact Hval. }
      rewrite Hnb, Hreq, Hparse.
      destruct Hop as [Hop|Hop]; rewrite Hop;
        cbn [isAdminOp String.eqb Ascii.eqb Bool.eqb orb andb rbind]; split; reflexivity. }
  destruct Hv as [Hv Hs]. rewrite Hv in H. unfold throw in H. cbn [message] in H.
  rewrite Hs in H. exact H.
Qed.

Definition set_fraction : host :=
  mkHost (inputs [("operation", "set"); ("namespace", "ns1"); ("key", "mykey");
                  ("value", "1.5"); ("admin_key", "k")])
         (fun _ => Rejected (mkError "unreachable")).

Lemma non_integer_number_no_request_witness :
  main set_fraction
  = Some (mkWorld 0 [SetSecret "k";
                     SetFailed ("Invalid value: expected integer, got "
                                ++ dquote ++ "1.5" ++ dquote)]).
Proof.
  apply (non_integer_number_no_request set_fraction "value" "1.5").
  - apply NAME_RE_test_spec. reflexivity.
  - apply NAME_RE_test_spec. reflexivity.
  - right. split; [now left|]. split; [reflexivity|]. split; [reflexivity|].
    split; vm_compute; discriminate.
  - reflexivity.
Defined.

(** ** Inputs that a run does not read *)

(** The host with one input replaced. *)
Definition with_input (h : host) (name value : string) : host :=
  mkHost (fun n => if String.eqb n name then value else input h n) (network h).

Lemma run_validated (h : host) :
  run h start
  = match validated h with
    | Ok req =>
      (res <- requestWithRetries h (fst (fst req)) (snd (fst req)) (snd req) ;;
       respond (operation_of h) res) (mkWorld 0 (secrets h))
    | Err e => Some (Err e, mkWorld 0 (secrets h))
    end.
Proof.
  rewrite run_split. unfold bind at 1. rewrite prepare_eq.
  destruct (validated h); reflexivity.
Qed.

Lemma retry_loop_network (i i' : string -> string) (n : nat -> FetchOutcome)
  (url : string) (method : HttpMethod) (hdrs : list (string * string)) :
  forall (fuel : nat) (attempt backoffMs : Z) (w : World),
    retry_loop fuel (mkHost i n) url method hdrs attempt backoffMs w
    = retry_loop fuel (mkHost i' n) url method hdrs attempt backoffMs w.
Proof.
  induction fuel as [|f IH]; intros attempt backoffMs w; [reflexivity|].
  rewrite !retry_loop_S. cbn [network]. cbv zeta.
  destruct (snd (transition (attempt + 1) backoffMs (n (fetches w)))) as [[res|b]|e];
    try reflexivity.
  apply IH.
Qed.

(** A run depends on its inputs through the validation alone. *)
Lemma main_congruence (i i' : string -> string) (n : nat -> FetchOutcome) :
  validated (mkHost i n) = validated (mkHost i' n) ->
  secrets (mkHost i n) = secrets (mkHost i' n) ->
  operation_of (mkHost i n) = operation_of (mkHost i' n) ->
  main (mkHost i n) = main (mkHost i' n).
Proof.
  intros Hv Hs Ho. rewrite !main_eq, !run_validated, Hv, Hs, Ho.
  destruct (validated (mkHost i' n)) as [[[url method] hdrs]|e]; [|reflexivity].
  cbn [fst snd]. unfold bind, requestWithRetries, requestWithRetries_fuel.
  rewrite (retry_loop_network i i' n). reflexivity.
Qed.

(** An input that the operation does not use. *)
Definition unused (h : host) (name : string) : Prop :=
  (name = "initializer" /\ operation_of h <> "create")
  \/ (name = "value" /\ operation_of h <> "set" /\ operation_of h <> "update")
  \/ (name = "admin_key" /\ isAdminOp (operation_of h) = false).

(** X20.  An input that the operation does not use is neither checked nor
    sent: whatever the initializer of an operation other than create, the
    value of an operation other than set and update, or the admin key of an
    operation other than set, update, reset and delete, the run is the
    same. *)
Theorem unused_input_ignored (h : host) (name value : string) :
  unused h name -> main (with_input h name value) = main h.
Proof.
  destruct h as [i n]. unfold with_input. cbn [input network].
  intros Hun. apply main_congruence.
  - unfold validated, checked_admin_key, checked_value, parsed_initializer,
      parsed_value, request_headers.
    destruct Hun as [[-> Hop]|[[-> [Hop1 Hop2]]|[-> Hop]]].
    + change (operation_of (mkHost (fun n0 => if String.eqb n0 "initializer"
                                              then value else i n0) n))
        with (operation_of (mkHost i n)).
      apply String.eqb_neq in Hop. rewrite Hop. reflexivity.
    + change (operation_of (mkHost (fun n0 => if String.eqb n0 "value"
                                              then value else i n0) n))
        with (operation_of (mkHost i n)).
      apply String.eqb_neq in Hop1. apply String.eqb_neq in Hop2.
      rewrite Hop1, Hop2. reflexivity.
    + change (operation_of (mkHost (fun n0 => if String.eqb n0 "admin_key"
                                              then value else i n0) n))
        with (operation_of (mkHost i n)).
      rewrite Hop. reflexivity.
  - unfold secrets, checked_admin_key.
    destruct Hun as [[-> Hop]|[[-> [Hop1 Hop2]]|[-> Hop]]].
    + reflexivity.
    + reflexivity.
    + change (operation_of (mkHost (fun n0 => if String.eqb n0 "admin_key"
                                              then value else i n0) n))
        with (operation_of (mkHost i n)).
      rewrite Hop. reflexivity.
  - destruct Hun as [[-> _]|[[-> _]|[-> _]]]; reflexivity.
Qed.

Lemma unused_input_ignored_witness :
  main (with_input not_found_host "initializer" "not a number") = main not_found_host.
Proof.
  apply (unused_input_ignored not_found_host "initializer" "not a number").
  left. split; [reflexivity|]. vm_compute. discriminate.
Defined.

(** X21.  A run without an operation is a hit: when the operation input is
    empty or white space only, the run is that of the same inputs with the
    operation hit. *)
Theorem blank_operation_is_hit (h : host) :
  JsString.is_blank (input h "operation") = true ->
  main h = main (with_input h "operation" "hit").
Proof.
  destruct h as [i n]. unfold with_input. cbn [input network]. intros Hb.
  assert (Hop : operation_of (mkHost i n) = "hit").
  { unfold operation_of, getInput. cbn [input]. rewrite (trim_blank _ Hb). reflexivity. }
  apply main_congruence.
  - unfold validated, checked_admin_key, checked_value, parsed_initializer,
      parsed_value, request_headers.
    change (operation_of (mkHost (fun n0 => if String.eqb n0 "operation"
                                            then "hit" else i n0) n))
      with "hit".
    rewrite Hop. reflexivity.
  - unfold secrets, checked_admin_key.
    change (operation_of (mkHost (fun n0 => if String.eqb n0 "operation"
                                            then "hit" else i n0) n))
      with "hit".
    rewrite Hop. reflexivity.
  - rewrite Hop. reflexivity.
Qed.

Definition no_operation : host :=
  mkHost (inputs [("namespace", "ns1"); ("key", "mykey")])
         (fun _ => Resolved (mkResponse 200 [] "{}")).

Lemma blank_operation_is_hit_witness :
  main no_operation
  = Some (mkWorld 1 [Fetch "https://abacus.jasoncameron.dev/hit/ns1/mykey" GET
                       [("Accept", "application/json")]]).
Proof.
  rewrite (blank_operation_is_hit no_operation eq_refl). vm_compute. reflexivity.
Defined.

(** X22.  When the last call of [fetch] of a run was rejected, it was the
    fifth: the run reports the message of that rejection as it is, and sets
    no output. *)
Theorem rejection_reported_after_five_attempts (h : host) :
  exists w,
    main h = Some w
    /\ forall e,
         (0 < fetches w)%nat ->
         network h (fetches w - 1) = Rejected e ->
         fetches w = 5%nat
         /\ exists pre,
              events w = (pre ++ [SetFailed (message e)])%list /\ Forall silent pre.
Proof.
  pose proof (main_trace h) as H.
  destruct (validated h) as [[[url method] hdrs]|e].
  - destruct H as (waits & r & Hmain & _ & _ & Hlast).
    eexists. split; [exact Hmain|]. cbn [fetches events Nat.sub].
    rewrite Nat.sub_0_r. intros e _ Hnet.
    rewrite Hnet in Hlast. destruct Hlast as [-> Hfour].
    split; [lia|]. unfold conclusion. eexists. rewrite app_assoc.
    split; [reflexivity|]. apply silent_before_conclusion.
  - eexists. split; [exact H|]. cbn [fetches]. intros e' Hlt. lia.
Qed.

Definition unreachable_service : host :=
  mkHost (inputs [("operation", "get"); ("namespace", "ns1"); ("key", "mykey")])
         (fun _ => Rejected (mkError "fetch failed")).

Lemma rejection_reported_after_five_attempts_witness :
  exists w pre,
    main unreachable_service = Some w /\ fetches w = 5%nat
    /\ events w = (pre ++ [SetFailed "fetch failed"])%list.
Proof.
  destruct (rejection_reported_after_five_attempts unreachable_service) as (w & Hm & Hf).
  assert (Hw : exists evs, main unreachable_service = Some (mkWorld 5 evs)).
  { eexists. vm_compute. reflexivity. }
  destruct Hw as (evs & Hw). rewrite Hw in Hm. injection Hm as <-.
  destruct (Hf (mkError "fetch failed")) as (Hfive & pre & Hev & _);
    [cbn; lia|reflexivity|].
  exists (mkWorld 5 evs), pre. split; [exact Hw|]. split; [exact Hfive|exact Hev].
Defined.

(** X23.  The checks of the names come in the order of the statements, and
    the first that fails is the one reported: a missing namespace before
    anything about the key, a missing key before the pattern of the
    namespace.  Nothing else has been done by then. *)
Theorem missing_names_reported_first (h : host) :
  (missing h "namespace" ->
   main h = Some (mkWorld 0 [SetFailed "Missing required input: namespace"]))
  /\ (present h "namespace" -> missing h "key" ->
      main h = Some (mkWorld 0 [SetFailed "Missing required input: key"])).
Proof.
  pose proof (main_trace h) as H.
  split.
  - intros Hns.
    assert (Hc : checked_names h = throw "Missing required input: namespace").
    { unfold checked_names.
      rewrite (proj1 (requireNonEmpty_spec "namespace" _) Hns). reflexivity. }
    unfold validated, secrets in H. rewrite Hc in H. exact H.
  - intros Hns Hkey.
    assert (Hc : checked_names h = throw "Missing required input: key").
    { unfold checked_names.
      rewrite (proj2 (requireNonEmpty_spec "namespace" _) Hns).
      rewrite (proj1 (requireNonEmpty_spec "key" _) Hkey). reflexivity. }
    unfold validated, secrets in H. rewrite Hc in H. exact H.
Qed.

Definition bad_namespace_no_key : host :=
  mkHost (inputs [("operation", "delete"); ("namespace", "a b"); ("admin_key", "k")])
         (fun _ => Rejected (mkError "unreachable")).

Lemma missing_names_reported_first_witness :
  main bad_namespace_no_key
  = Some (mkWorld 0 [SetFailed "Missing required input: key"]).
Proof.
  apply (proj2 (missing_names_reported_first bad_namespace_no_key)).
  - vm_compute. discriminate.
  - reflexivity.
Defined.

End ActionProps.

(* ================================================================== *)
(** * Further properties: the numeral of a number *)
(* ================================================================== *)

Module PrintProps.

Import JsNumber NumberProps ParseProps.

(** ** The numeral of a multiple of a power of ten *)

Lemma string_of_revapp (d : Decimal.uint) :
  forall d' : Decimal.uint,
    NilEmpty.string_of_uint (Decimal.revapp d d')
    = NilEmpty.string_of_uint (Decimal.revapp d Decimal.Nil)
      ++ NilEmpty.string_of_uint d'.
Proof.
  induction d; intros d'; cbn [Decimal.revapp];
    [reflexivity|..];
    rewrite IHd; symmetry; rewrite IHd; cbn [NilEmpty.string_of_uint];
    rewrite ValidatorProps.append_assoc; reflexivity.
Qed.

Lemma Z_to_string_tenfold (p : positive) :
  Z_to_string (Z.pos (10 * p)) = Z_to_string (Z.pos p) ++ "0".
Proof.
  unfold Z_to_string. cbn [Z.to_int NilEmpty.string_of_int].
  unfold Pos.to_uint, Decimal.rev.
  pose proof (DecimalPos.Unsigned.to_ldec_tenfold p) as H.
  cbn [DecimalPos.Unsigned.to_lu N.mul] in H. rewrite H.
  cbn [Decimal.revapp]. rewrite string_of_revapp. reflexivity.
Qed.

Lemma zeros_succ (j : nat) :
  repeat_char "0" (S j) = repeat_char "0" j ++ "0".
Proof.
  induction j as [|j IH]; [reflexivity|].
  cbn [repeat_char append] in *. rewrite <- IH. reflexivity.
Qed.

Lemma Z_to_string_zeros (s : Z) (j : nat) :
  0 < s -> Z_to_string (s * 10 ^ Z.of_nat j) = Z_to_string s ++ repeat_char "0" j.
Proof.
  intros Hs. induction j as [|j IH].
  - change (10 ^ Z.of_nat 0) with 1. rewrite Z.mul_1_r, UrlProps.append_nil_r.
    reflexivity.
  - rewrite zeros_succ, <- ValidatorProps.append_assoc, <- IH.
    replace (Z.of_nat (S j)) with (Z.of_nat j + 1) by lia.
    rewrite Z.pow_add_r by lia. change (10 ^ 1) with 10.
    assert (Hp : 0 < s * 10 ^ Z.of_nat j)
      by (apply Z.mul_pos_pos; [exact Hs|apply Z.pow_pos_nonneg; lia]).
    destruct (s * 10 ^ Z.of_nat j) as [|p|p] eqn:E; try lia.
    replace (s * (10 ^ Z.of_nat j * 10)) with (Z.pos (10 * p)) by lia.
    apply Z_to_string_tenfold.
Qed.

(** ** Integers below 2^53 are read back from their own numeral only *)

Lemma round_half_even_floor (num den : Z) : num / den <= round_half_even num den.
Proof.
  unfold round_half_even. cbv zeta.
  destruct (2 * (num mod den) <? den); [lia|].
  destruct (den <? 2 * (num mod den)); [lia|].
  destruct (Z.even (num / den)); lia.
Qed.

Lemma to_double_abs_large (u v : Z) :
  2 ^ 53 <= u -> eqb (to_double_abs u 1) (Finite v 0) = true -> 2 ^ 53 <= v.
Proof.
  intros Hu. assert (Hpos : 0 < u) by lia. unfold to_double_abs.
  replace (u =? 0) with false by (symmetry; apply Z.eqb_neq; lia).
  rewrite (binade_one u Hpos).
  assert (Hlog : 53 <= Z.log2 u).
  { change 53 with (Z.log2 (2 ^ 53)). apply Z.log2_le_mono. exact Hu. }
  rewrite (Z.max_l (Z.log2 u - 52) (-1074)) by lia.
  replace (0 <=? Z.log2 u - 52) with true by (symmetry; apply Z.leb_le; lia).
  cbn [andb]. rewrite Z.mul_1_l.
  set (E := Z.log2 u - 52) in *.
  destruct (2 ^ 1024 <=? round_half_even u (2 ^ E) * 2 ^ E); [discriminate|].
  unfold eqb. rewrite (Z.min_r E 0) by lia. rewrite !Z.sub_0_r.
  change (2 ^ 0) with 1. rewrite Z.mul_1_r. intros H. apply Z.eqb_eq in H.
  assert (HE : 0 < 2 ^ E) by (apply Z.pow_pos_nonneg; lia).
  assert (Hq : 2 ^ 52 <= u / 2 ^ E).
  { apply Z.div_le_lower_bound; [exact HE|].
    rewrite <- Z.pow_add_r by lia. replace (E + 52) with (Z.log2 u) by (unfold E; ring).
    apply Z.log2_spec. exact Hpos. }
  pose proof (round_half_even_floor u (2 ^ E)) as Hr.
  assert (H2 : 2 <= 2 ^ E).
  { change 2 with (2 ^ 1) at 1. apply Z.pow_le_mono_r; lia. }
  rewrite <- H. change (2 ^ 53) with (2 ^ 52 * 2).
  apply Z.mul_le_mono_nonneg; lia.
Qed.

Lemma round_trips_exact (v s e : Z) :
  0 < v < 2 ^ 53 -> 0 <= s -> 0 <= e ->
  round_trips (Finite v 0) s e = true -> s * 10 ^ e = v.
Proof.
  intros Hv Hs He. unfold round_trips, of_decimal, to_double.
  replace (0 <=? e) with true by (symmetry; apply Z.leb_le; lia).
  assert (Hu : 0 <= s * 10 ^ e) by (apply Z.mul_nonneg_nonneg; [lia|apply Z.pow_nonneg; lia]).
  set (u := s * 10 ^ e) in *. intros H.
  destruct (Z.eq_dec u 0) as [E0|E0].
  - rewrite E0 in H. vm_compute in H. 
    exfalso. destruct v; try lia; discriminate H.
  - destruct (Z.lt_ge_cases u (2 ^ 53)) as [Hlt|Hge].
    + assert (Hself : eqb (to_double_abs u 1) (Finite u 0) = true).
      { apply to_double_abs_representable; [apply small_representable; lia|].
        split; [lia|]. eapply Z.lt_trans; [exact Hlt|reflexivity]. }
      destruct (eqb_integer _ _ Hself) as (_ & _ & H1).
      destruct (eqb_integer _ _ H) as (_ & _ & H2). congruence.
    + apply to_double_abs_large in H; [lia|exact Hge].
Qed.

(** ** The digits of an integer below 2^53 *)

(** The digits read back as [v]. *)
Definition reads_back (v : Z) (r : Z * Z * Z) : Prop :=
  let '(s, k, n) := r in
  0 <= n - k /\ round_trips (Finite v 0) s (n - k) = true.

Lemma pick_digits_reads_back (v n0 s k : Z) :
  1 <= k <= n0 ->
  round_trips (Finite v 0) s (n0 - k) = true ->
  reads_back v (pick_digits s k n0).
Proof.
  intros Hk Hrt. unfold pick_digits, reads_back.
  destruct (s =? 10 ^ k) eqn:E; [|split; [lia|exact Hrt]].
  apply Z.eqb_eq in E. split; [lia|].
  replace (n0 + 1 - 1) with n0 by ring.
  unfold round_trips, of_decimal in *.
  replace (0 <=? n0 - k) with true in Hrt by (symmetry; apply Z.leb_le; lia).
  replace (0 <=? n0) with true by (symmetry; apply Z.leb_le; lia).
  rewrite E, <- Z.pow_add_r in Hrt by lia.
  replace (k + (n0 - k)) with n0 in Hrt by ring.
  rewrite Z.mul_1_l. exact Hrt.
Qed.

Lemma shortest_digits_reads_back (v n0 : Z) :
  0 < v ->
  round_trips (Finite v 0) v 0 = true ->
  forall (fuel : nat) (k : Z),
    1 <= k <= n0 -> n0 - k < Z.of_nat fuel ->
    reads_back v (shortest_digits fuel (Finite v 0) v 1 n0 k).
Proof.
  intros Hv Hself. induction fuel as [|f IH]; intros k Hk Hfuel; [lia|].
  cbn [shortest_digits]. cbv zeta.
  rewrite (Z.max_r (k - n0) 0), (Z.max_l (n0 - k) 0) by lia.
  change (10 ^ 0) with 1. rewrite Z.mul_1_r, Z.mul_1_l.
  destruct (round_trips (Finite v 0) (v / 10 ^ (n0 - k)) (n0 - k)) eqn:Eok_lo;
    destruct (round_trips (Finite v 0) (v / 10 ^ (n0 - k) + 1) (n0 - k)) eqn:Eok_hi;
    cbn [andb].
  - destruct (2 * (v - v / 10 ^ (n0 - k) * 10 ^ (n0 - k)) <? 10 ^ (n0 - k));
      [apply pick_digits_reads_back; assumption|].
    destruct (10 ^ (n0 - k) <? 2 * (v - v / 10 ^ (n0 - k) * 10 ^ (n0 - k)));
      [apply pick_digits_reads_back; assumption|].
    destruct (Z.even (v / 10 ^ (n0 - k))); apply pick_digits_reads_back; assumption.
  - apply pick_digits_reads_back; assumption.
  - apply pick_digits_reads_back; assumption.
  - destruct (Z.eq_dec k n0) as [->|Hne].
    + exfalso. rewrite Z.sub_diag in Eok_lo. change (10 ^ 0) with 1 in Eok_lo.
      rewrite Z.div_1_r in Eok_lo. congruence.
    + apply IH; lia.
Qed.

(** [String] of a positive integer below 2^53 is its decimal numeral. *)
Lemma positive_to_string_numeral (v : Z) :
  0 < v < 2 ^ 53 -> positive_to_string v 0 = Z_to_string v.
Proof.
  intros Hv. unfold positive_to_string.
  rewrite Z.max_id. change (- 0) with 0. rewrite Z.max_id.
  change (2 ^ 0) with 1. rewrite Z.mul_1_r.
  unfold decimal_exponent. replace (1 <=? v) with true by (symmetry; apply Z.leb_le; lia).
  assert (H16 : v < 1 * 10 ^ 16).
  { eapply Z.lt_trans; [apply Hv|]. reflexivity. }
  destruct (exponent_up_spec v 1 400 1 16) as [Hn0 Hlt]; [lia|cbn; lia|exact H16|].
  set (n0 := exponent_up 400 v 1 1) in *. rewrite Z.mul_1_l in Hlt.
  assert (Hself : round_trips (Finite v 0) v 0 = true).
  { unfold round_trips, of_decimal, to_double. cbn [Z.leb Z.compare].
    change (10 ^ 0) with 1. rewrite Z.mul_1_r.
    apply to_double_abs_representable; [apply small_representable; lia|].
    split; [lia|]. eapply Z.lt_trans; [apply Hv|]. reflexivity. }
  pose proof (shortest_digits_integer v n0 (conj (proj1 Hv) Hlt) Hself 17 1 ltac:(lia)) as Hd.
  pose proof (shortest_digits_reads_back v n0 (proj1 Hv) Hself 17 1 ltac:(lia) ltac:(lia))
    as Hr.
  destruct (shortest_digits 17 (Finite v 0) v 1 n0 1) as [[s k] n].
  destruct Hd as (Hs & Hk & Hn). destruct Hr as [Hnk Hrt].
  assert (Hn21 : n <= 21) by (destruct Hn as [->|(-> & _)]; lia).
  replace (k <=? n) with true by (symmetry; apply Z.leb_le; lia).
  replace (n <=? 21) with true by (symmetry; apply Z.leb_le; lia).
  cbn [andb].
  pose proof (round_trips_exact v s (n - k) Hv Hs Hnk Hrt) as Hval.
  assert (Hspos : 0 < s).
  { destruct (Z.eq_dec s 0) as [->|]; [|lia]. rewrite Z.mul_0_l in Hval. lia. }
  unfold zeros. rewrite <- Z_to_string_zeros by exact Hspos.
  rewrite Z2Nat.id by lia. rewrite Hval. reflexivity.
Qed.

(** [String] of an integer of magnitude below 2^53 is its decimal
    numeral. *)
Lemma to_string_numeral (n : Z) :
  Z.abs n < 2 ^ 53 -> to_string (of_Z n) = Z_to_string n.
Proof.
  intros Hn. unfold to_string, of_Z. destruct n as [|p|p].
  - reflexivity.
  - cbn [Z.eqb Z.ltb Z.compare]. apply positive_to_string_numeral. lia.
  - cbn [Z.eqb Z.ltb Z.compare Z.opp].
    rewrite positive_to_string_numeral by lia. reflexivity.
Qed.

Lemma numeral_chars (n : Z) :
  all_chars (fun c => is_digit c || is_char 45 c) (Z_to_string n) = true
  /\ Z_to_string n <> "".
Proof.
  assert (Hor : forall s, all_chars is_digit s = true ->
                          all_chars (fun c => is_digit c || is_char 45 c) s = true).
  { intros s. apply UrlProps.all_chars_impl. intros c ->. reflexivity. }
  destruct n as [|p|p].
  - split; [reflexivity|discriminate].
  - destruct (Z_to_string_digits (Z.pos p)) as [Hd Hne]; [lia|].
    split; [apply Hor; exact Hd|exact Hne].
  - destruct (Z_to_string_digits (Z.pos p)) as [Hd Hne]; [lia|].
    change (Z_to_string (Z.neg p)) with ("-" ++ Z_to_string (Z.pos p)).
    split; [|discriminate]. cbn [append all_chars].
    rewrite (Hor _ Hd). reflexivity.
Qed.

End PrintProps.

(* ================================================================== *)
(** * Further properties: the number given and the number sent *)
(* ================================================================== *)

Module RoundTripProps.

Import Validator JsNumber Host Main ValidatorProps RetryProps UrlProps NumberProps RunProps.
Import TrimProps ParseProps PrintProps.

Lemma numeral_name_chars (n : Z) : all_chars name_char (Z_to_string n) = true.
Proof.
  destruct (numeral_chars n) as [H _]. revert H. apply all_chars_impl.
  intros c Hc. unfold name_char. apply orb_true_iff in Hc. destruct Hc as [Hc|Hc].
  - rewrite Hc. rewrite orb_true_r. reflexivity.
  - apply orb_true_iff. right. unfold one_of. cbn [existsb]. unfold is_char in Hc.
    rewrite Hc. rewrite !orb_true_r. reflexivity.
Qed.

Lemma numeral_present (h : host) (name : string) (n : Z) :
  getInput h name = Z_to_string n -> present h name.
Proof.
  intros H. unfold present. rewrite H, (trim_name_chars _ (numeral_name_chars n)).
  apply numeral_chars.
Qed.

(** X24.  The number given is the number sent.  With a valid namespace and
    key, a create whose initializer, or a set or update (given its admin
    key) whose value, is the decimal numeral of an integer of magnitude
    below 2^53 makes its requests to the URL of the operation, the
    namespace and the key with that same numeral as the query parameter. *)
Theorem decimal_number_sent_as_given (h : host) (param : string) (n : Z) :
  Identifier (getInput h "namespace") -> Identifier (getInput h "key") ->
  Z.abs n < 2 ^ 53 ->
  (operation_of h = "create" /\ param = "initializer"
   /\ getInput h "initializer" = Z_to_string n)
  \/ ((operation_of h = "set" \/ operation_of h = "update") /\ param = "value"
      /\ getInput h "value" = Z_to_string n /\ present h "admin_key") ->
  exists w,
    main h = Some w
    /\ (0 < attempts (events w))%nat
    /\ forall url method hdrs,
         In (Fetch url method hdrs) (events w) ->
         url = BASE_URL ++ "/" ++ operation_of h ++ "/" ++ getInput h "namespace"
               ++ "/" ++ getInput h "key" ++ "?" ++ param ++ "=" ++ Z_to_string n.
Proof.
  intros Hns Hkey Hn Hcase.
  assert (Hparse : forall name, parseInteger name (Z_to_string n) = Ok n)
    by (intros name; apply parseInteger_decimal_value; lia).
  assert (Hquery : JsUrl.urlencoded_string (to_string (of_Z n)) = Z_to_string n).
  { rewrite (to_string_numeral n Hn). apply urlencoded_string_digits.
    apply numeral_chars. }
  assert (Hknown : known_operation (operation_of h)).
  { unfold known_operation.
    destruct Hcase as [(-> & _)|([-> | ->] & _)]; cbn [In]; tauto. }
  destruct (known_operation_plain _ Hknown) as (Hplain & Hd1 & Hd2 & _ & _).
  assert (Hv : validated h
               = Ok (BASE_URL ++ "/" ++ operation_of h ++ "/" ++ getInput h "namespace"
                     ++ "/" ++ getInput h "key" ++ query_text (operation_of h) n n,
                     methodFor (operation_of h), request_headers h)).
  { apply validated_valid; try assumption.
    - intros Hadmin. destruct Hcase as [(Hop & _)|(_ & _ & _ & Hp)]; [|exact Hp].
      rewrite Hop in Hadmin. discriminate Hadmin.
    - intros Hop. destruct Hcase as [(_ & _ & Hi)|([Hop'|Hop'] & _)];
        try (rewrite Hop in Hop'; discriminate Hop').
      rewrite Hi. destruct (numeral_chars n) as [_ Hne].
      unfold or_default. destruct (Z_to_string n); [contradiction|]. apply Hparse.
    - intros Hop. destruct Hcase as [(Hop' & _)|(_ & _ & Hval & _)].
      + destruct Hop as [Hop|Hop]; rewrite Hop in Hop'; discriminate Hop'.
      + split; [exact (numeral_present h "value" n Hval)|]. rewrite Hval. apply Hparse. }
  destruct (main_request h _ _ _ Hv) as (w & Hmain & Hatt & Hreq).
  exists w. split; [exact Hmain|]. split; [exact Hatt|].
  intros url method hdrs Hin. destruct (Hreq _ _ _ Hin) as (-> & _ & _).
  unfold query_text.
  destruct Hcase as [(-> & -> & _)|([-> | ->] & -> & _)];
    cbn [String.eqb Ascii.eqb Bool.eqb orb]; rewrite Hquery; reflexivity.
Qed.

Definition set_counter : host :=
  mkHost (inputs [("operation", "set"); ("namespace", "ns1"); ("key", "mykey");
                  ("value", "-1234567890123"); ("admin_key", "k")])
         (fun _ => Resolved (mkResponse 200 [] "{}")).

Lemma decimal_number_sent_as_given_witness :
  exists w,
    main set_counter = Some w
    /\ forall url method hdrs,
         In (Fetch url method hdrs) (events w) ->
         url = "https://abacus.jasoncameron.dev/set/ns1/mykey?value=-1234567890123".
Proof.
  destruct (decimal_number_sent_as_given set_counter "value" (-1234567890123))
    as (w & Hmain & _ & Hreq).
  - apply NAME_RE_test_spec. reflexivity.
  - apply NAME_RE_test_spec. reflexivity.
  - reflexivity.
  - right. split; [now left|]. split; [reflexivity|]. split; [reflexivity|].
    vm_compute. discriminate.
  - exists w. split; [exact Hmain|]. intros url method hdrs Hin.
    rewrite (Hreq url method hdrs Hin). reflexivity.
Defined.

End RoundTripProps.
